(** * am-i-genki: commit-activity aggregation and badge cache

    A shallow embedding of the badge service (utils, github, cache and
    the /badge and /health routes of index.ts) together with the
    properties of its specification and further properties of the code.

    Conventions of the embedding.
    - JavaScript strings are [string]s of bytes; [toLowerCase] and the
      case-insensitive regular expressions act on the ASCII letters, which
      is where they differ from the identity on the bot patterns.
    - JavaScript numbers that hold counts, thresholds, HTTP statuses and
      millisecond time values are [Z]; a number that may fail to be finite
      ([parseInt] of a header or of a variable) is an [option Z] with
      [None] for NaN and for the infinities, and an integer read from
      digits is rounded to the nearest number of the language.
    - [async] functions are computations in a state and exception monad
      over the observable world: the clock, the answers of the provider,
      the key-value store and the trace of effects. The promises of a
      [Promise.all] run in the order of their array; every count that is
      proved is independent of that order.
    - The provider answers each call of [fetch] by a network failure or by
      a response whose JSON body, when it is an array, holds elements of
      the type that types.ts declares for the endpoint, or [null]s.
    - The store answers every [get] and [put]; the configuration is the
      value of [getConfig(env)], with integers in its numeric fields.
    - A call of an [async] function runs where it is called up to its
      first [await]. The promise that the handler hands to [waitUntil] is
      the call of [updateCacheInBackground] at that point: what it did so
      far belongs to the request, and the rest is recorded as a task that
      the runtime runs later. *)

From Stdlib Require Import ZArith Lia Bool List Ascii String DecimalString DecimalPos DecimalN.
From stdpp Require Import base option list strings gmap.

Local Open Scope string_scope.
Local Open Scope list_scope.
Local Open Scope Z_scope.

(** ** JavaScript strings *)

Definition is_upper (c : ascii) : bool :=
  let n := nat_of_ascii c in (65 <=? n)%nat && (n <=? 90)%nat.

Definition is_lower (c : ascii) : bool :=
  let n := nat_of_ascii c in (97 <=? n)%nat && (n <=? 122)%nat.

Definition lower_ascii (c : ascii) : ascii :=
  if is_upper c then ascii_of_nat (nat_of_ascii c + 32) else c.

Definition upper_ascii (c : ascii) : ascii :=
  if is_lower c then ascii_of_nat (nat_of_ascii c - 32) else c.

(** [String.prototype.toLowerCase]. *)
Fixpoint toLowerCase (s : string) : string :=
  match s with
  | EmptyString => EmptyString
  | String c s' => String (lower_ascii c) (toLowerCase s')
  end.

(** A string without upper-case ASCII letters. *)
Fixpoint no_upper (s : string) : bool :=
  match s with
  | EmptyString => true
  | String c s' => negb (is_upper c) && no_upper s'
  end.

(** Truthiness of an optional string: [undefined] and [""] are falsy. *)
Definition truthy (o : option string) : bool :=
  match o with
  | Some s => negb (String.eqb s "")
  | None => false
  end.

(** [o || ""]. *)
Definition or_empty (o : option string) : string :=
  match o with
  | Some s => s
  | None => ""
  end.

(** [list.includes(x)] on an array of strings. *)
Definition includes (l : list string) (x : string) : bool :=
  existsb (String.eqb x) l.

(** White space skipped by [parseInt]. *)
Definition is_space (c : ascii) : bool :=
  let n := nat_of_ascii c in
  (n =? 32)%nat || ((9 <=? n)%nat && (n <=? 13)%nat).

Fixpoint skip_spaces (s : string) : string :=
  match s with
  | String c s' => if is_space c then skip_spaces s' else s
  | EmptyString => EmptyString
  end.

Definition digit_value (radix : Z) (c : ascii) : option Z :=
  let n := Z.of_nat (nat_of_ascii c) in
  let v :=
    if (48 <=? n) && (n <=? 57) then Some (n - 48)
    else if (97 <=? n) && (n <=? 122) then Some (n - 87)
    else if (65 <=? n) && (n <=? 90) then Some (n - 55)
    else None in
  match v with
  | Some d => if d <? radix then Some d else None
  | None => None
  end.

(** The value of the longest run of digits at the head of [s]; [None]
    when there is none. *)
Fixpoint parse_digits (radix : Z) (s : string) (acc : option Z) : option Z :=
  match s with
  | String c s' =>
      match digit_value radix c with
      | Some d => parse_digits radix s' (Some (radix * default 0 acc + d))
      | None => acc
      end
  | EmptyString => acc
  end.

(** The number nearest to the integer [x]: [x] itself up to [2^53] in
    magnitude, and beyond that the nearest multiple of the spacing of the
    numbers around [x], a tie going to the even significand; [None] when
    that is no finite number. *)
Definition toDouble (x : Z) : option Z :=
  let a := Z.abs x in
  if a <? 2 ^ 53 then Some x
  else
    let ulp := 2 ^ (Z.log2 a - 52) in
    let q := a / ulp in
    let r := a mod ulp in
    let half := ulp / 2 in
    let q' := if (r >? half) || ((r =? half) && Z.odd q) then q + 1 else q in
    let v := q' * ulp in
    if v >=? 2 ^ 1024 then None else Some (Z.sgn x * v).

(** [parseInt(s)] without a radix: leading white space, an optional
    sign, an optional [0x] prefix, then the longest run of digits, whose
    integer is rounded to a number; [None] is NaN, or an infinity. *)
Definition parseInt (s : string) : option Z :=
  let s1 := skip_spaces s in
  let '(sign, s2) :=
    match s1 with
    | String "-" r => (-1, r)
    | String "+" r => (1, r)
    | _ => (1, s1)
    end in
  let '(radix, s3) :=
    match s2 with
    | String "0" (String "x" r) => (16, r)
    | String "0" (String "X" r) => (16, r)
    | _ => (10, s2)
    end in
  match parse_digits radix s3 None with
  | Some n => toDouble (sign * n)
  | None => None
  end.

(** ** Regular expressions

    Every pattern of [botIndicators] is a literal, optionally anchored at
    the end of the input by [$], with or without the [i] flag. *)

Record RegExp := mkRegExp {
  source : string;
  anchoredEnd : bool;
  ignoreCase : bool
}.

(** Character comparison: with the [i] flag both sides are canonicalised
    to upper case. *)
Definition char_matches (ci : bool) (p c : ascii) : bool :=
  if ci then Ascii.eqb (upper_ascii p) (upper_ascii c) else Ascii.eqb p c.

(** Match the literal [p] at the head of [s]; the rest of the input that
    follows the match is returned. *)
Fixpoint match_here (ci : bool) (p s : string) : option string :=
  match p with
  | EmptyString => Some s
  | String a p' =>
      match s with
      | EmptyString => None
      | String b s' => if char_matches ci a b then match_here ci p' s' else None
      end
  end.

Definition match_at (re : RegExp) (s : string) : bool :=
  match match_here (ignoreCase re) (source re) s with
  | Some rest => if anchoredEnd re then String.eqb rest "" else true
  | None => false
  end.

(** [re.test(s)]: a match starting at some position of [s]. *)
Fixpoint test (re : RegExp) (s : string) : bool :=
  match_at re s ||
  match s with
  | EmptyString => false
  | String _ s' => test re s'
  end.

(** ** utils: bot detection and status classification *)

Definition botIndicators : list RegExp :=
  [ mkRegExp "dependabot" false true;
    mkRegExp "renovate" false true;
    mkRegExp "greenkeeper" false true;
    mkRegExp "github-actions" false true;
    mkRegExp "codecov" false true;
    mkRegExp "snyk" false true;
    mkRegExp "web-flow" false true;
    mkRegExp "[bot]" true true;
    mkRegExp "-bot" true true;
    mkRegExp "bot-" false true;
    mkRegExp "noreply@github.com" false false ].

Definition isBotAccount (login name email : option string) : bool :=
  if negb (truthy login) && negb (truthy name) && negb (truthy email)
  then false
  else
    let checkString :=
      toLowerCase (or_empty login +:+ " " +:+ or_empty name +:+ " " +:+ or_empty email) in
    existsb (fun pattern => test pattern checkString) botIndicators.

Inductive HealthStatus := healthy | moderate | inactive.

Definition getHealthStatus (commits healthyThreshold moderateThreshold : Z) : HealthStatus :=
  if commits >=? healthyThreshold then healthy
  else if commits >=? moderateThreshold then moderate
  else inactive.

(** ** Dates

    A [Date] is its time value: milliseconds since 1970-01-01T00:00:00Z.
    The UTC fields follow ECMAScript's [Day], [HourFromTime],
    [YearFromTime], [MonthFromTime] and [DateFromTime]; the civil date of a
    day number is computed in the proleptic Gregorian calendar over
    400-year eras that start on 1 March. *)

Definition msPerHour : Z := 60 * 60 * 1000.
Definition msPerDay : Z := 24 * 60 * 60 * 1000.

Definition Day (t : Z) : Z := t / msPerDay.
Definition HourFromTime (t : Z) : Z := (t / msPerHour) mod 24.

Definition daysPerEra : Z := 146097.
(** Days from 0000-03-01 to 1970-01-01. *)
Definition epochShift : Z := 719468.

Definition eraOfDay (day : Z) : Z := (day + epochShift) / daysPerEra.
Definition dayOfEra (day : Z) : Z := (day + epochShift) mod daysPerEra.

Definition yearNumerator (doe : Z) : Z :=
  doe - doe / 1460 + doe / 36524 - doe / 146096.
Definition yearOfEra (doe : Z) : Z := yearNumerator doe / 365.
(** First day of era of the year [y] of the era (years start on 1 March). *)
Definition yearStart (y : Z) : Z := 365 * y + y / 4 - y / 100.
Definition dayOfYear (doe : Z) : Z := doe - yearStart (yearOfEra doe).
(** Month counted from March (0) to February (11). *)
Definition monthFromMarch (doy : Z) : Z := (5 * doy + 2) / 153.
Definition dayOfMonth (doy : Z) : Z := doy - (153 * monthFromMarch doy + 2) / 5 + 1.

Definition DateFromTime (t : Z) : Z := dayOfMonth (dayOfYear (dayOfEra (Day t))).

(** January is month 0. *)
Definition MonthFromTime (t : Z) : Z :=
  let mp := monthFromMarch (dayOfYear (dayOfEra (Day t))) in
  if mp <? 10 then mp + 2 else mp - 10.

Definition YearFromTime (t : Z) : Z :=
  let doe := dayOfEra (Day t) in
  let y := yearOfEra doe + 400 * eraOfDay (Day t) in
  if MonthFromTime t <=? 1 then y + 1 else y.

(** The time values of the valid dates, [TimeClip]: a date further than
    [maxTime] from the epoch is an Invalid Date, [None]. *)
Definition maxTime : Z := 8640000000000000.

Definition TimeClip (t : Z) : option Z :=
  if Z.abs t <=? maxTime then Some t else None.

Definition getUTCDate (d : Z) : Z := DateFromTime d.
Definition getUTCHours (d : Z) : Z := HourFromTime d.
Definition getUTCMonth (d : Z) : Z := MonthFromTime d.
Definition getUTCFullYear (d : Z) : Z := YearFromTime d.

(** ** cache: freshness policy

    [now] is the value of [new Date()] at the call; [lastUpdated] is the
    time value of the ISO string kept in the snapshot. *)

Definition shouldUpdateCache (now : Z) (lastUpdated : Z) (jstUpdateHour : Z) : bool :=
  let lastUpdate := lastUpdated in
  let jstNow := now + 9 * 60 * 60 * 1000 in
  let jstLastUpdate := lastUpdate + 9 * 60 * 60 * 1000 in
  if now - lastUpdate >? 24 * 60 * 60 * 1000 then true
  else if negb (getUTCDate jstNow =? getUTCDate jstLastUpdate)
          && (getUTCHours jstNow >=? jstUpdateHour)
  then true
  else false.

(** The calendar date and the hour of an instant on a UTC+9 clock. *)
Definition jstCalendarDate (t : Z) : Z * Z * Z :=
  let jst := t + 9 * msPerHour in
  (getUTCFullYear jst, getUTCMonth jst, getUTCDate jst).

Definition jstHour (t : Z) : Z := getUTCHours (t + 9 * msPerHour).

(** The instant at which a UTC+9 clock shows [h]:00 on the day number
    [day]. *)
Definition jstInstant (day h : Z) : Z := day * msPerDay + h * msPerHour - 9 * msPerHour.

(** ** types: provider records *)

Record GitHubRepo := mkRepo {
  name : string;
  (** time value of [new Date(updated_at)]; [None] is an invalid date *)
  updated_at : option Z
}.

Record GitHubOrg := mkOrg { login : string }.

Record GitAuthor := mkAuthor { author_name : string; author_email : string }.

Record GitHubCommit := mkCommit {
  (** [commit.author?.login] *)
  author : option string;
  (** [commit.commit.author] *)
  commit_author : GitAuthor;
  (** the [sha]s of [commit.parents] *)
  parents : list string
}.

(** [authorLogin === username]. *)
Definition strict_eq (authorLogin : option string) (username : string) : bool :=
  match authorLogin with
  | Some l => String.eqb l username
  | None => false
  end.

(** The callback of [commits.filter] in [getRepoCommits]. *)
Definition isUserCommit (username : string) (commit : GitHubCommit) : bool :=
  let authorLogin := author commit in
  let authorName := author_name (commit_author commit) in
  let authorEmail := author_email (commit_author commit) in
  let isMergeCommit := (2 <=? length (parents commit))%nat in
  negb (isBotAccount authorLogin (Some authorName) (Some authorEmail))
  && negb isMergeCommit
  && strict_eq authorLogin username.

(** ** Vocabulary of the specification for strings *)

(** [s] contains the fragment [f]. *)
Definition contains (s f : string) : Prop := exists a b, s = a +:+ f +:+ b.
(** [s] ends with [f]. *)
Definition endsWith (s f : string) : Prop := exists a, s = a +:+ f.
(** [s] begins with [f]. *)
Definition startsWith (s f : string) : Prop := exists b, s = f +:+ b.

Definition vendorFragments : list string :=
  [ "dependabot"; "renovate"; "greenkeeper"; "github-actions"; "codecov"; "snyk"; "web-flow" ].

Definition noReplyDomain : string := "noreply@github.com".

(** The three identity fields, a missing one taken as empty, separated by
    single spaces as in the template literal of [isBotAccount], in lower
    case. *)
Definition identityString (login name email : option string) : string :=
  toLowerCase (or_empty login +:+ " " +:+ or_empty name +:+ " " +:+ or_empty email).

(** The rule of the specification with a [bot-] prefix. *)
Definition botRulePrefix (s : string) : Prop :=
  (exists f, In f vendorFragments /\ contains s f)
  \/ endsWith s "[bot]" \/ endsWith s "-bot" \/ startsWith s "bot-"
  \/ contains s noReplyDomain.

(** The rule with [bot-] anywhere in the string. *)
Definition botRule (s : string) : Prop :=
  (exists f, In f vendorFragments /\ contains s f)
  \/ endsWith s "[bot]" \/ endsWith s "-bot" \/ contains s "bot-"
  \/ contains s noReplyDomain.

(** ** Auxiliary definitions of the calendar proofs *)

(** Last day of era of the year [y] of the era; the era closes with the
    leap day of its year 399. *)
Definition yearEnd (y : Z) : Z :=
  if y =? 399 then daysPerEra - 1 else yearStart (y + 1) - 1.

Definition yearsOfEra : list Z := map Z.of_nat (seq 0 400).

Definition yearBoundsChecked : bool :=
  forallb (fun y => (yearOfEra (yearStart y) =? y) && (yearOfEra (yearEnd y) =? y)) yearsOfEra.

(** ** types: configuration and snapshot *)

Record Config := mkConfig {
  username : string;
  healthyThreshold : Z;
  moderateThreshold : Z;
  monitoringDays : Z;
  cacheTTL : Z;
  jstUpdateHour : Z;
  githubToken : option string;
  includeOrgRepos : bool;
  maxReposPerOrg : Z;
  excludeRepos : list string;
  excludeOrgs : list string
}.

Record Sources := mkSources { owned : Z; org : Z }.

Record CommitCount := mkCommitCount { commits : Z; sources : Sources }.

Record CacheData := mkCacheData {
  cached_commits : Z;
  cached_status : HealthStatus;
  (** time value of the ISO string [lastUpdated] *)
  lastUpdated : Z;
  cached_sources : Sources
}.

(** ** The world of a request

    A request to the provider is its URL, kept as the endpoint and the
    values interpolated in it, with the [Authorization] header. *)

Inductive Url :=
| UserRepos (user : string)
    (* users/${username}/repos?type=owner&sort=updated&per_page=30 *)
| UserOrgs (user : string)
    (* users/${username}/orgs *)
| OrgRepos (orgLogin : string) (per_page : Z)
    (* orgs/${org.login}/repos?type=public&sort=updated&per_page=${maxReposPerOrg} *)
| RepoCommits (repoOwner repoName authorName : string) (since : Z).
    (* repos/${repoOwner}/${repoName}/commits?author=${username}&since=${since}&per_page=100 *)

Record RequestInit := mkInit { authorization : option string }.

Inductive Error :=
| FetchError (message : string)       (* a rejected [fetch] *)
| RetriesExhausted (url : Url) (maxRetries : nat)
    (* new Error(`Failed to fetch ${url} after ${maxRetries} retries`) *)
| SyntaxError                         (* [response.json()] on a body that is not JSON *)
| TypeError                           (* an array operation on a value that is no array,
                                         a property read on [null] or [undefined] *)
| RangeError.                         (* [toISOString] of an Invalid Date *)

(** The value of [response.json()]: an array; a value that is no array
    and cannot be iterated (an object such as the provider's error
    payload); or [null], which stands for every value that is no array
    and that the loop over the listings of the organizations passes over
    (a falsy value, and a string, whose characters have no
    [updated_at]). *)
Inductive Json (A : Type) :=
| JsonObject
| JsonNull
| JsonArray (items : list A).
Arguments JsonObject {A}.
Arguments JsonNull {A}.
Arguments JsonArray {A} items.

Record Response (A : Type) := mkResponse {
  status : Z;
  (** [response.headers.get("retry-after")] *)
  retryAfter : option string;
  (** [None]: the body is not JSON *)
  body : option (Json A)
}.
Arguments mkResponse {A}.
Arguments status {A}.
Arguments retryAfter {A}.
Arguments body {A}.

Definition ok {A} (r : Response A) : bool := (200 <=? status r) && (status r <=? 299).

Inductive FetchOutcome (A : Type) :=
| NetworkError (error : Error)
| Responded (response : Response A).
Arguments NetworkError {A}.
Arguments Responded {A}.

(** An element of the commit list; [None] is an element without
    [commit.author] or without [parents], whose reading raises. *)
Definition CommitEntry : Type := option GitHubCommit.

(** An element of a listing of repositories or of organizations; [None]
    is [null], the reading of whose fields raises. *)
Definition RepoEntry : Type := option GitHubRepo.
Definition OrgEntry : Type := option GitHubOrg.

(** What the provider answers to the [n]-th call of [fetch] of a run, at
    the element type of each endpoint. *)
Record Network := mkNetwork {
  reposApi : nat -> Url -> RequestInit -> FetchOutcome RepoEntry;
  orgsApi : nat -> Url -> RequestInit -> FetchOutcome OrgEntry;
  commitsApi : nat -> Url -> RequestInit -> FetchOutcome CommitEntry
}.

Definition Api (A : Type) : Type := Network -> nat -> Url -> RequestInit -> FetchOutcome A.

(** The promise given to [executionCtx.waitUntil]: the call
    [updateCacheInBackground(env, config, cacheKey)], which has run up to
    its first [await] when the handler passes it on. It is settled when
    the bot check made it return; otherwise it waits for the answer to
    the listing of the repositories of the user, the call number [call]
    of [fetch], with the start [since] of the window computed. *)
Inductive TaskState :=
| Settled
| AwaitingListing (since : option Z) (call : nat).

Record BackgroundTask := mkTask {
  task_config : Config;
  task_cacheKey : string;
  task_state : TaskState
}.

Inductive ConsoleLevel := LogLevel | WarnLevel | ErrorLevel.

Inductive Event :=
| EvFetch (url : Url) (options : RequestInit)
| EvSleep (ms : option Z)
| EvKVGet (key : string)
| EvKVPut (key : string) (value : CacheData) (expirationTtl : Z)
| EvWaitUntil (task : BackgroundTask)
| EvConsole (level : ConsoleLevel) (message : string).

Record World := mkWorld {
  (** the value of [new Date()] *)
  clock : Z;
  network : Network;
  (** number of [fetch] calls made so far *)
  fetches : nat;
  (** the namespace AM_I_GENKI_CACHE *)
  kv : gmap string CacheData;
  (** the effects so far, oldest first *)
  trace : list Event
}.

(** ** Computations *)

Inductive Outcome (A : Type) :=
| Ok (value : A)
| Throw (error : Error).
Arguments Ok {A}.
Arguments Throw {A}.

Definition M (A : Type) : Type := World -> Outcome A * World.

Definition ret {A} (a : A) : M A := fun w => (Ok a, w).

Definition throw {A} (e : Error) : M A := fun w => (Throw e, w).

Definition bind {A B} (m : M A) (k : A -> M B) : M B :=
  fun w =>
    match m w with
    | (Ok a, w') => k a w'
    | (Throw e, w') => (Throw e, w')
    end.

(** [try { m } catch (error) { h error }]. *)
Definition try_catch {A} (m : M A) (h : Error -> M A) : M A :=
  fun w =>
    match m w with
    | (Ok a, w') => (Ok a, w')
    | (Throw e, w') => h e w'
    end.

Notation "x <- m ;; k" := (bind m (fun x => k))
  (at level 100, m at next level, right associativity).
Notation "m ;; k" := (bind m (fun _ => k))
  (at level 100, right associativity).

(** [Promise.all(l.map(f))]: the calls are run in the order of the array. *)
Fixpoint mapM {A B} (f : A -> M B) (l : list A) : M (list B) :=
  match l with
  | [] => ret []
  | x :: l' =>
      y <- f x ;;
      ys <- mapM f l' ;;
      ret (y :: ys)
  end.

Definition emit (e : Event) : M unit :=
  fun w => (Ok tt, mkWorld (clock w) (network w) (fetches w) (kv w) (trace w ++ [e])).

Definition console (level : ConsoleLevel) (message : string) : M unit :=
  emit (EvConsole level message).

(** [new Date()]. *)
Definition newDate : M Z := fun w => (Ok (clock w), w).

(** [await new Promise((resolve) => setTimeout(resolve, ms))]; a delay
    that is not finite or is negative fires at once. *)
Definition sleep (ms : option Z) : M unit :=
  fun w =>
    (Ok tt, mkWorld (clock w + Z.max 0 (default 0 ms)) (network w) (fetches w) (kv w)
                    (trace w ++ [EvSleep ms])).

(** [await fetch(url, options)]. *)
Definition fetch {A} (api : Api A) (url : Url) (options : RequestInit) : M (FetchOutcome A) :=
  fun w =>
    (Ok (api (network w) (fetches w) url options),
     mkWorld (clock w) (network w) (S (fetches w)) (kv w) (trace w ++ [EvFetch url options])).

(** [fetch(url, options)] without the [await]: the request leaves, and
    the promise of its answer is kept as the number of the call. *)
Definition startFetch (url : Url) (options : RequestInit) : M nat :=
  fun w =>
    (Ok (fetches w),
     mkWorld (clock w) (network w) (S (fetches w)) (kv w) (trace w ++ [EvFetch url options])).

(** The [await] of the promise of the call number [call]. *)
Definition awaitFetch {A} (api : Api A) (call : nat) (url : Url) (options : RequestInit)
    : M (FetchOutcome A) :=
  fun w => (Ok (api (network w) call url options), w).

(** [await response.json()]. *)
Definition json {A} (r : Response A) : M (Json A) :=
  match body r with
  | Some v => ret v
  | None => throw SyntaxError
  end.

(** The use of a JSON value as an array ([.filter], [for ... of]). *)
Definition asArray {A} (v : Json A) : M (list A) :=
  match v with
  | JsonArray items => ret items
  | JsonObject | JsonNull => throw TypeError
  end.

(** [date.toISOString()]. *)
Definition toISOString (date : option Z) : M Z :=
  match date with
  | Some t => ret t
  | None => throw RangeError
  end.

(** [await env.AM_I_GENKI_CACHE.get(key, "json")]. *)
Definition kvGet (key : string) : M (option CacheData) :=
  fun w =>
    (Ok (kv w !! key),
     mkWorld (clock w) (network w) (fetches w) (kv w) (trace w ++ [EvKVGet key])).

(** [await env.AM_I_GENKI_CACHE.put(key, JSON.stringify(data), { expirationTtl })]. *)
Definition kvPut (key : string) (data : CacheData) (expirationTtl : Z) : M unit :=
  fun w =>
    (Ok tt,
     mkWorld (clock w) (network w) (fetches w) (<[key := data]> (kv w))
             (trace w ++ [EvKVPut key data expirationTtl])).

(** [c.executionCtx.waitUntil(promise)]: the task is handed to the
    runtime, which runs the rest of it detached from the request. *)
Definition waitUntil (task : BackgroundTask) : M unit := emit (EvWaitUntil task).

(** ** utils: fetch with retries *)

(** [number * 1000] on a number that may not be finite; the product is
    rounded. *)
Definition times1000 (n : option Z) : option Z :=
  match n with
  | Some v => toDouble (v * 1000)
  | None => None
  end.

(** The loop of [fetchWithRetry]: [i] is the loop variable and [budget]
    the number of iterations that remain, [maxRetries - i]. *)
Fixpoint fetchLoop {A} (api : Api A) (url : Url) (options : RequestInit)
    (maxRetries : nat) (initialDelay : Z) (budget : nat) (i : nat)
    (lastError : option Error) : M (Response A) :=
  match budget with
  | O =>
      throw (match lastError with
             | Some e => e
             | None => RetriesExhausted url maxRetries
             end)
  | S budget' =>
      outcome <- fetch api url options ;;
      match outcome with
      | Responded response =>
          if (status response =? 429) || (status response =? 403) then
            let retryAfter := retryAfter response in
            let waitTime :=
              if truthy retryAfter
              then times1000 (parseInt (or_empty retryAfter))
              else Some (initialDelay * 2 ^ Z.of_nat i) in
            console WarnLevel "Rate limited. Waiting before retry..." ;;
            sleep waitTime ;;
            fetchLoop api url options maxRetries initialDelay budget' (S i) lastError
          else if status response >=? 500 then
            let waitTime := Some (initialDelay * 2 ^ Z.of_nat i) in
            console WarnLevel "Server error. Retrying..." ;;
            sleep waitTime ;;
            fetchLoop api url options maxRetries initialDelay budget' (S i) lastError
          else ret response
      | NetworkError error =>
          let waitTime := Some (initialDelay * 2 ^ Z.of_nat i) in
          console ErrorLevel "Network error. Retrying..." ;;
          sleep waitTime ;;
          fetchLoop api url options maxRetries initialDelay budget' (S i) (Some error)
      end
  end.

Definition fetchWithRetry {A} (api : Api A) (url : Url) (options : RequestInit)
    (maxRetries : nat) (initialDelay : Z) : M (Response A) :=
  fetchLoop api url options maxRetries initialDelay maxRetries 0 None.

(** The iteration [i] of the loop from the answer [outcome] of its call
    of [fetch] on, with [budget] iterations after it. *)
Definition fetchLoopFrom {A} (api : Api A) (url : Url) (options : RequestInit)
    (maxRetries : nat) (initialDelay : Z) (budget : nat) (i : nat)
    (lastError : option Error) (outcome : FetchOutcome A) : M (Response A) :=
  match outcome with
  | Responded response =>
      if (status response =? 429) || (status response =? 403) then
        let retryAfter := retryAfter response in
        let waitTime :=
          if truthy retryAfter
          then times1000 (parseInt (or_empty retryAfter))
          else Some (initialDelay * 2 ^ Z.of_nat i) in
        console WarnLevel "Rate limited. Waiting before retry..." ;;
        sleep waitTime ;;
        fetchLoop api url options maxRetries initialDelay budget (S i) lastError
      else if status response >=? 500 then
        let waitTime := Some (initialDelay * 2 ^ Z.of_nat i) in
        console WarnLevel "Server error. Retrying..." ;;
        sleep waitTime ;;
        fetchLoop api url options maxRetries initialDelay budget (S i) lastError
      else ret response
  | NetworkError error =>
      let waitTime := Some (initialDelay * 2 ^ Z.of_nat i) in
      console ErrorLevel "Network error. Retrying..." ;;
      sleep waitTime ;;
      fetchLoop api url options maxRetries initialDelay budget (S i) (Some error)
  end.

(** ** github: commit counting *)

Definition getGithubHeaders (token : option string) : RequestInit :=
  mkInit (if truthy token then token else None).

(** [commits.filter(...)]: the callback reads [commit.commit.author] and
    [commit.parents] of every element. *)
Fixpoint filterCommits (username : string) (entries : list CommitEntry) : M (list GitHubCommit) :=
  match entries with
  | [] => ret []
  | None :: _ => throw TypeError
  | Some commit :: rest =>
      userCommits <- filterCommits username rest ;;
      ret (if isUserCommit username commit then commit :: userCommits else userCommits)
  end.

Definition getRepoCommits (username repoOwner repoName : string) (since : option Z)
    (token : option string) : M Z :=
  returned <-
    try_catch
      (sinceISO <- toISOString since ;;
       commitsResponse <-
         fetchWithRetry commitsApi (RepoCommits repoOwner repoName username sinceISO)
           (getGithubHeaders token) 3 500 ;;
       if ok commitsResponse then
         value <- json commitsResponse ;;
         commits <- asArray value ;;
         userCommits <- filterCommits username commits ;;
         ret (Some (Z.of_nat (length userCommits)))
       else ret None)
      (fun error =>
         console ErrorLevel "Error fetching commits" ;;
         ret None) ;;
  match returned with
  | Some n => ret n
  | None => ret 0
  end.

(** [repoUpdated >= since]; an invalid date compares false on either
    side. *)
Definition updatedSince (repo : GitHubRepo) (since : option Z) : bool :=
  match updated_at repo, since with
  | Some t, Some start => t >=? start
  | _, _ => false
  end.

(** [l.slice(from, to)] for indices within the array. *)
Definition slice {A} (from to : nat) (l : list A) : list A :=
  take (to - from) (drop from l).

Definition batchSizeOf (config : Config) : nat :=
  if truthy (githubToken config) then 5%nat else 3%nat.

Definition batchDelay (config : Config) : option Z :=
  Some (if truthy (githubToken config) then 100 else 200).

(** The inner loop that fills [allOrgRepos] from the repositories of one
    organization; it reads [repo.updated_at] of every element that it
    reaches. *)
Fixpoint pushOrgRepos (config : Config) (since : option Z) (maxRepos : Z) (orgLogin : string)
    (repos : list RepoEntry) (allOrgRepos : list (string * GitHubRepo))
    : M (list (string * GitHubRepo)) :=
  match repos with
  | [] => ret allOrgRepos
  | entry :: rest =>
      if Z.of_nat (length allOrgRepos) >=? maxRepos then ret allOrgRepos
      else
        match entry with
        | None => throw TypeError
        | Some repo =>
            pushOrgRepos config since maxRepos orgLogin rest
              (if updatedSince repo since && negb (includes (excludeRepos config) (name repo))
               then allOrgRepos ++ [(orgLogin, repo)]
               else allOrgRepos)
        end
  end.

(** The loop over [orgReposResults]; a [null] result and a result whose
    [repos] are [null] are skipped. *)
Fixpoint flattenOrgRepos (config : Config) (since : option Z) (maxRepos : Z)
    (orgReposResults : list (option (string * Json RepoEntry)))
    (allOrgRepos : list (string * GitHubRepo)) : M (list (string * GitHubRepo)) :=
  match orgReposResults with
  | [] => ret allOrgRepos
  | None :: rest => flattenOrgRepos config since maxRepos rest allOrgRepos
  | Some (orgLogin, JsonNull) :: rest => flattenOrgRepos config since maxRepos rest allOrgRepos
  | Some (orgLogin, value) :: rest =>
      repos <- asArray value ;;
      pushed <- pushOrgRepos config since maxRepos orgLogin repos allOrgRepos ;;
      flattenOrgRepos config since maxRepos rest pushed
  end.

(** The update of the two counters from the results of one batch. *)
Fixpoint countOrgResults (maxRepos : Z) (results : list (option Z))
    (totalOrgCommits processedOrgRepos : Z) : Z * Z :=
  match results with
  | [] => (totalOrgCommits, processedOrgRepos)
  | Some commits :: rest =>
      if processedOrgRepos <? maxRepos
      then countOrgResults maxRepos rest (totalOrgCommits + commits) (processedOrgRepos + 1)
      else countOrgResults maxRepos rest totalOrgCommits processedOrgRepos
  | None :: rest => countOrgResults maxRepos rest totalOrgCommits processedOrgRepos
  end.

(** The [try] block of [getOrgRepoCommits] spans the whole body, and its
    handler returns the two counters as they stand when the exception is
    raised. [guarded counters m] is a step [m] run under that handler at a
    point where the counters are [counters]: [inl] is the return of the
    handler. *)
Definition guarded {A} (counters : Z * Z) (m : M A) : M (Z * Z + A) :=
  try_catch
    (a <- m ;; ret (inr a))
    (fun error =>
       console ErrorLevel "Error fetching organization repositories" ;;
       ret (inl counters)).

(** One element of [batchPromises] in [getOrgRepoCommits]. *)
Definition orgBatchPromise (username : string) (config : Config) (since : option Z)
    (entry : string * GitHubRepo) : M (option Z) :=
  try_catch
    (commits <- getRepoCommits username (fst entry) (name (snd entry)) since
                  (githubToken config) ;;
     ret (if commits >? 0 then Some commits else None))
    (fun error =>
       console ErrorLevel "Error processing organization repository" ;;
       ret None).

(** The batch loop of [getOrgRepoCommits]. [steps] bounds the number of
    iterations; the length of [allOrgRepos] is enough. *)
Fixpoint orgBatches (steps : nat) (username : string) (config : Config)
    (since : option Z) (maxRepos : Z)
    (allOrgRepos : list (string * GitHubRepo)) (batchSize i : nat)
    (totalOrgCommits processedOrgRepos : Z) : M (Z * Z) :=
  match steps with
  | O => ret (totalOrgCommits, processedOrgRepos)
  | S steps' =>
      if (i <? length allOrgRepos)%nat && (processedOrgRepos <? maxRepos) then
        let batch := slice i (Nat.min (i + batchSize) (length allOrgRepos)) allOrgRepos in
        awaited <-
          guarded (totalOrgCommits, processedOrgRepos)
            (mapM (orgBatchPromise username config since) batch) ;;
        match awaited with
        | inl counters => ret counters
        | inr results =>
            let counters := countOrgResults maxRepos results totalOrgCommits processedOrgRepos in
            paused <-
              guarded counters
                (if (i + batchSize <? length allOrgRepos)%nat && (snd counters <? maxRepos)
                 then sleep (batchDelay config)
                 else ret tt) ;;
            match paused with
            | inl counters' => ret counters'
            | inr _ =>
                orgBatches steps' username config since maxRepos allOrgRepos batchSize
                  (i + batchSize) (fst counters) (snd counters)
            end
        end
      else ret (totalOrgCommits, processedOrgRepos)
  end.

(** [orgs.filter(...)]: the callback reads [org.login] of every
    element. *)
Fixpoint filterOrgs (config : Config) (entries : list OrgEntry) : M (list GitHubOrg) :=
  match entries with
  | [] => ret []
  | None :: _ => throw TypeError
  | Some o :: rest =>
      filteredOrgs <- filterOrgs config rest ;;
      ret (if negb (includes (excludeOrgs config) (login o))
           then o :: filteredOrgs else filteredOrgs)
  end.

(** One organization of [orgReposPromises]. *)
Definition orgReposPromise (config : Config) (o : GitHubOrg)
    : M (option (string * Json RepoEntry)) :=
  try_catch
    (orgReposResponse <-
       fetchWithRetry reposApi (OrgRepos (login o) (maxReposPerOrg config))
         (getGithubHeaders (githubToken config)) 3 1000 ;;
     if ok orgReposResponse then
       repos <- json orgReposResponse ;;
       ret (Some (login o, repos))
     else ret None)
    (fun error =>
       console ErrorLevel "Error fetching repos for org" ;;
       ret None).

Definition getOrgRepoCommits (username : string) (config : Config)
    (since : option Z) (maxRepos : Z) : M (Z * Z) :=
  let totalOrgCommits := 0 in
  let processedOrgRepos := 0 in
  listed <-
    guarded (totalOrgCommits, processedOrgRepos)
      (orgsResponse <-
         fetchWithRetry orgsApi (UserOrgs username)
           (getGithubHeaders (githubToken config)) 3 1000 ;;
       if negb (ok orgsResponse) then
         console ErrorLevel "Failed to fetch user organizations" ;;
         ret (inl (0, 0))
       else
         value <- json orgsResponse ;;
         orgs <- asArray value ;;
         filteredOrgs <- filterOrgs config orgs ;;
         orgReposResults <- mapM (orgReposPromise config) filteredOrgs ;;
         allOrgRepos <- flattenOrgRepos config since maxRepos orgReposResults [] ;;
         ret (inr allOrgRepos)) ;;
  match listed with
  | inl counters => ret counters
  | inr (inl returned) => ret returned
  | inr (inr allOrgRepos) =>
      let batchSize := batchSizeOf config in
      orgBatches (length allOrgRepos) username config since maxRepos allOrgRepos batchSize 0
        totalOrgCommits processedOrgRepos
  end.

(** One element of [batchPromises] in [getCommitCount]. *)
Definition ownedBatchPromise (username : string) (config : Config) (since : option Z)
    (repo : GitHubRepo) : M (option Z) :=
  try_catch
    (commits <- getRepoCommits username username (name repo) since (githubToken config) ;;
     ret (if commits >? 0 then Some commits else None))
    (fun error =>
       console ErrorLevel "Error processing repo" ;;
       ret None).

(** The update of [totalCommits], [repoSources.owned] and [processedRepos]
    from the results of one batch. *)
Fixpoint countOwnedResults (results : list (option Z))
    (totalCommits ownedRepos processedRepos : Z) : Z * Z * Z :=
  match results with
  | [] => (totalCommits, ownedRepos, processedRepos)
  | Some commits :: rest =>
      countOwnedResults rest (totalCommits + commits) (ownedRepos + 1) (processedRepos + 1)
  | None :: rest => countOwnedResults rest totalCommits ownedRepos processedRepos
  end.

(** The batch loop of [getCommitCount]; [steps] bounds the number of
    iterations and the length of [reposToProcess] is enough. *)
Fixpoint ownedBatches (steps : nat) (username : string) (config : Config)
    (since : option Z)
    (reposToProcess : list GitHubRepo) (batchSize i : nat)
    (totalCommits ownedRepos processedRepos : Z) : M (Z * Z * Z) :=
  match steps with
  | O => ret (totalCommits, ownedRepos, processedRepos)
  | S steps' =>
      if (i <? length reposToProcess)%nat then
        let batch := slice i (i + batchSize) reposToProcess in
        results <- mapM (ownedBatchPromise username config since) batch ;;
        let counters := countOwnedResults results totalCommits ownedRepos processedRepos in
        (if (i + batchSize <? length reposToProcess)%nat
         then sleep (batchDelay config)
         else ret tt) ;;
        ownedBatches steps' username config since reposToProcess batchSize (i + batchSize)
          (fst (fst counters)) (snd (fst counters)) (snd counters)
      else ret (totalCommits, ownedRepos, processedRepos)
  end.

(** [repos.filter(...)] in [getCommitCount]: past the test of the
    counter the callback reads [repo.name] of every element. *)
Fixpoint filterRepos (config : Config) (since : option Z) (processedRepos : Z)
    (entries : list RepoEntry) : M (list GitHubRepo) :=
  match entries with
  | [] => ret []
  | entry :: rest =>
      if processedRepos >=? 20 then filterRepos config since processedRepos rest
      else
        match entry with
        | None => throw TypeError
        | Some repo =>
            kept <- filterRepos config since processedRepos rest ;;
            ret (if includes (excludeRepos config) (name repo) then kept
                 else if updatedSince repo since then repo :: kept else kept)
        end
  end.

(** The block [if (ownedRepos.ok) { ... }] of [getCommitCount], the pass
    over the repositories of the user; it leaves [totalCommits],
    [repoSources.owned] and [processedRepos]. *)
Definition ownedPass (username : string) (config : Config) (since : option Z)
    (ownedRepos : Response RepoEntry) : M (Z * Z * Z) :=
  let totalCommits := 0 in
  let processedRepos := 0 in
  let repoSources := mkSources 0 0 in
  if ok ownedRepos then
    value <- json ownedRepos ;;
    repos <- asArray value ;;
    filtered <- filterRepos config since processedRepos repos ;;
    let reposToProcess := take 20 filtered in
    let batchSize := batchSizeOf config in
    ownedBatches (length reposToProcess) username config since reposToProcess batchSize 0
      totalCommits (owned repoSources) processedRepos
  else ret (totalCommits, owned repoSources, processedRepos).

(** [getCommitCount] from the response to the listing of the
    repositories of the user on: the pass over these repositories, then
    the pass over the organizations. *)
Definition getCommitCountFrom (username : string) (config : Config) (since : option Z)
    (ownedRepos : Response RepoEntry) : M CommitCount :=
  let repoSources := mkSources 0 0 in
  counters <- ownedPass username config since ownedRepos ;;
  let totalCommits := fst (fst counters) in
  let ownedRepos := snd (fst counters) in
  let processedRepos := snd counters in
  if includeOrgRepos config && (processedRepos <? 20) then
    orgResult <- getOrgRepoCommits username config since (20 - processedRepos) ;;
    ret (mkCommitCount (totalCommits + fst orgResult) (mkSources ownedRepos (snd orgResult)))
  else ret (mkCommitCount totalCommits (mkSources ownedRepos (org repoSources))).

(** The start of the monitoring window,
    [since.setDate(since.getDate() - monitoringDays)] on the date [now]:
    the time value moves back by [monitoringDays] days, and the date is
    invalid when that is out of the range of the time values. *)
Definition sinceDate (now monitoringDays : Z) : option Z :=
  TimeClip (now - monitoringDays * msPerDay).

Definition getCommitCount (username : string) (monitoringDays : Z) (config : Config)
    : M CommitCount :=
  now <- newDate ;;
  let since := sinceDate now monitoringDays in
  ownedRepos <-
    fetchWithRetry reposApi (UserRepos username) (getGithubHeaders (githubToken config)) 3 1000 ;;
  getCommitCountFrom username config since ownedRepos.

(** [getCommitCount] from its first [await] on: the call number [call]
    of [fetch], for the listing of the repositories of the user, is
    awaited in the first iteration of the client, and [since] is
    computed. *)
Definition resumeCommitCount (username : string) (config : Config) (since : option Z)
    (call : nat) : M CommitCount :=
  let url := UserRepos username in
  let headers := getGithubHeaders (githubToken config) in
  outcome <- awaitFetch reposApi call url headers ;;
  ownedRepos <- fetchLoopFrom reposApi url headers 3 1000 2 0 None outcome ;;
  getCommitCountFrom username config since ownedRepos.

(** ** cache: background revalidation *)

(** The snapshot built from an aggregation result at the instant [now]. *)
Definition snapshotOf (config : Config) (result : CommitCount) (now : Z) : CacheData :=
  let status :=
    getHealthStatus (commits result) (healthyThreshold config) (moderateThreshold config) in
  mkCacheData (commits result) status now (sources result).

Definition updateCacheInBackground (config : Config) (cacheKey : string) : M unit :=
  try_catch
    (if isBotAccount (Some (username config)) None None then
       console ErrorLevel "Bot users are not supported" ;;
       ret tt
     else
       result <- getCommitCount (username config) (monitoringDays config) config ;;
       now <- newDate ;;
       let data := snapshotOf config result now in
       kvPut cacheKey data (cacheTTL config) ;;
       console LogLevel "Cache updated successfully")
    (fun error =>
       console ErrorLevel "Background cache update failed:" ;;
       console ErrorLevel "Error details:").

(** What the call [updateCacheInBackground(env, config, cacheKey)] does
    where it is made, up to its first [await]: the bot check and, for an
    identity that passes it, the first steps of [getCommitCount], which
    are the date [since] and the call of [fetch] for the listing of the
    repositories of the user. *)
Definition startTask (config : Config) (cacheKey : string) : M BackgroundTask :=
  if isBotAccount (Some (username config)) None None then
    console ErrorLevel "Bot users are not supported" ;;
    ret (mkTask config cacheKey Settled)
  else
    now <- newDate ;;
    let since := sinceDate now (monitoringDays config) in
    call <-
      startFetch (UserRepos (username config)) (getGithubHeaders (githubToken config)) ;;
    ret (mkTask config cacheKey (AwaitingListing since call)).

(** The run of a task that was handed to [waitUntil]: the rest of the
    call, under the handler of [updateCacheInBackground]. *)
Definition runBackgroundTask (task : BackgroundTask) : M unit :=
  let config := task_config task in
  match task_state task with
  | Settled => ret tt
  | AwaitingListing since call =>
      try_catch
        (result <- resumeCommitCount (username config) config since call ;;
         now <- newDate ;;
         let data := snapshotOf config result now in
         kvPut (task_cacheKey task) data (cacheTTL config) ;;
         console LogLevel "Cache updated successfully")
        (fun error =>
           console ErrorLevel "Background cache update failed:" ;;
           console ErrorLevel "Error details:")
  end.

(** ** index: the /badge route *)

Inductive BadgeStyle := flat | flat_square | plastic | for_the_badge | social.

(** [isValidBadgeStyle(styleParam) ? styleParam : "flat"]. *)
Definition badgeStyleOf (styleParam : string) : BadgeStyle :=
  if String.eqb styleParam "flat" then flat
  else if String.eqb styleParam "flat-square" then flat_square
  else if String.eqb styleParam "plastic" then plastic
  else if String.eqb styleParam "for-the-badge" then for_the_badge
  else if String.eqb styleParam "social" then social
  else flat.

(** The image of [generateBadgeSVG], kept as the arguments from which the
    renderer draws it. *)
Record Badge := mkBadge {
  badge_status : HealthStatus;
  badge_commits : Z;
  badge_style : BadgeStyle
}.

Inductive HttpResponse :=
| TextResponse (text : string) (code : Z)
    (* c.text(text, code) *)
| BadgeResponse (svg : Badge) (x_commits : Z) (x_status : HealthStatus) (x_username : string).
    (* new Response(svg, { headers }) *)

Definition cacheKeyOf (config : Config) : string := "github-health:" +:+ username config.

(** The response that carries the badge of a snapshot. *)
Definition badgeResponse (config : Config) (styleQuery : option string) (data : CacheData)
    : HttpResponse :=
  let styleParam := if truthy styleQuery then or_empty styleQuery else "flat" in
  let badgeStyle := badgeStyleOf styleParam in
  let svg := mkBadge (cached_status data) (cached_commits data) badgeStyle in
  BadgeResponse svg (cached_commits data) (cached_status data) (username config).

(** The handler of [GET /badge]; [config] is [getConfig(env)] and
    [styleQuery] the [style] parameter of the request. *)
Definition badge (config : Config) (styleQuery : option string) : M HttpResponse :=
  if negb (truthy (Some (username config))) then
    ret (TextResponse "GITHUB_USERNAME not configured" 500)
  else
    let cacheKey := cacheKeyOf config in
    try_catch
      (cached <- kvGet cacheKey ;;
       found <-
         match cached with
         | Some cachedData =>
             now <- newDate ;;
             (if shouldUpdateCache now (lastUpdated cachedData) (jstUpdateHour config)
              then
                task <- startTask config cacheKey ;;
                waitUntil task
              else ret tt) ;;
             ret (inr cachedData)
         | None =>
             if isBotAccount (Some (username config)) None None then
               ret (inl (TextResponse "Bot users are not supported" 400))
             else
               result <- getCommitCount (username config) (monitoringDays config) config ;;
               now <- newDate ;;
               let data := snapshotOf config result now in
               kvPut cacheKey data (cacheTTL config) ;;
               ret (inr data)
         end ;;
       match found with
       | inl response => ret response
       | inr data => ret (badgeResponse config styleQuery data)
       end)
      (fun error =>
         console ErrorLevel "Error generating badge:" ;;
         ret (TextResponse "Error generating badge" 500)).

(** The world after the lookup of the store by the handler. *)
Definition afterGet (w : World) (key : string) : World :=
  mkWorld (clock w) (network w) (fetches w) (kv w) (trace w ++ [EvKVGet key]).

(** The events of a trace that write the store. *)
Definition storeWrites (events : list Event) : list Event :=
  List.filter (fun e => match e with EvKVPut _ _ _ => true | _ => false end) events.

(** The calls of [fetch] of a trace. *)
Definition providerCalls (events : list Event) : list Event :=
  List.filter (fun e => match e with EvFetch _ _ => true | _ => false end) events.

(** ** Vocabulary of the specification for the fetch client *)

(** Status 429 or 403. *)
Definition isRateLimited {A} (r : Response A) : bool :=
  (status r =? 429) || (status r =? 403).

(** The answers after which the client tries again: a rate-limited
    response, any status from 500 upwards, a network-level failure. *)
Definition isRetryable {A} (o : FetchOutcome A) : bool :=
  match o with
  | NetworkError _ => true
  | Responded r => isRateLimited r || (status r >=? 500)
  end.

(** Exponential backoff: [initialDelay * 2^attempt] milliseconds. *)
Definition backoff (initialDelay : Z) (attempt : nat) : Z :=
  initialDelay * 2 ^ Z.of_nat attempt.

(** The wait after the answer [o] to the attempt number [attempt]: the
    hint of the [retry-after] header times 1000 for a rate-limited
    response that carries one, the exponential backoff otherwise. *)
Definition retryDelay {A} (initialDelay : Z) (attempt : nat) (o : FetchOutcome A) : option Z :=
  match o with
  | Responded r =>
      if isRateLimited r then
        match retryAfter r with
        | Some hint =>
            if String.eqb hint "" then Some (backoff initialDelay attempt)
            else times1000 (parseInt hint)
        | None => Some (backoff initialDelay attempt)
        end
      else Some (backoff initialDelay attempt)
  | NetworkError _ => Some (backoff initialDelay attempt)
  end.

Definition retryNotice {A} (o : FetchOutcome A) : Event :=
  match o with
  | Responded r =>
      if isRateLimited r then EvConsole WarnLevel "Rate limited. Waiting before retry..."
      else EvConsole WarnLevel "Server error. Retrying..."
  | NetworkError _ => EvConsole ErrorLevel "Network error. Retrying..."
  end.

(** The effects of the attempts that were retried: the call, the notice
    and the sleep of each, in order; [attempt] numbers the first one. *)
Fixpoint retriedAttempts {A} (url : Url) (options : RequestInit) (initialDelay : Z)
    (attempt : nat) (outs : list (FetchOutcome A)) : list Event :=
  match outs with
  | [] => []
  | o :: rest =>
      EvFetch url options :: retryNotice o :: EvSleep (retryDelay initialDelay attempt o)
        :: retriedAttempts url options initialDelay (S attempt) rest
  end.

(** The errors captured from network-level failures, in order. *)
Fixpoint capturedErrors {A} (outs : list (FetchOutcome A)) : list Error :=
  match outs with
  | [] => []
  | NetworkError e :: rest => e :: capturedErrors rest
  | Responded _ :: rest => capturedErrors rest
  end.

(** The error of an exhausted budget: the last captured error, or the
    synthetic one when none was captured. *)
Definition exhaustedError (url : Url) (maxRetries : nat) (captured : list Error) : Error :=
  default (RetriesExhausted url maxRetries) (last captured).

(** The answers of the provider to the next [n] calls of [fetch] made
    from the world [w] for [url]. *)
Definition answers {A} (api : Api A) (w : World) (url : Url) (options : RequestInit)
    (n : nat) : list (FetchOutcome A) :=
  map (fun j => api (network w) (fetches w + j)%nat url options) (seq 0 n).

(** The world after the call of [fetch], and after a retried attempt. *)
Definition afterFetch (w : World) (url : Url) (options : RequestInit) : World :=
  mkWorld (clock w) (network w) (S (fetches w)) (kv w) (trace w ++ [EvFetch url options]).

Definition afterRetry {A} (w : World) (url : Url) (options : RequestInit) (initialDelay : Z)
    (attempt : nat) (o : FetchOutcome A) : World :=
  mkWorld (clock w + Z.max 0 (default 0 (retryDelay initialDelay attempt o)))
          (network w) (S (fetches w)) (kv w)
          (trace w ++ [EvFetch url options; retryNotice o;
                       EvSleep (retryDelay initialDelay attempt o)]).

(** The error kept in [lastError] after the answer [o]. *)
Definition captureError {A} (lastError : option Error) (o : FetchOutcome A) : option Error :=
  match o with
  | NetworkError e => Some e
  | Responded _ => lastError
  end.

(** ** Worlds used as examples *)

Definition emptyWorld (net : Network) (now : Z) : World := mkWorld now net 0 ∅ [].

Definition silentNetwork : Network :=
  mkNetwork (fun _ _ _ => NetworkError (FetchError "unreachable"))
            (fun _ _ _ => NetworkError (FetchError "unreachable"))
            (fun _ _ _ => NetworkError (FetchError "unreachable")).

(** A provider that rate-limits the first call with a two-second hint,
    fails the second with a 503 and then answers an empty commit list. *)
Definition flakyNetwork : Network :=
  mkNetwork (reposApi silentNetwork) (orgsApi silentNetwork)
    (fun n _ _ =>
       match n with
       | O => Responded (mkResponse 429 (Some "2") None)
       | S O => Responded (mkResponse 503 None None)
       | _ => Responded (mkResponse 200 None (Some (JsonArray [])))
       end).

(** ** Vocabulary of the properties of a run *)

(** The repository whose commit history a call of [fetch] reads. *)
Definition commitTarget (e : Event) : option (string * string) :=
  match e with
  | EvFetch (RepoCommits repoOwner repoName _ _) _ => Some (repoOwner, repoName)
  | _ => None
  end.

(** The commit-history queries of a trace, one per call of [fetch]. *)
Definition commitQueries (events : list Event) : list (string * string) :=
  omap commitTarget events.

(** The repositories whose commit history a trace queries. *)
Definition queriedRepos (events : list Event) : list (string * string) :=
  remove_dups (commitQueries events).

(** The events that the world gained from [w] to [w']. *)
Definition newEvents (w w' : World) : list Event := drop (length (trace w)) (trace w').

(** An event of a computation that only talks to the provider, and reads
    the commit history of no repository outside [repos]. *)
Definition providerEvent (repos : list (string * string)) (e : Event) : Prop :=
  match e with
  | EvFetch (RepoCommits repoOwner repoName _ _) _ => In (repoOwner, repoName) repos
  | EvFetch _ _ | EvSleep _ | EvConsole _ _ => True
  | EvKVGet _ | EvKVPut _ _ _ | EvWaitUntil _ => False
  end.

Definition providerOnly (repos : list (string * string)) (events : list Event) : Prop :=
  Forall (providerEvent repos) events.

(** [Run m Q]: from every world, [m] appends events to the trace, leaves
    the provider and the store as they are, and its outcome and new events
    satisfy [Q]. *)
Definition Run {A} (m : M A) (Q : Outcome A -> list Event -> Prop) : Prop :=
  forall w,
    exists new,
      trace (snd (m w)) = trace w ++ new
      /\ network (snd (m w)) = network w
      /\ kv (snd (m w)) = kv w
      /\ Q (fst (m w)) new.

(** The repository read by a URL of the commit endpoint. *)
Definition urlTargets (url : Url) : list (string * string) :=
  match url with
  | RepoCommits repoOwner repoName _ _ => [(repoOwner, repoName)]
  | _ => []
  end.

(** A result of a batch promise: [null], or a count of at least one. *)
Definition contributes (result : option Z) : Prop :=
  match result with
  | Some commits => 1 <= commits
  | None => True
  end.

(** The outcome is a returned value that satisfies [R]. *)
Definition returns {A} (R : A -> Prop) (o : Outcome A) : Prop :=
  exists a, o = Ok a /\ R a.

(** A computation that neither reads nor changes the world. *)
Definition Pure {A} (m : M A) : Prop := exists o, forall w, m w = (o, w).

(** An event of the pass over the repositories of the user: it asks
    nothing about organizations. *)
Definition ownedPassEvent (e : Event) : Prop :=
  match e with
  | EvFetch (UserOrgs _) _ | EvFetch (OrgRepos _ _) _ => False
  | _ => True
  end.

(** The events of the pass over the organizations: none, or events that
    begin with the request for the organizations of [user]. *)
Definition orgPassEvents (user : string) (config : Config) (events : list Event) : Prop :=
  events = []
  \/ exists rest,
       events = EvFetch (UserOrgs user) (getGithubHeaders (githubToken config)) :: rest.

(** What holds of the result and of the events of the two passes of a
    run of [getCommitCount]: the counters of contributing repositories
    are not negative and sum to at most 20, and the total has at least
    one commit per contributing repository; the events of the owned pass
    query the commit history of at most 20 repositories, which belong to
    [user]; those of the organization pass are there only when
    organizations are included, and query at most [20 - owned]
    repositories, of organizations that are not excluded. *)
Definition passesRun (user : string) (config : Config) (result : CommitCount)
    (ownedEvents orgEvents : list Event) : Prop :=
  0 <= owned (sources result)
  /\ 0 <= org (sources result)
  /\ owned (sources result) + org (sources result) <= 20
  /\ owned (sources result) + org (sources result) <= commits result
  /\ Forall ownedPassEvent ownedEvents
  /\ orgPassEvents user config orgEvents
  /\ (includeOrgRepos config = false -> orgEvents = [])
  /\ exists ownedTargets orgTargets,
       Z.of_nat (length ownedTargets) <= 20
       /\ Forall (fun repo => fst repo = user) ownedTargets
       /\ providerOnly ownedTargets ownedEvents
       /\ Z.of_nat (length orgTargets) <= 20 - owned (sources result)
       /\ Forall (fun repo => includes (excludeOrgs config) (fst repo) = false) orgTargets
       /\ providerOnly orgTargets orgEvents.

(** What holds of a run of [getCommitCount]: the events of a run that
    returns are those of the owned pass followed by those of the
    organization pass; a run that raises queried no commit history. *)
Definition aggregationRun (user : string) (config : Config) (o : Outcome CommitCount)
    (new : list Event) : Prop :=
  match o with
  | Ok result =>
      exists ownedEvents orgEvents,
        new = ownedEvents ++ orgEvents /\ passesRun user config result ownedEvents orgEvents
  | Throw _ => providerOnly [] new /\ Forall ownedPassEvent new
  end.

(** A provider with twenty recently updated repositories of the user
    and four organizations of five repositories each, none of which holds
    a commit of the user. *)
Definition letter (n : nat) : string := String (ascii_of_nat (97 + n)) EmptyString.

Definition idleRepos (n : nat) : list GitHubRepo :=
  map (fun i => mkRepo (letter i) (Some 0)) (seq 0 n).

Definition idleNetwork : Network :=
  mkNetwork
    (fun _ url _ =>
       match url with
       | UserRepos _ =>
           Responded (mkResponse 200 None (Some (JsonArray (map Some (idleRepos 20)))))
       | OrgRepos _ _ =>
           Responded (mkResponse 200 None (Some (JsonArray (map Some (idleRepos 5)))))
       | _ => Responded (mkResponse 404 None (Some JsonObject))
       end)
    (fun _ _ _ =>
       Responded (mkResponse 200 None
                    (Some (JsonArray [Some (mkOrg "org-a"); Some (mkOrg "org-b");
                                      Some (mkOrg "org-c"); Some (mkOrg "org-d")]))))
    (fun _ _ _ => Responded (mkResponse 200 None (Some (JsonArray [])))).

Definition orgConfig : Config :=
  mkConfig "octocat" 15 5 14 86400 8 (Some "token") true 5 ["dotfiles"] [].

Definition botConfig : Config :=
  mkConfig "dependabot[bot]" 15 5 14 86400 8 None false 5 ["dotfiles"] [].

Definition humanConfig : Config :=
  mkConfig "octocat" 15 5 14 86400 8 None false 5 ["dotfiles"] [].

(** A snapshot taken at the instant 0, and a store that holds it for
    the identity of [humanConfig]. *)
Definition oldSnapshot : CacheData := mkCacheData 7 moderate 0 (mkSources 2 0).

Definition cachedWorld (now : Z) : World :=
  mkWorld now silentNetwork 0 {[ cacheKeyOf humanConfig := oldSnapshot ]} [].

(** A provider with one repository of the user, which holds two commits
    of the user and one merge commit. *)
Definition octocatCommit (parentShas : list string) : CommitEntry :=
  Some (mkCommit (Some "octocat") (mkAuthor "The Octocat" "octocat@example.org") parentShas).

Definition smallNetwork : Network :=
  mkNetwork
    (fun _ _ _ =>
       Responded (mkResponse 200 None (Some (JsonArray [Some (mkRepo "app" (Some 0))]))))
    (fun _ _ _ => Responded (mkResponse 200 None (Some (JsonArray []))))
    (fun _ _ _ =>
       Responded (mkResponse 200 None
                    (Some (JsonArray [octocatCommit ["p"]; octocatCommit ["p"; "q"];
                                      octocatCommit []])))).

(** ** Vocabulary of further properties: pure functions *)

(** A string without a space. *)
Fixpoint no_space (s : string) : bool :=
  match s with
  | EmptyString => true
  | String c s' => negb (Ascii.eqb c " "%char) && no_space s'
  end.

(** A pattern whose literal is not empty and holds no space, as all the
    patterns of [botIndicators] are. *)
Definition plainPattern (re : RegExp) : bool :=
  negb (String.eqb (source re) "") && no_space (source re).

(** The rule of the bot check when only a login is given: the patterns
    anchored at the end are out of reach. *)
Definition loginRule (s : string) : Prop :=
  (exists f, In f vendorFragments /\ contains s f)
  \/ contains s "bot-" \/ contains s noReplyDomain.

(** The order of the statuses, from the least active. *)
Definition statusRank (s : HealthStatus) : Z :=
  match s with
  | inactive => 0
  | moderate => 1
  | healthy => 2
  end.

(** The day number that a UTC+9 clock shows at an instant. *)
Definition jstDay (t : Z) : Z := Day (t + 9 * msPerHour).

(** ** Vocabulary of further properties: the fetch client *)

(** An answer that gives the client no [retry-after] hint to follow: the
    header is read on a rate-limited response only, and an empty header
    is no hint. *)
Definition noHint {A} (o : FetchOutcome A) : bool :=
  match o with
  | Responded r => negb (isRateLimited r && truthy (retryAfter r))
  | NetworkError _ => true
  end.

(** The time waited by [budget] attempts that are all retried with the
    exponential backoff, the first of them being the attempt number
    [attempt]. *)
Definition backoffTotal (initialDelay : Z) (attempt budget : nat) : Z :=
  backoff initialDelay attempt * (2 ^ Z.of_nat budget - 1).

(** ** Vocabulary of further properties: what a run does to the world *)

(** [Steps T m]: the world after [m] is related by [T] to the world
    before it. *)
Definition Steps (T : World -> World -> Prop) {A} (m : M A) : Prop :=
  forall w, T w (snd (m w)).

(** [m] returns the value [a] from some world. *)
Definition Returned {A} (m : M A) (a : A) : Prop :=
  exists w w', m w = (Ok a, w').

(** The world gained events that all satisfy [P], and nothing else
    changed but the clock and the number of calls. *)
Definition gained (P : Event -> Prop) (w w' : World) : Prop :=
  Forall P (newEvents w w') /\ trace w' = trace w ++ newEvents w w'.

(** Time did not move back. *)
Definition later (w w' : World) : Prop := clock w <= clock w'.

(** The requests that an aggregation for [username] with the window
    that starts at [since] may send: the listing of the repositories and
    of the organizations of the user, the listing of the repositories of
    an organization that is not excluded, and the commit history, for the
    user as author and from [since] on, of a repository that is not
    excluded and belongs to the user or to such an organization; the
    endpoints of the organizations only when they are included. *)
Definition allowedRequest (username : string) (config : Config) (since : option Z) (url : Url)
    : Prop :=
  match url with
  | UserRepos user => user = username
  | UserOrgs user => user = username /\ includeOrgRepos config = true
  | OrgRepos orgLogin per_page =>
      includeOrgRepos config = true
      /\ includes (excludeOrgs config) orgLogin = false
      /\ per_page = maxReposPerOrg config
  | RepoCommits repoOwner repoName authorName since' =>
      authorName = username /\ since = Some since'
      /\ includes (excludeRepos config) repoName = false
      /\ (repoOwner = username
          \/ (includeOrgRepos config = true
              /\ includes (excludeOrgs config) repoOwner = false))
  end.

(** An event of such an aggregation: an allowed request with the
    headers of the configured token, a pause or a log line; never an
    access to the store. *)
Definition allowedEvent (username : string) (config : Config) (since : option Z) (e : Event)
    : Prop :=
  match e with
  | EvFetch url options =>
      allowedRequest username config since url
      /\ options = getGithubHeaders (githubToken config)
  | EvSleep _ | EvConsole _ _ => True
  | EvKVGet _ | EvKVPut _ _ _ | EvWaitUntil _ => False
  end.

(** An event of a call of the client for one URL. *)
Definition requestEvent (url : Url) (options : RequestInit) (e : Event) : Prop :=
  match e with
  | EvFetch url' options' => url' = url /\ options' = options
  | EvSleep _ | EvConsole _ _ => True
  | EvKVGet _ | EvKVPut _ _ _ | EvWaitUntil _ => False
  end.

(** ** Vocabulary of further properties: a stable provider *)

(** A provider whose answer to a request does not depend on the calls
    made before it. *)
Definition stableNetwork (net : Network) : Prop :=
  forall n m url options,
    reposApi net n url options = reposApi net m url options
    /\ orgsApi net n url options = orgsApi net m url options
    /\ commitsApi net n url options = commitsApi net m url options.

Definition stableApi {A} (api : Api A) : Prop :=
  forall net, stableNetwork net ->
    forall n m url options, api net n url options = api net m url options.

(** Two worlds in front of the same stable provider; their clocks,
    stores, logs and numbers of calls may differ. *)
Definition sameProvider (w1 w2 : World) : Prop :=
  stableNetwork (network w1) /\ network w2 = network w1.

(** [Repeatable m]: from any two worlds in front of the same stable
    provider, [m] has the same outcome. *)
Definition Repeatable {A} (m : M A) : Prop :=
  forall w1 w2, sameProvider w1 w2 ->
    fst (m w1) = fst (m w2) /\ sameProvider (snd (m w1)) (snd (m w2)).

(** The count that [getRepoCommits] returns for a repository in front of
    the provider [net]. *)
Definition repoCount (net : Network) (username repoOwner repoName : string)
    (since : option Z)
    (token : option string) : Z :=
  match fst (getRepoCommits username repoOwner repoName since token (emptyWorld net 0)) with
  | Ok n => n
  | Throw _ => 0
  end.

Definition sumZ (l : list Z) : Z := fold_right Z.add 0 l.

(** The number of counts that are at least one. *)
Definition contributing (l : list Z) : Z :=
  Z.of_nat (length (List.filter (fun n => n >? 0) l)).

(** The repositories of a listing whose commit history the owned pass
    reads: not excluded, updated since the start of the window, the first
    twenty of them. *)
Definition ownedCandidates (config : Config) (since : option Z) (repos : list GitHubRepo)
    : list GitHubRepo :=
  take 20
    (List.filter
       (fun repo => negb (includes (excludeRepos config) (name repo)) && updatedSince repo since)
       repos).

(** The result of a batch promise for a repository with [count] commits
    of the user. *)
Definition contribution (count : Z) : option Z :=
  if count >? 0 then Some count else None.

(** The counts of the repositories of the user in front of [net]. *)
Definition ownedCounts (net : Network) (username : string) (config : Config)
    (since : option Z)
    (repos : list GitHubRepo) : list Z :=
  map (fun repo => repoCount net username username (name repo) since (githubToken config)) repos.

(** ** utils: configuration

    The environment of the worker: every variable is a string or is not
    set. *)

Record Env := mkEnv {
  GITHUB_USERNAME : option string;
  HEALTHY_THRESHOLD : option string;
  MODERATE_THRESHOLD : option string;
  MONITORING_DAYS : option string;
  CACHE_TTL : option string;
  JST_UPDATE_HOUR : option string;
  GITHUB_TOKEN : option string;
  INCLUDE_ORG_REPOS : option string;
  MAX_REPOS_PER_ORG : option string;
  EXCLUDE_REPOS : option string;
  EXCLUDE_ORGS : option string
}.

(** [value || fallback]. *)
Definition or_else (value : option string) (fallback : string) : string :=
  if truthy value then or_empty value else fallback.

(** [s.split(sep)] for a separator of one character. *)
Fixpoint split_on (sep : ascii) (s : string) : list string :=
  match s with
  | EmptyString => [EmptyString]
  | String c s' =>
      if Ascii.eqb c sep then EmptyString :: split_on sep s'
      else
        match split_on sep s' with
        | first :: rest => String c first :: rest
        | [] => [String c EmptyString]
        end
  end.

(** [s.trim()], on the white space of ASCII. *)
Fixpoint trim_end (s : string) : string :=
  match s with
  | EmptyString => EmptyString
  | String c s' =>
      match trim_end s' with
      | EmptyString => if is_space c then EmptyString else String c EmptyString
      | String c' t => String c (String c' t)
      end
  end.

Definition trim (s : string) : string := trim_end (skip_spaces s).

(** [value ? value.split(",").map((x) => x.trim()) : fallback]. *)
Definition listSetting (value : option string) (fallback : list string) : list string :=
  if truthy value then map trim (split_on "," (or_empty value)) else fallback.

(** [getConfig(env)]. A configuration of the embedding holds integers in
    its numeric fields: [None] is a configuration in which [parseInt]
    left NaN or an infinity in one of them. A user name that is not set
    is kept as the empty string, which is falsy like [undefined]. *)
Definition getConfig (env : Env) : option Config :=
  match parseInt (or_else (HEALTHY_THRESHOLD env) "15"),
        parseInt (or_else (MODERATE_THRESHOLD env) "5"),
        parseInt (or_else (MONITORING_DAYS env) "14"),
        parseInt (or_else (CACHE_TTL env) "86400"),
        parseInt (or_else (JST_UPDATE_HOUR env) "8"),
        parseInt (or_else (MAX_REPOS_PER_ORG env) "5") with
  | Some healthyThreshold, Some moderateThreshold, Some monitoringDays, Some cacheTTL,
    Some jstUpdateHour, Some maxReposPerOrg =>
      Some (mkConfig
              (or_empty (GITHUB_USERNAME env))
              healthyThreshold moderateThreshold monitoringDays cacheTTL jstUpdateHour
              (GITHUB_TOKEN env)
              (match INCLUDE_ORG_REPOS env with
               | Some value => String.eqb value "true"
               | None => false
               end)
              maxReposPerOrg
              (listSetting (EXCLUDE_REPOS env) ["dotfiles"])
              (listSetting (EXCLUDE_ORGS env) []))
  | _, _, _, _, _, _ => None
  end.

(** ** index: the /health route *)

Record HealthReport := mkHealthReport {
  report_status : string;
  report_service : string;
  report_configured : bool;
  report_timestamp : Z
}.

(** The handler of [GET /health]; [config] is [getConfig(env)]. *)
Definition health (config : Config) : M HealthReport :=
  now <- newDate ;;
  ret (mkHealthReport "ok" "Am I Genki? Badge Service" (truthy (Some (username config))) now).

(** ** Vocabulary of further properties: configuration *)

(** The decimal notation of a natural number. *)
Definition decimal (n : N) : string := NilEmpty.string_of_uint (N.to_uint n).

(** A string that does not begin with white space. *)
Definition starts_clean (s : string) : bool :=
  match s with
  | String c _ => negb (is_space c)
  | EmptyString => true
  end.

(** The number [n] that a numeric variable gives: the default when the
    variable is not set or is empty, and the number nearest to [k] when it
    holds the decimal notation of [k] in at most 20 digits, for which the
    language fixes the rounding. *)
Definition numericSetting (value : option string) (fallback n : Z) : Prop :=
  (truthy value = false /\ n = fallback)
  \/ exists k : N,
       value = Some (decimal k) /\ (k < 10 ^ 20)%N /\ toDouble (Z.of_N k) = Some n.

Definition unsetEnv (user : option string) : Env :=
  mkEnv user None None None None None None None None None None.

(** ** Vocabulary of further properties: badge styles *)

Definition VALID_BADGE_STYLES : list string :=
  ["flat"; "flat-square"; "plastic"; "for-the-badge"; "social"].

(** [isValidBadgeStyle(style)]. *)
Definition isValidBadgeStyle (style : string) : bool := includes VALID_BADGE_STYLES style.

(** The name of a style, as the renderer receives it. *)
Definition styleName (style : BadgeStyle) : string :=
  match style with
  | flat => "flat"
  | flat_square => "flat-square"
  | plastic => "plastic"
  | for_the_badge => "for-the-badge"
  | social => "social"
  end.

(** The style of the badge of a response, if it carries one. *)
Definition responseStyle (response : HttpResponse) : option string :=
  match response with
  | BadgeResponse svg _ _ _ => Some (styleName (badge_style svg))
  | TextResponse _ _ => None
  end.

(** ** Vocabulary of further properties: the snapshots of the store *)

(** A snapshot as the service writes it under [config]: its status is
    the classification of its commits, and its counters of repositories
    are those of an aggregation result. *)
Definition consistentSnapshot (config : Config) (data : CacheData) : Prop :=
  cached_status data
  = getHealthStatus (cached_commits data) (healthyThreshold config) (moderateThreshold config)
  /\ 0 <= owned (cached_sources data)
  /\ 0 <= org (cached_sources data)
  /\ owned (cached_sources data) + org (cached_sources data) <= 20
  /\ owned (cached_sources data) + org (cached_sources data) <= cached_commits data.

(** No snapshot of the store is dated after the clock, and the snapshot
    of the monitored identity, if there is one, is consistent. *)
Definition storeInvariant (config : Config) (w : World) : Prop :=
  (forall key data, kv w !! key = Some data -> lastUpdated data <= clock w)
  /\ (forall data, kv w !! cacheKeyOf config = Some data -> consistentSnapshot config data).

(** [Calls n m]: a run of [m] calls [fetch] at most [n] times. *)
Definition Calls (n : nat) {A} (m : M A) : Prop :=
  forall w, (fetches (snd (m w)) <= fetches w + n)%nat.

(** ** Vocabulary of further properties: hints and caps *)

(** A rate-limited answer whose [retry-after] header is present but
    gives no wait: [parseInt] reads no number at its head, as for a date,
    or reads a number that is not positive. *)
Definition uselessHint {A} (o : FetchOutcome A) : bool :=
  match o with
  | Responded r =>
      isRateLimited r && truthy (retryAfter r)
      && match times1000 (parseInt (or_empty (retryAfter r))) with
         | Some ms => ms <=? 0
         | None => true
         end
  | NetworkError _ => false
  end.

(** A provider that answers every call with a 429 whose [retry-after]
    header is a date. *)
Definition datedNetwork : Network :=
  mkNetwork
    (fun _ _ _ => Responded (mkResponse 429 (Some "Wed, 21 Oct 2015 07:28:00 GMT") None))
    (fun _ _ _ => Responded (mkResponse 429 (Some "Wed, 21 Oct 2015 07:28:00 GMT") None))
    (fun _ _ _ => Responded (mkResponse 429 (Some "Wed, 21 Oct 2015 07:28:00 GMT") None)).

(** A repository that the organization pass accepts. *)
Definition accepted (config : Config) (since : option Z) (repo : GitHubRepo) : bool :=
  updatedSince repo since && negb (includes (excludeRepos config) (name repo)).

(** The accepted repositories of one listing, with the login of their
    organization; a missing listing has none. *)
Definition acceptedOf (config : Config) (since : option Z)
    (result : option (string * list GitHubRepo)) : list (string * GitHubRepo) :=
  match result with
  | Some (orgLogin, repos) => map (pair orgLogin) (List.filter (accepted config since) repos)
  | None => []
  end.

(** A listing whose body is an array of repositories. *)
Definition listed (result : option (string * list GitHubRepo))
    : option (string * Json RepoEntry) :=
  match result with
  | Some (orgLogin, repos) => Some (orgLogin, JsonArray (map Some repos))
  | None => None
  end.

(** The counts of the batch promises that returned one. *)
Definition contributions (results : list (option Z)) : list Z := omap id results.

(** The room left under a cap. *)
Definition room (cap used : Z) : nat := Z.to_nat (cap - used).

(** * Properties *)

Example parseInt_values :
  map parseInt ["120"; " 42"; "12abc"; "abc"; ""; "-5"; "0x1f"; "1.5"; "+7"]
  = [Some 120; Some 42; Some 12; None; None; Some (-5); Some 31; Some 1; Some 7].
Proof. reflexivity. Qed.

Example isBotAccount_dependabot :
  isBotAccount (Some "dependabot[bot]") None None = true.
Proof. reflexivity. Qed.

Example isBotAccount_suffix_alone :
  isBotAccount (Some "my-app[bot]") None None = false.
Proof. reflexivity. Qed.

Example isBotAccount_suffix_email :
  isBotAccount (Some "x") (Some "y") (Some "ci-bot") = true.
Proof. reflexivity. Qed.

Example date_epoch : (getUTCFullYear 0, getUTCMonth 0, getUTCDate 0) = (1970, 0, 1).
Proof. reflexivity. Qed.

Example date_leap_2000 :
  (getUTCFullYear 951782400000, getUTCMonth 951782400000, getUTCDate 951782400000) = (2000, 1, 29).
Proof. reflexivity. Qed.

Example date_2024_12_31 :
  (getUTCFullYear 1735689599999, getUTCMonth 1735689599999, getUTCDate 1735689599999, getUTCHours 1735689599999)
  = (2024, 11, 31, 23).
Proof. reflexivity. Qed.

Example date_before_epoch :
  (getUTCFullYear (-1), getUTCMonth (-1), getUTCDate (-1), getUTCHours (-1)) = (1969, 11, 31, 23).
Proof. reflexivity. Qed.

Example date_1900_03_01 :
  (getUTCFullYear (-2203891200000), getUTCMonth (-2203891200000), getUTCDate (-2203891200000)) = (1900, 2, 1).
Proof. reflexivity. Qed.

(** ** Strings and regular expressions *)

Lemma is_upper_lower_ascii c : is_upper (lower_ascii c) = false.
Proof. destruct c as [[] [] [] [] [] [] [] []]; reflexivity. Qed.

Lemma lower_upper_ascii c : is_upper c = false -> lower_ascii (upper_ascii c) = c.
Proof. destruct c as [[] [] [] [] [] [] [] []]; simpl; intros H; try reflexivity; discriminate H. Qed.

Lemma no_upper_toLowerCase s : no_upper (toLowerCase s) = true.
Proof.
  induction s as [|c s IH]; simpl; [reflexivity|].
  rewrite is_upper_lower_ascii, IH. reflexivity.
Qed.

Lemma char_matches_ci a b :
  is_upper a = false -> is_upper b = false ->
  char_matches true a b = char_matches false a b.
Proof.
  intros Ha Hb. unfold char_matches.
  destruct (Ascii.eqb_spec a b) as [->|Hne].
  - apply Ascii.eqb_refl.
  - apply Ascii.eqb_neq. intros Heq. apply Hne.
    rewrite <- (lower_upper_ascii a Ha), <- (lower_upper_ascii b Hb), Heq. reflexivity.
Qed.

(** On lower-case input a lower-case literal matches with the [i] flag
    exactly as it does without. *)
Lemma match_here_ci p : forall s,
  no_upper p = true -> no_upper s = true ->
  match_here true p s = match_here false p s.
Proof.
  induction p as [|a p IH]; intros s Hp Hs; cbn [match_here]; [reflexivity|].
  destruct s as [|b s]; [reflexivity|].
  cbn [no_upper] in Hp, Hs. apply andb_prop in Hp as [Ha Hp]. apply andb_prop in Hs as [Hb Hs].
  apply negb_true_iff in Ha. apply negb_true_iff in Hb.
  rewrite (char_matches_ci a b Ha Hb), (IH s Hp Hs). reflexivity.
Qed.

Lemma match_here_exact p : forall s rest,
  match_here false p s = Some rest <-> s = p +:+ rest.
Proof.
  induction p as [|a p IH]; intros s rest; simpl.
  - split; [intros [= ->]; reflexivity | intros ->; reflexivity].
  - destruct s as [|b s].
    + split; [discriminate | intros [=]].
    + unfold char_matches. destruct (Ascii.eqb_spec a b) as [->|Hne].
      * rewrite IH. split; [intros ->; reflexivity | intros [= ->]; reflexivity].
      * split; [discriminate | intros [= Hab _]; congruence].
Qed.

Lemma no_upper_tail c s : no_upper (String c s) = true -> no_upper s = true.
Proof. simpl. intros H. apply andb_prop in H. tauto. Qed.

Lemma match_at_lower re s :
  no_upper (source re) = true -> no_upper s = true ->
  match_at re s = true <->
  exists rest, s = source re +:+ rest /\ (anchoredEnd re = true -> rest = "").
Proof.
  intros Hp Hs. unfold match_at.
  assert (Hm : match_here (ignoreCase re) (source re) s = match_here false (source re) s).
  { destruct (ignoreCase re); [apply match_here_ci; assumption | reflexivity]. }
  rewrite Hm. destruct (match_here false (source re) s) as [rest|] eqn:E.
  - apply match_here_exact in E. split.
    + intros H. exists rest. split; [exact E|]. intros Ha. rewrite Ha in H.
      apply String.eqb_eq in H. exact H.
    + intros (rest' & E' & Hr). rewrite E in E'.
      assert (rest = rest').
      { clear -E'. induction (source re) as [|c p IH]; simpl in E'; [exact E'|].
        injection E' as E'. auto. }
      subst rest'. destruct (anchoredEnd re); [|reflexivity].
      rewrite Hr by reflexivity. reflexivity.
  - split; [discriminate|]. intros (rest & E' & _).
    apply match_here_exact in E'. congruence.
Qed.

Lemma test_lower re : forall s,
  no_upper (source re) = true -> no_upper s = true ->
  test re s = true <->
  exists a rest, s = a +:+ source re +:+ rest /\ (anchoredEnd re = true -> rest = "").
Proof.
  intros s Hp. induction s as [|c s IH]; intros Hs.
  - simpl. rewrite orb_false_r, (match_at_lower re "" Hp Hs). split.
    + intros (rest & E & Hr). exists "", rest. split; [exact E | exact Hr].
    + intros (a & rest & E & Hr). destruct a; [|discriminate E].
      exists rest. split; [exact E | exact Hr].
  - simpl. rewrite orb_true_iff, (match_at_lower re (String c s) Hp Hs),
      (IH (no_upper_tail _ _ Hs)). split.
    + intros [(rest & E & Hr) | (a & rest & E & Hr)].
      * exists "", rest. split; [exact E | exact Hr].
      * exists (String c a), rest. split; [simpl; rewrite E; reflexivity | exact Hr].
    + intros (a & rest & E & Hr). destruct a as [|c' a].
      * left. exists rest. split; [exact E | exact Hr].
      * right. simpl in E. injection E as _ E. exists a, rest. split; [exact E | exact Hr].
Qed.

Lemma append_empty_r s : s +:+ "" = s.
Proof.
  induction s as [|c s IH]; [reflexivity|].
  change (String c (s +:+ "") = String c s). rewrite IH. reflexivity.
Qed.

Lemma test_contains p ci s :
  no_upper p = true -> no_upper s = true ->
  test (mkRegExp p false ci) s = true <-> contains s p.
Proof.
  intros Hp Hs. rewrite (test_lower (mkRegExp p false ci) s Hp Hs). unfold contains. simpl. split.
  - intros (a & rest & E & _). eauto.
  - intros (a & b & E). exists a, b. split; [exact E | discriminate].
Qed.

Lemma test_endsWith p ci s :
  no_upper p = true -> no_upper s = true ->
  test (mkRegExp p true ci) s = true <-> endsWith s p.
Proof.
  intros Hp Hs. rewrite (test_lower (mkRegExp p true ci) s Hp Hs). unfold endsWith. simpl. split.
  - intros (a & rest & E & Hr). rewrite (Hr eq_refl), append_empty_r in E. eauto.
  - intros (a & E). exists a, "". rewrite append_empty_r. split; [exact E | reflexivity].
Qed.

(** The disjunction tested by [botIndicators.some], on a lower-case
    string, in the vocabulary of the specification. *)
Lemma botIndicators_some s :
  no_upper s = true ->
  existsb (fun pattern => test pattern s) botIndicators = true <-> botRule s.
Proof.
  intros Hs. unfold botIndicators, botRule, vendorFragments, noReplyDomain.
  cbn [existsb]. rewrite orb_false_r, !orb_true_iff.
  rewrite !test_contains, !test_endsWith by (exact Hs || reflexivity).
  split.
  - intros [H|[H|[H|[H|[H|[H|[H|[H|[H|[H|H]]]]]]]]]]; eauto 12 using in_eq, in_cons.
  - intros [(f & Hf & H)|[H|[H|[H|H]]]]; [|tauto..].
    cbn [In] in Hf.
    destruct Hf as [<-|[<-|[<-|[<-|[<-|[<-|[<-|[]]]]]]]]; tauto.
Qed.

Lemma no_upper_identityString login name email :
  no_upper (identityString login name email) = true.
Proof. apply no_upper_toLowerCase. Qed.

Lemma or_empty_falsy o : truthy o = false -> or_empty o = "".
Proof.
  destruct o as [s|]; [|reflexivity]. simpl. intros H.
  apply negb_false_iff, String.eqb_eq in H. exact H.
Qed.

(** C4 (as amended). [isBotAccount] answers true exactly when the three
    identity fields, a missing one taken as empty, joined by single spaces
    and put in lower case, contain one of the vendor fragments, or end
    with "[bot]", or end with "-bot", or contain "bot-" at any position, or
    contain the no-reply address "noreply@github.com". *)
Theorem isBotAccount_rule login name email :
  isBotAccount login name email = true <-> botRule (identityString login name email).
Proof.
  unfold isBotAccount.
  destruct (negb (truthy login) && negb (truthy name) && negb (truthy email)) eqn:G.
  - apply andb_prop in G as [G He]. apply andb_prop in G as [Hl Hn].
    apply negb_true_iff in Hl, Hn, He.
    rewrite <- botIndicators_some by apply no_upper_identityString.
    unfold identityString.
    rewrite (or_empty_falsy _ Hl), (or_empty_falsy _ Hn), (or_empty_falsy _ He).
    vm_compute. split; discriminate.
  - rewrite <- botIndicators_some by apply no_upper_identityString. reflexivity.
Qed.

(** C4 (as stated, refuted). The login "robot-arm" is reported as a bot
    because "bot-" occurs inside it, while the identity string neither
    begins with "bot-" nor meets any other clause of the stated rule; this
    holds with the fields joined by spaces and with the fields joined
    directly. *)
Lemma isBotAccount_prefix_counterexample :
  isBotAccount (Some "robot-arm") None None = true
  /\ ~ botRulePrefix (identityString (Some "robot-arm") None None)
  /\ ~ botRulePrefix (toLowerCase (or_empty (Some "robot-arm") +:+ or_empty None +:+ or_empty None)).
Proof.
  assert (Hc : forall s p, no_upper p = true -> no_upper s = true ->
                 test (mkRegExp p false false) s = false -> ~ contains s p).
  { intros s p Hp Hs Ht H. apply (test_contains p false s Hp Hs) in H. congruence. }
  assert (He : forall s p, no_upper p = true -> no_upper s = true ->
                 test (mkRegExp p true false) s = false -> ~ endsWith s p).
  { intros s p Hp Hs Ht H. apply (test_endsWith p false s Hp Hs) in H. congruence. }
  split; [reflexivity|].
  split.
  - intros [(f & Hf & H)|[H|[H|[H|H]]]].
    + cbn [In vendorFragments] in Hf.
      destruct Hf as [<-|[<-|[<-|[<-|[<-|[<-|[<-|[]]]]]]]];
        revert H; apply Hc; reflexivity.
    + revert H; apply He; reflexivity.
    + revert H; apply He; reflexivity.
    + destruct H as [b H]. discriminate H.
    + revert H; apply Hc; reflexivity.
  - intros [(f & Hf & H)|[H|[H|[H|H]]]].
    + cbn [In vendorFragments] in Hf.
      destruct Hf as [<-|[<-|[<-|[<-|[<-|[<-|[<-|[]]]]]]]];
        revert H; apply Hc; reflexivity.
    + revert H; apply He; reflexivity.
    + revert H; apply He; reflexivity.
    + destruct H as [b H]. discriminate H.
    + revert H; apply Hc; reflexivity.
Qed.

(** ** Status classifier *)

(** C9. [getHealthStatus] is healthy exactly from the high threshold
    upwards, moderate exactly below it and from the middle threshold
    upwards, inactive below both, the boundaries included; with thresholds
    15 and 5 the counts 20 and 15 are healthy, 10 and 5 moderate, 3
    inactive. *)
Theorem getHealthStatus_tiers :
  (forall count threshold_high threshold_mid : Z,
      (getHealthStatus count threshold_high threshold_mid = healthy
         <-> count >= threshold_high)
      /\ (getHealthStatus count threshold_high threshold_mid = moderate
         <-> count < threshold_high /\ count >= threshold_mid)
      /\ (getHealthStatus count threshold_high threshold_mid = inactive
         <-> count < threshold_high /\ count < threshold_mid))
  /\ getHealthStatus 20 15 5 = healthy
  /\ getHealthStatus 15 15 5 = healthy
  /\ getHealthStatus 10 15 5 = moderate
  /\ getHealthStatus 5 15 5 = moderate
  /\ getHealthStatus 3 15 5 = inactive.
Proof.
  split; [|repeat split; reflexivity].
  intros count hi mid. unfold getHealthStatus.
  destruct (Z.geb_spec count hi) as [Hh|Hh];
    [|destruct (Z.geb_spec count mid) as [Hm|Hm]];
    repeat split; intros; try discriminate; try reflexivity; lia.
Qed.

(** ** Bot and merge filter *)




(** Five commits seen by the filter of "octocat": an ordinary commit is
    kept; a merge, a commit whose author email holds the no-reply
    address, a commit of another login and a commit without author login
    are dropped. A commit of the monitored identity "robot-arm" itself is
    dropped, because the login holds "bot-". *)
Example isUserCommit_values :
  map (isUserCommit "octocat")
    [mkCommit (Some "octocat") (mkAuthor "The Octocat" "octocat@example.org") ["p"];
     mkCommit (Some "octocat") (mkAuthor "The Octocat" "octocat@example.org") ["p"; "q"];
     mkCommit (Some "octocat") (mkAuthor "The Octocat" "1+octocat@users.noreply@github.com") [];
     mkCommit (Some "hubot") (mkAuthor "The Octocat" "octocat@example.org") ["p"];
     mkCommit None (mkAuthor "The Octocat" "octocat@example.org") ["p"]]
  = [true; false; false; false; false]
  /\ isUserCommit "robot-arm"
       (mkCommit (Some "robot-arm") (mkAuthor "Arm" "arm@example.org") ["p"]) = false.
Proof. split; reflexivity. Qed.

(** ** Calendar *)

Lemma yearNumerator_step doe : 0 <= doe -> yearNumerator doe <= yearNumerator (doe + 1).
Proof. unfold yearNumerator. intros H. Z.to_euclidean_division_equations; lia. Qed.

Lemma yearNumerator_mono a b : 0 <= a <= b -> yearNumerator a <= yearNumerator b.
Proof.
  intros [Ha Hab]. replace b with (a + (b - a)) by lia.
  assert (Hk : 0 <= b - a) by lia. revert Hk. generalize (b - a) as k.
  apply (natlike_ind (fun k => yearNumerator a <= yearNumerator (a + k))).
  - rewrite Z.add_0_r. lia.
  - intros k Hk IH. replace (a + Z.succ k) with (a + k + 1) by lia.
    pose proof (yearNumerator_step (a + k)). lia.
Qed.

Lemma yearOfEra_mono a b : 0 <= a <= b -> yearOfEra a <= yearOfEra b.
Proof.
  intros H. unfold yearOfEra. apply Z.div_le_mono; [lia|]. apply yearNumerator_mono, H.
Qed.

Lemma yearBounds y :
  0 <= y <= 399 -> yearOfEra (yearStart y) = y /\ yearOfEra (yearEnd y) = y.
Proof.
  intros Hy.
  assert (Hc : yearBoundsChecked = true) by (vm_compute; reflexivity).
  unfold yearBoundsChecked in Hc. rewrite forallb_forall in Hc.
  specialize (Hc y). rewrite andb_true_iff, !Z.eqb_eq in Hc. apply Hc.
  unfold yearsOfEra. rewrite <- (Z2Nat.id y) by lia.
  apply in_map, in_seq. lia.
Qed.

Lemma yearStart_next y : 0 <= y -> 365 <= yearStart (y + 1) - yearStart y <= 366.
Proof. unfold yearStart. intros H. Z.to_euclidean_division_equations; lia. Qed.

Lemma yearStart_nonneg y : 0 <= y -> 0 <= yearStart y.
Proof. unfold yearStart. intros H. Z.to_euclidean_division_equations; lia. Qed.

Lemma yearEnd_bounds y :
  0 <= y <= 399 -> 364 <= yearEnd y - yearStart y <= 365 /\ yearEnd y < daysPerEra.
Proof.
  intros Hy. unfold yearEnd. destruct (Z.eqb_spec y 399) as [->|Hne].
  - vm_compute. repeat split; discriminate.
  - pose proof (yearStart_next y). unfold daysPerEra.
    assert (yearStart (y + 1) <= yearStart 399).
    { unfold yearStart. Z.to_euclidean_division_equations; lia. }
    change (yearStart 399) with 145731 in *. lia.
Qed.

(** A day of the era lies in the year that [yearOfEra] computes. *)
Lemma yearOfEra_interval y doe :
  0 <= y <= 399 -> yearStart y <= doe <= yearEnd y -> yearOfEra doe = y.
Proof.
  intros Hy Hd. destruct (yearBounds y Hy) as [Hs He].
  pose proof (yearStart_nonneg y).
  pose proof (yearOfEra_mono (yearStart y) doe).
  pose proof (yearOfEra_mono doe (yearEnd y)). lia.
Qed.

Lemma year_exists doe :
  0 <= doe < daysPerEra -> exists y, 0 <= y <= 399 /\ yearStart y <= doe <= yearEnd y.
Proof.
  intros Hd.
  assert (Hn : forall n : nat, (n <= 399)%nat -> doe <= yearEnd (Z.of_nat n) ->
                exists y, 0 <= y <= Z.of_nat n /\ yearStart y <= doe <= yearEnd y).
  { induction n as [|n IH]; intros Hle Hlt.
    - exists 0. change (Z.of_nat 0) with 0 in *. change (yearStart 0) with 0.
      split; [lia|]. split; [lia | exact Hlt].
    - destruct (Z_le_gt_dec doe (yearEnd (Z.of_nat n))) as [Hin|Hout].
      + destruct (IH ltac:(lia) Hin) as (y & Hy & Hyd). exists y. lia.
      + exists (Z.of_nat (S n)). split; [lia|]. split; [|exact Hlt].
        unfold yearEnd in Hout. destruct (Z.eqb_spec (Z.of_nat n) 399); [lia|].
        replace (Z.of_nat (S n)) with (Z.of_nat n + 1) by lia. lia. }
  destruct (Hn 399%nat ltac:(lia)) as (y & Hy & Hyd).
  - change (yearEnd (Z.of_nat 399)) with 146096. unfold daysPerEra in Hd. lia.
  - exists y. split; [lia | exact Hyd].
Qed.

Lemma dayOfMonth_succ doy : 0 <= doy <= 364 -> dayOfMonth (doy + 1) <> dayOfMonth doy.
Proof.
  unfold dayOfMonth, monthFromMarch. intros H. Z.to_euclidean_division_equations; lia.
Qed.

(** Consecutive days of an era never share their day of the month. *)
Lemma dayOfMonth_next_in_era doe :
  0 <= doe -> doe + 1 < daysPerEra ->
  dayOfMonth (dayOfYear (doe + 1)) <> dayOfMonth (dayOfYear doe).
Proof.
  intros H0 H1. destruct (year_exists doe ltac:(lia)) as (y & Hy & Hyd).
  pose proof (yearEnd_bounds y Hy) as [Hlen _].
  unfold dayOfYear. rewrite (yearOfEra_interval y doe Hy Hyd).
  destruct (Z_le_gt_dec (doe + 1) (yearEnd y)) as [Hin|Hout].
  - rewrite (yearOfEra_interval y (doe + 1) Hy) by lia.
    replace (doe + 1 - yearStart y) with (doe - yearStart y + 1) by lia.
    apply dayOfMonth_succ. lia.
  - assert (Hend : doe = yearEnd y) by lia.
    assert (Hy' : y <> 399).
    { intros ->. change (yearEnd 399) with 146096 in Hend. unfold daysPerEra in H1. lia. }
    assert (Hnext : yearStart (y + 1) = doe + 1).
    { rewrite Hend. unfold yearEnd. destruct (Z.eqb_spec y 399); [contradiction | lia]. }
    pose proof (yearEnd_bounds (y + 1) ltac:(lia)) as [Hlen' _].
    rewrite (yearOfEra_interval (y + 1) (doe + 1)) by lia.
    rewrite Hnext, Z.sub_diag. change (dayOfMonth 0) with 1.
    assert (Hd : doe - yearStart y = 364 \/ doe - yearStart y = 365) by lia.
    destruct Hd as [-> | ->]; vm_compute; discriminate.
Qed.

(** The day of the month changes from any day to the next. *)
Lemma DateFromTime_next_day a b : Day b = Day a + 1 -> DateFromTime b <> DateFromTime a.
Proof.
  intros Hab. unfold DateFromTime. rewrite Hab. generalize (Day a) as d. clear. intros d.
  unfold dayOfEra.
  pose proof (Z.mod_pos_bound (d + epochShift) daysPerEra eq_refl) as Hb.
  destruct (Z_lt_ge_dec ((d + epochShift) mod daysPerEra + 1) daysPerEra) as [Hlt|Hge].
  - replace (d + 1 + epochShift) with (d + epochShift + 1) by lia.
    assert (Hm : (d + epochShift + 1) mod daysPerEra = (d + epochShift) mod daysPerEra + 1).
    { unfold daysPerEra in *. Z.to_euclidean_division_equations; lia. }
    rewrite Hm. apply dayOfMonth_next_in_era; lia.
  - assert (Hm : (d + epochShift) mod daysPerEra = 146096) by (unfold daysPerEra in *; lia).
    assert (Hm' : (d + 1 + epochShift) mod daysPerEra = 0).
    { unfold daysPerEra in *. Z.to_euclidean_division_equations; lia. }
    rewrite Hm, Hm'. vm_compute. discriminate.
Qed.

(** ** Freshness policy *)

Lemma calendar_same_day a b :
  Day a = Day b ->
  (getUTCFullYear a, getUTCMonth a, getUTCDate a) = (getUTCFullYear b, getUTCMonth b, getUTCDate b).
Proof.
  intros H. unfold getUTCFullYear, getUTCMonth, getUTCDate, YearFromTime, MonthFromTime, DateFromTime.
  rewrite H. reflexivity.
Qed.

(** The rule of the code for any two instants: it compares the days of
    the month on the UTC+9 clock. *)
Lemma shouldUpdateCache_day_of_month now lastUpdated H :
  shouldUpdateCache now lastUpdated H = true <->
    (now - lastUpdated > 24 * msPerHour
     \/ (getUTCDate (now + 9 * msPerHour) <> getUTCDate (lastUpdated + 9 * msPerHour)
         /\ jstHour now >= H)).
Proof.
  unfold shouldUpdateCache, jstHour.
  change (24 * 60 * 60 * 1000) with (24 * msPerHour).
  change (9 * 60 * 60 * 1000) with (9 * msPerHour).
  destruct (Z.gtb_spec (now - lastUpdated) (24 * msPerHour)) as [Hold|Hrecent].
  - split; [intros _; left; lia | reflexivity].
  - destruct (Z.eqb_spec (getUTCDate (now + 9 * msPerHour))
                         (getUTCDate (lastUpdated + 9 * msPerHour))) as [Hsame|Hdiff];
      destruct (Z.geb_spec (getUTCHours (now + 9 * msPerHour)) H) as [Hh|Hh]; cbn;
      split; try discriminate; try reflexivity;
      try (intros [Habs|[Hd Hge]]; solve [lia | contradiction]).
    intros _. right. split; [exact Hdiff | lia].
Qed.

(** Within 24 hours after [lastUpdated] the UTC+9 clock is on the same
    day or on the next one. *)
Lemma jst_day_window now lastUpdated :
  lastUpdated <= now -> now - lastUpdated <= msPerDay ->
  Day (now + 9 * msPerHour) = Day (lastUpdated + 9 * msPerHour)
  \/ Day (now + 9 * msPerHour) = Day (lastUpdated + 9 * msPerHour) + 1.
Proof.
  unfold Day, msPerDay, msPerHour. intros H1 H2.
  Z.to_euclidean_division_equations; lia.
Qed.

Lemma shouldUpdateCache_since now lastUpdated H :
  lastUpdated <= now ->
  shouldUpdateCache now lastUpdated H = true <->
    (now - lastUpdated > 24 * msPerHour
     \/ (jstCalendarDate now <> jstCalendarDate lastUpdated /\ jstHour now >= H)).
Proof.
  intros Hle. unfold shouldUpdateCache.
  change (24 * 60 * 60 * 1000) with (24 * msPerHour).
  change (9 * 60 * 60 * 1000) with (9 * msPerHour).
  destruct (Z.gtb_spec (now - lastUpdated) (24 * msPerHour)) as [Hold|Hrecent].
  - split; [intros _; left; lia | reflexivity].
  - unfold jstCalendarDate, jstHour.
    destruct (jst_day_window now lastUpdated Hle) as [Hsame|Hnext].
    + change msPerDay with (24 * msPerHour). lia.
    + pose proof (calendar_same_day _ _ Hsame) as Hcal.
      assert (Hd : getUTCDate (now + 9 * msPerHour) = getUTCDate (lastUpdated + 9 * msPerHour))
        by congruence.
      rewrite Hd, Z.eqb_refl. simpl. split; [discriminate|].
      intros [Habs|[Hne _]]; [lia | congruence].
    + pose proof (DateFromTime_next_day _ _ Hnext) as Hd.
      apply Z.eqb_neq in Hd. unfold getUTCDate at 1 2. rewrite Hd. simpl.
      apply Z.eqb_neq in Hd.
      destruct (Z.geb_spec (getUTCHours (now + 9 * msPerHour)) H) as [Hh|Hh]; split.
      * intros _. right. split; [|lia]. intros E. apply Hd. unfold getUTCDate in E. congruence.
      * reflexivity.
      * discriminate.
      * intros [Habs|[_ Hge]]; lia.
Qed.

Lemma jstHour_jstInstant day h : 0 <= h < 24 -> jstHour (jstInstant day h) = h.
Proof.
  intros Hh. unfold jstHour, jstInstant, getUTCHours, HourFromTime, msPerDay, msPerHour.
  Z.to_euclidean_division_equations; lia.
Qed.

Lemma jstDay_jstInstant day h : 0 <= h < 24 -> Day (jstInstant day h + 9 * msPerHour) = day.
Proof.
  intros Hh. unfold jstInstant, Day, msPerDay, msPerHour.
  Z.to_euclidean_division_equations; lia.
Qed.

Lemma jstCalendarDate_next_day day h h' :
  0 <= h < 24 -> 0 <= h' < 24 ->
  jstCalendarDate (jstInstant (day + 1) h) <> jstCalendarDate (jstInstant day h').
Proof.
  intros Hh Hh' E. unfold jstCalendarDate in E.
  assert (Hd : Day (jstInstant (day + 1) h + 9 * msPerHour)
               = Day (jstInstant day h' + 9 * msPerHour) + 1).
  { rewrite !jstDay_jstInstant by assumption. reflexivity. }
  apply DateFromTime_next_day in Hd. apply Hd. unfold getUTCDate in E. congruence.
Qed.

(** The store of [cachedWorld] satisfies the invariant of the store from
    the instant of its snapshot on. *)
Lemma storeInvariant_cachedWorld now : 0 <= now -> storeInvariant humanConfig (cachedWorld now).
Proof.
  intros Hnow. split.
  - intros key data Hdata. cbn [cachedWorld kv clock] in *.
    apply lookup_singleton_Some in Hdata as [_ <-]. exact Hnow.
  - intros data Hdata. cbn [cachedWorld kv] in Hdata.
    apply lookup_singleton_Some in Hdata as [_ <-].
    unfold consistentSnapshot. cbn. repeat split; lia.
Qed.

(** C2. For every instant [lastUpdated] of a snapshot, every current
    instant [now] that is not before it, and every refresh hour,
    [shouldUpdateCache] answers true exactly when more than 24 hours have
    passed since [lastUpdated], or the UTC+9 calendar date of [now] differs
    from that of [lastUpdated] and the UTC+9 hour of [now] has reached the
    refresh hour. In particular, with [lastUpdated] at 23:00 JST of one day
    and refresh hour 8, the answer at 09:00 JST of the next day is true and
    at 07:00 JST of the next day is false. The instants that the handler
    compares are of this kind: a snapshot is dated at the clock of its
    write, so that in a store where no snapshot is dated after the clock
    the rule holds of the snapshot that the handler reads. *)
Theorem shouldUpdateCache_rule :
  (forall now lastUpdated H : Z,
      lastUpdated <= now ->
      shouldUpdateCache now lastUpdated H = true <->
        (now - lastUpdated > 24 * msPerHour
         \/ (jstCalendarDate now <> jstCalendarDate lastUpdated /\ jstHour now >= H)))
  /\ (forall day : Z,
         shouldUpdateCache (jstInstant (day + 1) 9) (jstInstant day 23) 8 = true
         /\ shouldUpdateCache (jstInstant (day + 1) 7) (jstInstant day 23) 8 = false)
  /\ (forall config w cached,
         storeInvariant config w ->
         kv w !! cacheKeyOf config = Some cached ->
         shouldUpdateCache (clock w) (lastUpdated cached) (jstUpdateHour config) = true <->
           (clock w - lastUpdated cached > 24 * msPerHour
            \/ (jstCalendarDate (clock w) <> jstCalendarDate (lastUpdated cached)
                /\ jstHour (clock w) >= jstUpdateHour config))).
Proof.
  split; [exact shouldUpdateCache_since|]. split.
  - intros day.
    assert (H9 : jstInstant day 23 <= jstInstant (day + 1) 9)
      by (unfold jstInstant, msPerDay, msPerHour; lia).
    assert (H7 : jstInstant day 23 <= jstInstant (day + 1) 7)
      by (unfold jstInstant, msPerDay, msPerHour; lia).
    split.
    + apply (shouldUpdateCache_since _ _ 8 H9). right. split.
      * apply jstCalendarDate_next_day; lia.
      * rewrite jstHour_jstInstant; lia.
    + apply not_true_is_false. intros Hs.
      apply (shouldUpdateCache_since _ _ 8 H7) in Hs. destruct Hs as [Hs|[_ Hs]].
      * unfold jstInstant, msPerDay, msPerHour in Hs. lia.
      * rewrite jstHour_jstInstant in Hs; lia.
  - intros config w cached [Hdated _] Hcached.
    apply shouldUpdateCache_since, (Hdated _ _ Hcached).
Qed.

(** The rule at 2024-03-01 09:00 JST for a snapshot taken on 2024-02-29
    at 23:00 JST, and at the call of the handler on the store of
    [cachedWorld], one hour after its snapshot. *)
Lemma shouldUpdateCache_rule_witness :
  (shouldUpdateCache 1709251200000 1709215200000 8 = true <->
     (1709251200000 - 1709215200000 > 24 * msPerHour
      \/ (jstCalendarDate 1709251200000 <> jstCalendarDate 1709215200000
          /\ jstHour 1709251200000 >= 8)))
  /\ (shouldUpdateCache (clock (cachedWorld msPerHour)) (lastUpdated oldSnapshot)
        (jstUpdateHour humanConfig) = true <->
      (clock (cachedWorld msPerHour) - lastUpdated oldSnapshot > 24 * msPerHour
       \/ (jstCalendarDate (clock (cachedWorld msPerHour))
           <> jstCalendarDate (lastUpdated oldSnapshot)
           /\ jstHour (clock (cachedWorld msPerHour)) >= jstUpdateHour humanConfig))).
Proof.
  split.
  - apply (proj1 shouldUpdateCache_rule 1709251200000 1709215200000 8). lia.
  - apply (proj2 (proj2 shouldUpdateCache_rule) humanConfig (cachedWorld msPerHour) oldSnapshot).
    + apply storeInvariant_cachedWorld. unfold msPerHour. lia.
    + apply lookup_singleton_Some. split; reflexivity.
Defined.

(** Outside the instants that the handler compares: for a snapshot that
    would be dated one month after the clock, 2024-02-15 10:00 JST read
    at 2024-01-15 10:00 JST, the code compares the days of the month,
    which are both 15, and answers false although the calendar dates
    differ. *)
Example shouldUpdateCache_future_date :
  shouldUpdateCache 1705280400000 1707958800000 8 = false
  /\ jstCalendarDate 1705280400000 = (2024, 0, 15)
  /\ jstCalendarDate 1707958800000 = (2024, 1, 15)
  /\ jstHour 1705280400000 = 10.
Proof. repeat split; reflexivity. Qed.

(** ** Fetch client *)

Lemma answers_S {A} (api : Api A) (w w1 : World) url options n :
  network w1 = network w -> fetches w1 = S (fetches w) ->
  answers api w url options (S n)
  = api (network w) (fetches w) url options :: answers api w1 url options n.
Proof.
  intros Hn Hf. unfold answers. cbn [seq map]. rewrite Nat.add_0_r. f_equal.
  rewrite <- seq_shift, map_map. apply map_ext. intros j.
  rewrite Hn, Hf. f_equal. lia.
Qed.

Lemma retryDelay_source {A} (response : Response A) initialDelay i :
  (if truthy (retryAfter response)
   then times1000 (parseInt (or_empty (retryAfter response)))
   else Some (initialDelay * 2 ^ Z.of_nat i))
  = match retryAfter response with
    | Some hint =>
        if String.eqb hint "" then Some (backoff initialDelay i) else times1000 (parseInt hint)
    | None => Some (backoff initialDelay i)
    end.
Proof.
  destruct (retryAfter response) as [hint|]; [|reflexivity].
  cbn [truthy or_empty]. destruct (String.eqb hint ""); reflexivity.
Qed.

(** One iteration of the loop on a retryable answer: notice, sleep, next
    iteration. *)
Lemma fetchLoop_retry {A} (api : Api A) url options maxRetries initialDelay budget i lastError w :
  let o := api (network w) (fetches w) url options in
  isRetryable o = true ->
  fetchLoop api url options maxRetries initialDelay (S budget) i lastError w
  = fetchLoop api url options maxRetries initialDelay budget (S i) (captureError lastError o)
      (afterRetry w url options initialDelay i o).
Proof.
  intros o Ho. cbn [fetchLoop]. unfold bind at 1. unfold fetch at 1. fold o.
  assert (Hw : forall notice delay,
    mkWorld (clock w + Z.max 0 (default 0 delay)) (network w) (S (fetches w)) (kv w)
      (((trace w ++ [EvFetch url options]) ++ [notice]) ++ [EvSleep delay])
    = mkWorld (clock w + Z.max 0 (default 0 delay)) (network w) (S (fetches w)) (kv w)
      (trace w ++ [EvFetch url options; notice; EvSleep delay])).
  { intros. rewrite <- !app_assoc. reflexivity. }
  unfold afterRetry. destruct o as [error|response]; cbn [isRetryable] in Ho.
  - cbn [retryNotice retryDelay captureError]. rewrite <- Hw. reflexivity.
  - cbn [retryNotice retryDelay captureError]. unfold isRateLimited in *.
    destruct ((status response =? 429) || (status response =? 403)).
    + rewrite <- Hw, <- retryDelay_source. reflexivity.
    + cbn [orb] in Ho. rewrite Ho, <- Hw. reflexivity.
Qed.

(** One iteration of the loop on any other answer: the response is
    returned at once. *)
Lemma fetchLoop_return {A} (api : Api A) url options maxRetries initialDelay budget i lastError w r :
  api (network w) (fetches w) url options = Responded r ->
  isRetryable (Responded r) = false ->
  fetchLoop api url options maxRetries initialDelay (S budget) i lastError w
  = (Ok r, afterFetch w url options).
Proof.
  intros Ho Hr. cbn [fetchLoop]. unfold bind at 1. unfold fetch at 1. rewrite Ho.
  cbn [isRetryable] in Hr. unfold isRateLimited in Hr.
  apply orb_false_elim in Hr as [-> ->]. reflexivity.
Qed.

Lemma last_captured (lastError : option Error) {A} (o : FetchOutcome A)
    (outs : list (FetchOutcome A)) :
  last (option_list lastError ++ capturedErrors (o :: outs))
  = last (option_list (captureError lastError o) ++ capturedErrors outs).
Proof.
  destruct o as [e|r]; cbn [capturedErrors captureError option_list]; [|reflexivity].
  destruct lastError as [e'|]; [|reflexivity].
  cbn [option_list app]. destruct (capturedErrors outs); reflexivity.
Qed.

(** The loop of [fetchWithRetry] against the answers of the provider:
    it returns the first answer that is not retryable, with one sleep for
    each answer before it, and raises when all the budget is spent. *)
Lemma fetchLoop_contract {A} (api : Api A) url options maxRetries initialDelay :
  forall budget i lastError w,
    let outs := answers api w url options budget in
    (forall k r,
        outs !! k = Some (Responded r) -> isRetryable (Responded r) = false ->
        forallb isRetryable (take k outs) = true ->
        exists w',
          fetchLoop api url options maxRetries initialDelay budget i lastError w = (Ok r, w')
          /\ trace w' = trace w ++ retriedAttempts url options initialDelay i (take k outs)
                          ++ [EvFetch url options]
          /\ network w' = network w /\ kv w' = kv w
          /\ fetches w' = (fetches w + S k)%nat)
    /\ (forallb isRetryable outs = true ->
        exists w',
          fetchLoop api url options maxRetries initialDelay budget i lastError w
          = (Throw (exhaustedError url maxRetries (option_list lastError ++ capturedErrors outs)), w')
          /\ trace w' = trace w ++ retriedAttempts url options initialDelay i outs
          /\ network w' = network w /\ kv w' = kv w
          /\ fetches w' = (fetches w + budget)%nat).
Proof.
  induction budget as [|budget IH]; intros i lastError w outs.
  - split.
    + intros k r Hk. subst outs. discriminate Hk.
    + intros _. exists w. subst outs. cbn [answers seq map capturedErrors retriedAttempts fetchLoop].
      rewrite !app_nil_r, Nat.add_0_r. repeat split.
      unfold throw, exhaustedError. destruct lastError; reflexivity.
  - set (o := api (network w) (fetches w) url options).
    set (w1 := afterRetry w url options initialDelay i o).
    assert (Houts : outs = o :: answers api w1 url options budget)
      by (apply answers_S; reflexivity).
    destruct (IH (S i) (captureError lastError o) w1) as [IHa IHb].
    rewrite Houts. clear Houts outs. split.
    + intros k r Hk Hfinal Hpre. destruct k as [|k].
      * cbn in Hk. injection Hk as Hk. exists (afterFetch w url options).
        rewrite (fetchLoop_return api url options maxRetries initialDelay budget i lastError w r Hk Hfinal).
        cbn [take retriedAttempts app afterFetch trace network kv fetches].
        repeat split. lia.
      * cbn [lookup list_lookup] in Hk. cbn [take forallb] in Hpre.
        apply andb_prop in Hpre as [Ho Hpre].
        destruct (IHa k r Hk Hfinal Hpre) as (w' & Hrun & Htr & Hn & Hkv & Hf).
        exists w'. rewrite fetchLoop_retry by exact Ho. fold o. fold w1.
        split; [exact Hrun|]. cbn [take retriedAttempts]. rewrite Htr, Hn, Hkv, Hf.
        cbn [w1 afterRetry trace network kv fetches]. rewrite <- !app_assoc.
        repeat split. lia.
    + intros Hall. cbn [forallb] in Hall. apply andb_prop in Hall as [Ho Hall].
      destruct (IHb Hall) as (w' & Hrun & Htr & Hn & Hkv & Hf).
      exists w'. rewrite fetchLoop_retry by exact Ho. fold o. fold w1.
      unfold exhaustedError in *. rewrite last_captured.
      split; [exact Hrun|]. cbn [retriedAttempts]. rewrite Htr, Hn, Hkv, Hf.
      cbn [w1 afterRetry trace network kv fetches]. rewrite <- !app_assoc.
      repeat split. lia.
Qed.

(** C6. A call of [fetchWithRetry], against the answers of the provider
    to its successive calls of [fetch]: an answer with status 429 or 403
    is followed by a sleep of the [retry-after] hint times 1000 ms when a
    hint is present and of [initialDelay * 2^attempt] ms otherwise, and by
    the next attempt; a status of 500 or more and a network-level failure
    are followed by the same exponential backoff and the next attempt; the
    first answer with any other status is returned at once, with no sleep
    after it; and when all [maxRetries] answers are of the retried kinds
    the last captured error is raised, or the synthetic error when none was
    captured. *)
Theorem fetchWithRetry_contract {A} (api : Api A) url options maxRetries initialDelay w :
  let outs := answers api w url options maxRetries in
  (forall k r,
      outs !! k = Some (Responded r) -> isRetryable (Responded r) = false ->
      forallb isRetryable (take k outs) = true ->
      exists w',
        fetchWithRetry api url options maxRetries initialDelay w = (Ok r, w')
        /\ trace w' = trace w ++ retriedAttempts url options initialDelay 0 (take k outs)
                        ++ [EvFetch url options]
        /\ fetches w' = (fetches w + S k)%nat)
  /\ (forallb isRetryable outs = true ->
      exists w',
        fetchWithRetry api url options maxRetries initialDelay w
        = (Throw (exhaustedError url maxRetries (capturedErrors outs)), w')
        /\ trace w' = trace w ++ retriedAttempts url options initialDelay 0 outs
        /\ fetches w' = (fetches w + maxRetries)%nat).
Proof.
  intros outs. unfold fetchWithRetry.
  destruct (fetchLoop_contract api url options maxRetries initialDelay maxRetries 0%nat None w)
    as [Ha Hb].
  split.
  - intros k r Hk Hfinal Hpre.
    destruct (Ha k r Hk Hfinal Hpre) as (w' & Hrun & Htr & _ & _ & Hf). eauto.
  - intros Hall. destruct (Hb Hall) as (w' & Hrun & Htr & _ & _ & Hf). eauto.
Qed.

(** The contract on a provider that answers 429 with the hint "2", then
    503, then 200: sleeps of 2000 ms and of 500 * 2^1 ms, and the third
    answer returned. *)
Lemma fetchWithRetry_contract_witness :
  exists w',
    fetchWithRetry commitsApi (RepoCommits "o" "r" "u" 0) (mkInit None) 3 500
      (emptyWorld flakyNetwork 0)
    = (Ok (mkResponse 200 None (Some (JsonArray []))), w')
    /\ trace w'
       = [ EvFetch (RepoCommits "o" "r" "u" 0) (mkInit None);
           EvConsole WarnLevel "Rate limited. Waiting before retry...";
           EvSleep (Some 2000);
           EvFetch (RepoCommits "o" "r" "u" 0) (mkInit None);
           EvConsole WarnLevel "Server error. Retrying...";
           EvSleep (Some 1000);
           EvFetch (RepoCommits "o" "r" "u" 0) (mkInit None) ]
    /\ fetches w' = 3%nat.
Proof.
  exact (proj1 (fetchWithRetry_contract commitsApi (RepoCommits "o" "r" "u" 0) (mkInit None)
                  3 500 (emptyWorld flakyNetwork 0))
               2%nat (mkResponse 200 None (Some (JsonArray []))) eq_refl eq_refl eq_refl).
Defined.

Example fetchWithRetry_exhausted :
  fst (fetchWithRetry commitsApi (RepoCommits "o" "r" "u" 0) (mkInit None) 2 500
         (emptyWorld flakyNetwork 0))
  = Throw (RetriesExhausted (RepoCommits "o" "r" "u" 0) 2).
Proof. reflexivity. Qed.

Example fetchWithRetry_last_error :
  fst (fetchWithRetry commitsApi (RepoCommits "o" "r" "u" 0) (mkInit None) 3 500
         (emptyWorld silentNetwork 0))
  = Throw (FetchError "unreachable").
Proof. reflexivity. Qed.

(** ** Repository commit counter *)

Lemma filterCommits_wellformed username (commits : list GitHubCommit) w :
  filterCommits username (map Some commits) w
  = (Ok (List.filter (isUserCommit username) commits), w).
Proof.
  induction commits as [|c commits IH]; [reflexivity|].
  cbn [map filterCommits List.filter]. unfold bind. rewrite IH. reflexivity.
Qed.

Lemma filterCommits_broken username (entries : list CommitEntry) w :
  In None entries -> filterCommits username entries w = (Throw TypeError, w).
Proof.
  induction entries as [|[c|] entries IH]; intros Hin.
  - destruct Hin.
  - destruct Hin as [Hin|Hin]; [discriminate|].
    cbn [filterCommits]. unfold bind. rewrite (IH Hin). reflexivity.
  - reflexivity.
Qed.

Lemma filterCommits_outcome username (entries : list CommitEntry) w :
  (exists userCommits, filterCommits username entries w = (Ok userCommits, w))
  \/ filterCommits username entries w = (Throw TypeError, w).
Proof.
  induction entries as [|[c|] entries IH].
  - left. exists []. reflexivity.
  - cbn [filterCommits]. unfold bind.
    destruct IH as [(userCommits & ->)| ->]; [left | right; reflexivity].
    eexists. reflexivity.
  - right. reflexivity.
Qed.

(** The first steps of [getRepoCommits] with a valid date: the call of
    the client is under the handler. *)
Ltac enter_getRepoCommits since w :=
  unfold getRepoCommits; unfold bind at 1; unfold try_catch at 1; unfold bind at 1;
  change (toISOString (Some since) w) with (@Ok Z since, w); cbv beta iota;
  unfold bind at 1.

(** C7. [getRepoCommits] raises nothing: on every world it returns a
    count, which is not negative, and the count is zero when the fetch
    fails after the retries of the client, when the response status is
    not ok, and when the body is malformed (not JSON, no array, or an
    array with an element whose fields cannot be read); a well-formed
    list yields the number of commits that pass the filter. With an
    invalid date as the start of the window it returns zero without a
    call. *)
Theorem getRepoCommits_never_throws username repoOwner repoName since token w :
  let attempt :=
    fetchWithRetry commitsApi (RepoCommits repoOwner repoName username since)
      (getGithubHeaders token) 3 500 w in
  (exists n w',
     getRepoCommits username repoOwner repoName (Some since) token w = (Ok n, w')
     /\ 0 <= n
     /\ (forall e, fst attempt = Throw e -> n = 0)
     /\ (forall r, fst attempt = Ok r -> ok r = false -> n = 0)
     /\ (forall r, fst attempt = Ok r -> ok r = true ->
           body r = None \/ body r = Some JsonObject \/ body r = Some JsonNull
           \/ (exists entries, body r = Some (JsonArray entries) /\ In None entries) ->
           n = 0)
     /\ (forall r commits, fst attempt = Ok r -> ok r = true ->
           body r = Some (JsonArray (map Some commits)) ->
           n = Z.of_nat (length (List.filter (isUserCommit username) commits))))
  /\ (exists w',
        getRepoCommits username repoOwner repoName None token w = (Ok 0, w')
        /\ fetches w' = fetches w).
Proof.
  intros attempt. split; [|eexists; split; reflexivity].
  enter_getRepoCommits since w.
  fold attempt. destruct attempt as [[r|e] w1] eqn:Hattempt; cbn [fst].
  - destruct (ok r) eqn:Hok.
    + unfold json. destruct (body r) as [[| |entries]|] eqn:Hbody.
      * (* an object *)
        eexists 0, _. split; [reflexivity|]. repeat split; try lia; congruence.
      * (* null *)
        eexists 0, _. split; [reflexivity|]. repeat split; try lia; congruence.
      * (* an array *)
        unfold bind at 1. unfold ret at 1. cbn [asArray]. unfold bind at 1. unfold ret at 1.
        unfold bind at 1.
        destruct (filterCommits_outcome username entries w1) as [(userCommits & Hf)|Hf].
        -- rewrite Hf. eexists (Z.of_nat (length userCommits)), _. split; [reflexivity|].
           split; [lia|]. split; [discriminate|]. split; [intros r' [= <-]; congruence|].
           split.
           ++ intros r' [= <-] _ [Hb|[Hb|[Hb|(entries' & Hb & Hin)]]]; try congruence.
              rewrite Hbody in Hb. injection Hb as <-.
              rewrite (filterCommits_broken username entries w1 Hin) in Hf. discriminate Hf.
           ++ intros r' commits [= <-] _ Hb. rewrite Hbody in Hb. injection Hb as ->.
              rewrite filterCommits_wellformed in Hf. injection Hf as <-. reflexivity.
        -- rewrite Hf. eexists 0, _. split; [reflexivity|].
           split; [lia|]. split; [discriminate|]. split; [intros r' [= <-]; congruence|].
           split; [reflexivity|].
           intros r' commits [= <-] _ Hb. rewrite Hbody in Hb. injection Hb as ->.
           rewrite filterCommits_wellformed in Hf. discriminate Hf.
      * (* not JSON *)
        eexists 0, _. split; [reflexivity|]. repeat split; try lia; congruence.
    + eexists 0, _. split; [reflexivity|]. repeat split; try lia; congruence.
  - eexists 0, _. split; [reflexivity|]. repeat split; try lia; congruence.
Qed.

Example getRepoCommits_unreachable :
  fst (getRepoCommits "u" "o" "r" (Some 0) None (emptyWorld silentNetwork 0)) = Ok 0.
Proof. reflexivity. Qed.

Example getRepoCommits_counts :
  fst (getRepoCommits "octocat" "octocat" "app" (Some 0) None (emptyWorld smallNetwork 0)) = Ok 2.
Proof. reflexivity. Qed.

Example getRepoCommits_invalid_date :
  getRepoCommits "octocat" "octocat" "app" None None (emptyWorld smallNetwork 0)
  = (Ok 0, mkWorld 0 smallNetwork 0 ∅ [EvConsole ErrorLevel "Error fetching commits"]).
Proof. reflexivity. Qed.

(** The counter in front of a provider that cannot be reached: after
    the three attempts of the client it returns zero. *)
Lemma getRepoCommits_never_throws_witness :
  exists n w',
    getRepoCommits "octocat" "octocat" "app" (Some 0) None (emptyWorld silentNetwork 0)
    = (Ok n, w')
    /\ n = 0.
Proof.
  destruct (getRepoCommits_never_throws "octocat" "octocat" "app" 0 None
              (emptyWorld silentNetwork 0))
    as [(n & w' & Hrun & _ & Hfailed & _) _].
  exists n, w'. split; [exact Hrun|].
  apply (Hfailed (FetchError "unreachable")). reflexivity.
Defined.

(** ** Values returned by a computation

    What the value returned by a composed computation was returned
    from. *)
Lemma Returned_ret {A} (a b : A) : Returned (ret a) b -> b = a.
Proof. intros (w & w' & [= <- _]). reflexivity. Qed.

Lemma Returned_toISOString date t : Returned (toISOString date) t -> date = Some t.
Proof.
  destruct date as [t'|]; intros (w & w' & H); [|discriminate H].
  injection H as -> _. reflexivity.
Qed.

Lemma Returned_bind {A B} (m : M A) (k : A -> M B) b :
  Returned (bind m k) b -> exists a, Returned m a /\ Returned (k a) b.
Proof.
  intros (w & w' & H). unfold bind in H. destruct (m w) as [[a|e] w1] eqn:Hm; [|discriminate H].
  exists a. split; [exists w, w1; exact Hm | exists w1, w'; exact H].
Qed.

Lemma Returned_try_catch {A} (m : M A) (h : Error -> M A) a :
  Returned (try_catch m h) a -> Returned m a \/ exists e, Returned (h e) a.
Proof.
  intros (w & w' & H). unfold try_catch in H. destruct (m w) as [[a'|e] w1] eqn:Hm.
  - injection H as <- <-. left. exists w, w1. exact Hm.
  - right. exists e, w1, w'. exact H.
Qed.

Lemma Returned_console {A} level message (k : M A) a :
  Returned (console level message ;; k) a -> Returned k a.
Proof. intros H. apply Returned_bind in H as (_ & _ & H). exact H. Qed.

Lemma Returned_guarded {A} counters (m : M A) a :
  Returned (guarded counters m) (inr a) -> Returned m a.
Proof.
  unfold guarded. intros H. apply Returned_try_catch in H as [H|(e & H)].
  - apply Returned_bind in H as (a' & Hm & Hret). apply Returned_ret in Hret.
    injection Hret as ->. exact Hm.
  - apply Returned_console, Returned_ret in H. discriminate H.
Qed.

Lemma Returned_mapM {A B} (f : A -> M B) : forall l ys,
  Returned (mapM f l) ys -> Forall2 (fun x y => Returned (f x) y) l ys.
Proof.
  induction l as [|x l IH]; intros ys H; cbn [mapM] in H.
  - apply Returned_ret in H. subst ys. constructor.
  - apply Returned_bind in H as (y & Hy & H). apply Returned_bind in H as (ys' & Hys & H).
    apply Returned_ret in H. subst ys. constructor; [exact Hy | apply IH, Hys].
Qed.

(** A listing of [orgReposResults] carries the login of its
    organization. *)
Lemma Returned_orgReposPromise config o result :
  Returned (orgReposPromise config o) result ->
  forall orgLogin value, result = Some (orgLogin, value) -> orgLogin = login o.
Proof.
  unfold orgReposPromise. intros H orgLogin value ->.
  apply Returned_try_catch in H as [H|(e & H)].
  - apply Returned_bind in H as (r & _ & H). destruct (ok r).
    + apply Returned_bind in H as (v & _ & H). apply Returned_ret in H.
      injection H as -> _. reflexivity.
    + apply Returned_ret in H. discriminate H.
  - apply Returned_console, Returned_ret in H. discriminate H.
Qed.

Lemma orgReposResults_logins config orgs results :
  Forall2 (fun o result => Returned (orgReposPromise config o) result) orgs results ->
  forall orgLogin value, In (Some (orgLogin, value)) results -> In orgLogin (map login orgs).
Proof.
  induction 1 as [|o result orgs' results' Hone _ IH]; intros orgLogin value Hin;
    [destruct Hin|].
  destruct Hin as [->|Hin]; [|right; apply (IH orgLogin value Hin)].
  left. symmetry. apply (Returned_orgReposPromise config o _ Hone orgLogin value eq_refl).
Qed.

(** ** Computations that leave the world alone *)

Lemma Pure_ret {A} (a : A) : Pure (ret a).
Proof. exists (Ok a). reflexivity. Qed.

Lemma Pure_throw {A} (e : Error) : Pure (@throw A e).
Proof. exists (Throw e). reflexivity. Qed.

Lemma Pure_bind {A B} (m : M A) (k : A -> M B) :
  Pure m -> (forall a, Pure (k a)) -> Pure (bind m k).
Proof.
  intros [[a|e] Hm] Hk.
  - destruct (Hk a) as [o Ho]. exists o. intros w. unfold bind. rewrite Hm. apply Ho.
  - exists (Throw e). intros w. unfold bind. rewrite Hm. reflexivity.
Qed.

Lemma Pure_json {A} (r : Response A) : Pure (json r).
Proof. unfold json. destruct (body r); [apply Pure_ret | apply Pure_throw]. Qed.

Lemma Pure_asArray {A} (v : Json A) : Pure (asArray v).
Proof. destruct v; [apply Pure_throw | apply Pure_throw | apply Pure_ret]. Qed.

Lemma Pure_toISOString date : Pure (toISOString date).
Proof. destruct date; [apply Pure_ret | apply Pure_throw]. Qed.

Lemma Pure_filterCommits username entries : Pure (filterCommits username entries).
Proof.
  induction entries as [|[commit|] rest IH]; cbn [filterCommits].
  - apply Pure_ret.
  - apply Pure_bind; [exact IH | intros userCommits; apply Pure_ret].
  - apply Pure_throw.
Qed.

Lemma Pure_filterRepos config since processedRepos entries :
  Pure (filterRepos config since processedRepos entries).
Proof.
  induction entries as [|[repo|] rest IH]; cbn [filterRepos]; [apply Pure_ret|..];
    (destruct (processedRepos >=? 20); [exact IH|]).
  - apply Pure_bind; [exact IH | intros kept; apply Pure_ret].
  - apply Pure_throw.
Qed.

Lemma Pure_filterOrgs config entries : Pure (filterOrgs config entries).
Proof.
  induction entries as [|[o|] rest IH]; cbn [filterOrgs].
  - apply Pure_ret.
  - apply Pure_bind; [exact IH | intros filteredOrgs; apply Pure_ret].
  - apply Pure_throw.
Qed.

Lemma Pure_pushOrgRepos config since maxRepos orgLogin repos :
  forall allOrgRepos, Pure (pushOrgRepos config since maxRepos orgLogin repos allOrgRepos).
Proof.
  induction repos as [|[repo|] rest IH]; intros allOrgRepos; cbn [pushOrgRepos];
    [apply Pure_ret|..];
    (destruct (Z.of_nat (length allOrgRepos) >=? maxRepos); [apply Pure_ret|]).
  - apply IH.
  - apply Pure_throw.
Qed.

Lemma Pure_flattenOrgRepos config since maxRepos orgReposResults :
  forall allOrgRepos, Pure (flattenOrgRepos config since maxRepos orgReposResults allOrgRepos).
Proof.
  induction orgReposResults as [|[[orgLogin [| |items]]|] rest IH]; intros allOrgRepos;
    cbn [flattenOrgRepos]; try apply IH.
  - apply Pure_ret.
  - apply Pure_bind; [apply Pure_asArray|]. intros repos.
    apply Pure_bind; [apply Pure_pushOrgRepos | intros pushed; apply IH].
  - apply Pure_bind; [apply Pure_asArray|]. intros repos.
    apply Pure_bind; [apply Pure_pushOrgRepos | intros pushed; apply IH].
Qed.

(** What a pure computation returns, it returns from every world. *)
Lemma Pure_returned {A} (m : M A) a w : Pure m -> Returned m a -> m w = (Ok a, w).
Proof.
  intros [o Hm] (w1 & w2 & H). rewrite Hm in H. injection H as -> _. apply Hm.
Qed.

(** ** The filters of the listings *)

(** The test of the owned pass on a repository. *)
Lemma filterRepos_readable config since repos w :
  filterRepos config since 0 (map Some repos) w
  = (Ok (List.filter
           (fun repo =>
              negb (includes (excludeRepos config) (name repo)) && updatedSince repo since)
           repos), w).
Proof.
  induction repos as [|repo repos IH]; [reflexivity|].
  cbn [map filterRepos List.filter]. change (0 >=? 20) with false. cbv iota.
  unfold bind. rewrite IH. unfold ret.
  destruct (includes (excludeRepos config) (name repo)); cbn [negb andb]; [reflexivity|].
  destruct (updatedSince repo since); reflexivity.
Qed.

Lemma filterRepos_null config since entries w :
  In None entries -> filterRepos config since 0 entries w = (Throw TypeError, w).
Proof.
  induction entries as [|[repo|] rest IH]; intros Hin; [destruct Hin|..];
    cbn [filterRepos]; change (0 >=? 20) with false; cbv iota; [|reflexivity].
  destruct Hin as [Hin|Hin]; [discriminate Hin|].
  unfold bind. rewrite (IH Hin). reflexivity.
Qed.

Lemma Returned_filterRepos config since processedRepos entries : forall l,
  Returned (filterRepos config since processedRepos entries) l ->
  Forall (fun repo => includes (excludeRepos config) (name repo) = false
                      /\ updatedSince repo since = true) l
  /\ (length l <= length entries)%nat.
Proof.
  induction entries as [|[repo|] rest IH]; intros l H; cbn [filterRepos] in H.
  - apply Returned_ret in H. subst l. split; [constructor | reflexivity].
  - destruct (processedRepos >=? 20).
    + destruct (IH l H) as [Hall Hlen]. split; [exact Hall | cbn [length]; lia].
    + apply Returned_bind in H as (kept & Hkept & H). apply Returned_ret in H.
      destruct (IH kept Hkept) as [Hall Hlen].
      destruct (includes (excludeRepos config) (name repo)) eqn:Hex;
        [subst l; split; [exact Hall | cbn [length]; lia]|].
      destruct (updatedSince repo since) eqn:Hup; subst l;
        (split; [|cbn [length]; lia]); [constructor; auto | exact Hall].
  - destruct (processedRepos >=? 20).
    + destruct (IH l H) as [Hall Hlen]. split; [exact Hall | cbn [length]; lia].
    + destruct H as (w & w' & H). discriminate H.
Qed.

Lemma filterOrgs_readable config orgs w :
  filterOrgs config (map Some orgs) w
  = (Ok (List.filter (fun o => negb (includes (excludeOrgs config) (login o))) orgs), w).
Proof.
  induction orgs as [|o orgs IH]; [reflexivity|].
  cbn [map filterOrgs List.filter]. unfold bind. rewrite IH. unfold ret.
  destruct (negb (includes (excludeOrgs config) (login o))); reflexivity.
Qed.

Lemma filterOrgs_null config entries w :
  In None entries -> filterOrgs config entries w = (Throw TypeError, w).
Proof.
  induction entries as [|[o|] rest IH]; intros Hin; [destruct Hin|..];
    cbn [filterOrgs]; [|reflexivity].
  destruct Hin as [Hin|Hin]; [discriminate Hin|].
  unfold bind. rewrite (IH Hin). reflexivity.
Qed.

Lemma Returned_filterOrgs config entries : forall l,
  Returned (filterOrgs config entries) l ->
  Forall (fun o => includes (excludeOrgs config) (login o) = false) l.
Proof.
  induction entries as [|[o|] rest IH]; intros l H; cbn [filterOrgs] in H.
  - apply Returned_ret in H. subst l. constructor.
  - apply Returned_bind in H as (filteredOrgs & Hrest & H). apply Returned_ret in H.
    specialize (IH filteredOrgs Hrest).
    destruct (includes (excludeOrgs config) (login o)) eqn:Hex; cbn [negb] in H; subst l;
      [exact IH | constructor; assumption].
  - destruct H as (w & w' & H). discriminate H.
Qed.

(** The repositories that reach [allOrgRepos] are not excluded and come
    with the login of a listing; there are never more than [maxRepos]. *)
Lemma Returned_pushOrgRepos (R : string * GitHubRepo -> Prop) config since maxRepos orgLogin
    repos :
  (forall repo, includes (excludeRepos config) (name repo) = false -> R (orgLogin, repo)) ->
  forall allOrgRepos l,
    Forall R allOrgRepos ->
    Returned (pushOrgRepos config since maxRepos orgLogin repos allOrgRepos) l ->
    Forall R l.
Proof.
  intros HR. induction repos as [|[repo|] repos IH]; intros allOrgRepos l Hall H;
    cbn [pushOrgRepos] in H.
  - apply Returned_ret in H. subst l. exact Hall.
  - destruct (Z.of_nat (length allOrgRepos) >=? maxRepos);
      [apply Returned_ret in H; subst l; exact Hall|].
    apply (IH _ l) in H; [exact H|].
    destruct (updatedSince repo since); cbn [andb]; [|exact Hall].
    destruct (includes (excludeRepos config) (name repo)) eqn:Hex; cbn [negb]; [exact Hall|].
    apply Forall_app. split; [exact Hall|]. constructor; [apply HR, Hex | constructor].
  - destruct (Z.of_nat (length allOrgRepos) >=? maxRepos);
      [apply Returned_ret in H; subst l; exact Hall|].
    destruct H as (w & w' & H). discriminate H.
Qed.

Lemma pushOrgRepos_length config since maxRepos orgLogin repos :
  forall allOrgRepos l,
    Returned (pushOrgRepos config since maxRepos orgLogin repos allOrgRepos) l ->
    Z.of_nat (length l) <= Z.max (Z.of_nat (length allOrgRepos)) maxRepos.
Proof.
  induction repos as [|[repo|] repos IH]; intros allOrgRepos l H; cbn [pushOrgRepos] in H.
  - apply Returned_ret in H. subst l. lia.
  - destruct (Z.geb_spec (Z.of_nat (length allOrgRepos)) maxRepos) as [Hfull|Hroom];
      [apply Returned_ret in H; subst l; lia|].
    apply IH in H.
    destruct (updatedSince repo since && negb (includes (excludeRepos config) (name repo)));
      [rewrite length_app in H; cbn [length] in H|]; lia.
  - destruct (Z.geb_spec (Z.of_nat (length allOrgRepos)) maxRepos) as [Hfull|Hroom];
      [apply Returned_ret in H; subst l; lia|].
    destruct H as (w & w' & H). discriminate H.
Qed.

Lemma Returned_flattenOrgRepos (R : string * GitHubRepo -> Prop) config since maxRepos :
  forall orgReposResults allOrgRepos l,
    (forall orgLogin value repo,
       In (Some (orgLogin, value)) orgReposResults ->
       includes (excludeRepos config) (name repo) = false -> R (orgLogin, repo)) ->
    Forall R allOrgRepos ->
    Returned (flattenOrgRepos config since maxRepos orgReposResults allOrgRepos) l ->
    Forall R l.
Proof.
  induction orgReposResults as [|[[orgLogin value]|] rest IH]; intros allOrgRepos l HR Hall H;
    cbn [flattenOrgRepos] in H.
  - apply Returned_ret in H. subst l. exact Hall.
  - assert (Hrest : forall o v repo, In (Some (o, v)) rest ->
                      includes (excludeRepos config) (name repo) = false -> R (o, repo))
      by (intros o v repo Hin; apply (HR o v repo); right; exact Hin).
    assert (Hstep :
              Returned (repos <- asArray value ;;
                        pushed <- pushOrgRepos config since maxRepos orgLogin repos allOrgRepos ;;
                        flattenOrgRepos config since maxRepos rest pushed) l -> Forall R l).
    { intros H'. apply Returned_bind in H' as (repos & _ & H').
      apply Returned_bind in H' as (pushed & Hpushed & H').
      apply (IH _ l Hrest) in H'; [exact H'|].
      apply (Returned_pushOrgRepos R config since maxRepos orgLogin repos) in Hpushed;
        [exact Hpushed | | exact Hall].
      intros repo. apply (HR orgLogin value repo). left. reflexivity. }
    destruct value as [| |items]; [apply Hstep, H | | apply Hstep, H].
    apply (IH _ l Hrest Hall H).
  - apply (IH _ l) in H; [exact H | | exact Hall].
    intros o v repo Hin. apply (HR o v repo). right. exact Hin.
Qed.

Lemma flattenOrgRepos_length config since maxRepos :
  forall orgReposResults allOrgRepos l,
    Returned (flattenOrgRepos config since maxRepos orgReposResults allOrgRepos) l ->
    Z.of_nat (length l) <= Z.max (Z.of_nat (length allOrgRepos)) maxRepos.
Proof.
  induction orgReposResults as [|[[orgLogin value]|] rest IH]; intros allOrgRepos l H;
    cbn [flattenOrgRepos] in H.
  - apply Returned_ret in H. subst l. lia.
  - assert (Hstep :
              Returned (repos <- asArray value ;;
                        pushed <- pushOrgRepos config since maxRepos orgLogin repos allOrgRepos ;;
                        flattenOrgRepos config since maxRepos rest pushed) l ->
              Z.of_nat (length l) <= Z.max (Z.of_nat (length allOrgRepos)) maxRepos).
    { intros H'. apply Returned_bind in H' as (repos & _ & H').
      apply Returned_bind in H' as (pushed & Hpushed & H').
      apply IH in H'. apply pushOrgRepos_length in Hpushed. lia. }
    destruct value as [| |items]; [apply Hstep, H | apply IH, H | apply Hstep, H].
  - apply IH, H.
Qed.

(** ** Rules for runs *)

Section RunRules.
Context {A B : Type}.

Lemma Run_ret (a : A) (Q : Outcome A -> list Event -> Prop) :
  Q (Ok a) [] -> Run (ret a) Q.
Proof. intros HQ w. exists []. cbn. rewrite app_nil_r. auto. Qed.

Lemma Run_throw (e : Error) (Q : Outcome A -> list Event -> Prop) :
  Q (Throw e) [] -> Run (throw e) Q.
Proof. intros HQ w. exists []. cbn. rewrite app_nil_r. auto. Qed.

Lemma Run_conseq (m : M A) (Q1 Q : Outcome A -> list Event -> Prop) :
  Run m Q1 -> (forall o new, Q1 o new -> Q o new) -> Run m Q.
Proof.
  intros Hm HQ w. destruct (Hm w) as (new & Ht & Hn & Hk & H1). exists new. auto.
Qed.

Lemma Run_bind (m : M A) (k : A -> M B) (Q1 : Outcome A -> list Event -> Prop)
    (Q : Outcome B -> list Event -> Prop) :
  Run m Q1 ->
  (forall e new, Q1 (Throw e) new -> Q (Throw e) new) ->
  (forall a new1, Q1 (Ok a) new1 -> Run (k a) (fun o new2 => Q o (new1 ++ new2))) ->
  Run (bind m k) Q.
Proof.
  intros Hm Hthrow Hk w. destruct (Hm w) as (new1 & Ht & Hn & Hkv & H1).
  unfold bind. destruct (m w) as [[a|e] w1]; cbn [fst snd] in *.
  - destruct (Hk a new1 H1 w1) as (new2 & Ht2 & Hn2 & Hkv2 & H2).
    exists (new1 ++ new2). rewrite Ht2, Hn2, Hkv2, Ht, app_assoc. auto.
  - exists new1. auto.
Qed.

Lemma Run_try_catch (m : M A) (h : Error -> M A) (Q1 Q : Outcome A -> list Event -> Prop) :
  Run m Q1 ->
  (forall a new, Q1 (Ok a) new -> Q (Ok a) new) ->
  (forall e new1, Q1 (Throw e) new1 -> Run (h e) (fun o new2 => Q o (new1 ++ new2))) ->
  Run (try_catch m h) Q.
Proof.
  intros Hm Hok Hh w. destruct (Hm w) as (new1 & Ht & Hn & Hkv & H1).
  unfold try_catch. destruct (m w) as [[a|e] w1]; cbn [fst snd] in *.
  - exists new1. auto.
  - destruct (Hh e new1 H1 w1) as (new2 & Ht2 & Hn2 & Hkv2 & H2).
    exists (new1 ++ new2). rewrite Ht2, Hn2, Hkv2, Ht, app_assoc. auto.
Qed.
End RunRules.

Lemma Run_emit (e : Event) (Q : Outcome unit -> list Event -> Prop) :
  Q (Ok tt) [e] -> Run (emit e) Q.
Proof. intros HQ w. exists [e]. cbn. auto. Qed.

Lemma Run_console level message (Q : Outcome unit -> list Event -> Prop) :
  Q (Ok tt) [EvConsole level message] -> Run (console level message) Q.
Proof. apply Run_emit. Qed.

Lemma Run_sleep ms (Q : Outcome unit -> list Event -> Prop) :
  Q (Ok tt) [EvSleep ms] -> Run (sleep ms) Q.
Proof. intros HQ w. exists [EvSleep ms]. cbn. auto. Qed.

Lemma Run_newDate (Q : Outcome Z -> list Event -> Prop) :
  (forall now, Q (Ok now) []) -> Run newDate Q.
Proof. intros HQ w. exists []. cbn. rewrite app_nil_r. auto. Qed.

Lemma Run_fetch {A} (api : Api A) url options (Q : Outcome (FetchOutcome A) -> list Event -> Prop) :
  (forall o, Q (Ok o) [EvFetch url options]) -> Run (fetch api url options) Q.
Proof. intros HQ w. exists [EvFetch url options]. cbn. auto. Qed.

Lemma Run_json {A} (r : Response A) (Q : Outcome (Json A) -> list Event -> Prop) :
  (forall v, Q (Ok v) []) -> (forall e, Q (Throw e) []) -> Run (json r) Q.
Proof. intros Hv He. unfold json. destruct (body r); [apply Run_ret | apply Run_throw]; auto. Qed.

Lemma Run_asArray {A} (v : Json A) (Q : Outcome (list A) -> list Event -> Prop) :
  (forall l, Q (Ok l) []) -> (forall e, Q (Throw e) []) -> Run (asArray v) Q.
Proof. intros Hv He. destruct v; [apply Run_throw | apply Run_throw | apply Run_ret]; auto. Qed.

(** The outcome and the new events of a run, from its rule. *)
Lemma Run_at {A} (m : M A) Q w :
  Run m Q ->
  trace (snd (m w)) = trace w ++ newEvents w (snd (m w))
  /\ network (snd (m w)) = network w
  /\ kv (snd (m w)) = kv w
  /\ Q (fst (m w)) (newEvents w (snd (m w))).
Proof.
  intros Hm. destruct (Hm w) as (new & Ht & Hn & Hk & HQ). unfold newEvents.
  rewrite Ht, drop_app_length. auto.
Qed.

Lemma providerOnly_nil repos : providerOnly repos [].
Proof. constructor. Qed.

Lemma providerOnly_app repos l1 l2 :
  providerOnly repos l1 -> providerOnly repos l2 -> providerOnly repos (l1 ++ l2).
Proof. unfold providerOnly. rewrite Forall_app. auto. Qed.

Lemma providerEvent_mono repos repos' e :
  incl repos repos' -> providerEvent repos e -> providerEvent repos' e.
Proof.
  intros Hincl. destruct e as [[]| | | | |]; cbn; auto.
Qed.

Lemma providerOnly_mono repos repos' l :
  incl repos repos' -> providerOnly repos l -> providerOnly repos' l.
Proof.
  intros Hincl H. unfold providerOnly in *. eapply Forall_impl; [exact H|].
  intros e. apply providerEvent_mono, Hincl.
Qed.

Create HintDb run.
#[local] Hint Resolve providerOnly_nil providerOnly_app : run.

Lemma providerOnly_fetch url options : providerOnly (urlTargets url) [EvFetch url options].
Proof. constructor; [|constructor]. destruct url; cbn; auto. Qed.

Lemma providerOnly_console repos level message : providerOnly repos [EvConsole level message].
Proof. constructor; [exact I | constructor]. Qed.

Lemma providerOnly_sleep repos ms : providerOnly repos [EvSleep ms].
Proof. constructor; [exact I | constructor]. Qed.

#[local] Hint Resolve providerOnly_fetch providerOnly_console providerOnly_sleep : run.

Lemma returns_Ok {A} (R : A -> Prop) (a : A) : R a -> returns R (Ok a).
Proof. intros H. exists a. auto. Qed.

Lemma returns_Throw {A} (R : A -> Prop) (e : Error) : ~ returns R (Throw e).
Proof. intros (a & H & _). discriminate H. Qed.

(** ** Runs of the fetch client and of the commit counter *)

(** Sequencing after the primitives that raise nothing. *)
Lemma Run_after_emit {A} (e : Event) (k : M A) (Q : Outcome A -> list Event -> Prop) :
  Run k (fun o new => Q o (e :: new)) -> Run (emit e ;; k) Q.
Proof.
  intros Hk. eapply Run_bind with (Q1 := fun o new => o = Ok tt /\ new = [e]).
  - apply Run_emit. auto.
  - intros e' new [H _]. discriminate H.
  - intros _ new1 [_ ->]. exact Hk.
Qed.

Lemma Run_after_console {A} level message (k : M A) (Q : Outcome A -> list Event -> Prop) :
  Run k (fun o new => Q o (EvConsole level message :: new)) ->
  Run (console level message ;; k) Q.
Proof. apply Run_after_emit. Qed.

Lemma Run_after_sleep {A} ms (k : M A) (Q : Outcome A -> list Event -> Prop) :
  Run k (fun o new => Q o (EvSleep ms :: new)) -> Run (sleep ms ;; k) Q.
Proof.
  intros Hk. eapply Run_bind with (Q1 := fun o new => o = Ok tt /\ new = [EvSleep ms]).
  - apply Run_sleep. auto.
  - intros e' new [H _]. discriminate H.
  - intros _ new1 [_ ->]. exact Hk.
Qed.

Lemma Run_after_fetch {A B} (api : Api A) url options (k : FetchOutcome A -> M B)
    (Q : Outcome B -> list Event -> Prop) :
  (forall o, Run (k o) (fun r new => Q r (EvFetch url options :: new))) ->
  Run (bind (fetch api url options) k) Q.
Proof.
  intros Hk.
  eapply Run_bind with (Q1 := fun o new => returns (fun _ => True) o /\ new = [EvFetch url options]).
  - apply Run_fetch. intros o. split; [apply returns_Ok; exact I | reflexivity].
  - intros e' new [H _]. exfalso. exact (returns_Throw _ e' H).
  - intros o new1 [_ ->]. apply Hk.
Qed.

Lemma Run_after_newDate {B} (k : Z -> M B) (Q : Outcome B -> list Event -> Prop) :
  (forall now, Run (k now) Q) -> Run (bind newDate k) Q.
Proof.
  intros Hk. eapply Run_bind with (Q1 := fun o new => returns (fun _ => True) o /\ new = []).
  - apply Run_newDate. intros now. split; [apply returns_Ok; exact I | reflexivity].
  - intros e' new [H _]. exfalso. exact (returns_Throw _ e' H).
  - intros now new1 [_ ->]. apply Hk.
Qed.

Lemma Run_after_ret {A B} (a : A) (k : A -> M B) (Q : Outcome B -> list Event -> Prop) :
  Run (k a) Q -> Run (bind (ret a) k) Q.
Proof. intros Hk w. exact (Hk w). Qed.

(** Sequencing after a computation that leaves the world alone. *)
Lemma Run_after_pure {A B} (m : M A) (k : A -> M B) (Q : Outcome B -> list Event -> Prop) :
  Pure m ->
  (forall e, Q (Throw e) []) ->
  (forall a, Returned m a -> Run (k a) Q) ->
  Run (bind m k) Q.
Proof.
  intros [o Hm] He Hk w. unfold bind. rewrite Hm. destruct o as [a|e].
  - apply (Hk a). exists w, w. apply Hm.
  - exists []. cbn. rewrite app_nil_r. auto.
Qed.

Lemma Run_pure {A} (m : M A) (Q : Outcome A -> list Event -> Prop) :
  Pure m -> (forall o, Q o []) -> Run m Q.
Proof.
  intros [o Hm] HQ w. rewrite Hm. exists []. cbn. rewrite app_nil_r. auto.
Qed.

(** The value that a run hands to what follows it was returned by it. *)
Lemma Run_bind_returned {A B} (m : M A) (k : A -> M B) (Q1 : Outcome A -> list Event -> Prop)
    (Q : Outcome B -> list Event -> Prop) :
  Run m Q1 ->
  (forall e new, Q1 (Throw e) new -> Q (Throw e) new) ->
  (forall a new1, Returned m a -> Q1 (Ok a) new1 ->
     Run (k a) (fun o new2 => Q o (new1 ++ new2))) ->
  Run (bind m k) Q.
Proof.
  intros Hm Hthrow Hk w. destruct (Hm w) as (new1 & Ht & Hn & Hkv & H1).
  unfold bind. destruct (m w) as [[a|e] w1] eqn:Hrun; cbn [fst snd] in *.
  - destruct (Hk a new1 (ex_intro _ w (ex_intro _ w1 Hrun)) H1 w1)
      as (new2 & Ht2 & Hn2 & Hkv2 & H2).
    exists (new1 ++ new2). rewrite Ht2, Hn2, Hkv2, Ht, app_assoc. auto.
  - exists new1. auto.
Qed.

Lemma providerOnly_cons repos e l :
  providerEvent repos e -> providerOnly repos l -> providerOnly repos (e :: l).
Proof. intros He Hl. constructor; assumption. Qed.

Lemma providerEvent_fetch url options : providerEvent (urlTargets url) (EvFetch url options).
Proof. destruct url; cbn; auto. Qed.

#[local] Hint Resolve providerOnly_cons providerEvent_fetch : run.
#[local] Hint Extern 1 (providerEvent _ (EvConsole _ _)) => exact I : run.
#[local] Hint Extern 1 (providerEvent _ (EvSleep _)) => exact I : run.

Lemma Run_fetchLoop {A} (api : Api A) url options maxRetries initialDelay :
  forall budget i lastError,
    Run (fetchLoop api url options maxRetries initialDelay budget i lastError)
        (fun _ new => providerOnly (urlTargets url) new).
Proof.
  induction budget as [|budget IH]; intros i lastError; cbn [fetchLoop].
  - apply Run_throw. auto with run.
  - apply Run_after_fetch. intros o.
    assert (Hretry : forall level message ms lastError',
      Run (console level message ;; sleep ms ;;
           fetchLoop api url options maxRetries initialDelay budget (S i) lastError')
          (fun _ new => providerOnly (urlTargets url) (EvFetch url options :: new))).
    { intros. apply Run_after_console, Run_after_sleep.
      eapply Run_conseq; [apply IH|]. cbn. auto 6 with run. }
    destruct o as [error|response]; [apply Hretry|].
    destruct ((status response =? 429) || (status response =? 403)); [apply Hretry|].
    destruct (status response >=? 500); [apply Hretry|].
    apply Run_ret. auto with run.
Qed.

Lemma Run_fetchWithRetry {A} (api : Api A) url options maxRetries initialDelay :
  Run (fetchWithRetry api url options maxRetries initialDelay)
      (fun _ new => providerOnly (urlTargets url) new).
Proof. apply Run_fetchLoop. Qed.

Lemma Run_fetchLoopFrom {A} (api : Api A) url options maxRetries initialDelay budget i
    lastError outcome :
  Run (fetchLoopFrom api url options maxRetries initialDelay budget i lastError outcome)
      (fun _ new => providerOnly (urlTargets url) new).
Proof.
  unfold fetchLoopFrom.
  assert (Hretry : forall level message ms lastError',
    Run (console level message ;; sleep ms ;;
         fetchLoop api url options maxRetries initialDelay budget (S i) lastError')
        (fun _ new => providerOnly (urlTargets url) new)).
  { intros. apply Run_after_console, Run_after_sleep.
    eapply Run_conseq; [apply Run_fetchLoop|]. cbn. auto 6 with run. }
  destruct outcome as [error|response]; [apply Hretry|].
  destruct ((status response =? 429) || (status response =? 403)); [apply Hretry|].
  destruct (status response >=? 500); [apply Hretry|].
  apply Run_ret. auto with run.
Qed.

Lemma Run_after_awaitFetch {A B} (api : Api A) call url options (k : FetchOutcome A -> M B)
    (Q : Outcome B -> list Event -> Prop) :
  (forall o, Run (k o) Q) -> Run (bind (awaitFetch api call url options) k) Q.
Proof. intros Hk w. exact (Hk _ w). Qed.

(** With a budget the first event of the client is its request. *)
Lemma Run_fetchWithRetry_first {A} (api : Api A) url options budget initialDelay :
  Run (fetchWithRetry api url options (S budget) initialDelay)
      (fun _ new =>
         providerOnly (urlTargets url) new /\ exists rest, new = EvFetch url options :: rest).
Proof.
  unfold fetchWithRetry. cbn [fetchLoop]. apply Run_after_fetch. intros o.
  assert (Hretry : forall level message ms lastError',
    Run (console level message ;; sleep ms ;;
         fetchLoop api url options (S budget) initialDelay budget 1 lastError')
        (fun _ new =>
           providerOnly (urlTargets url) (EvFetch url options :: new)
           /\ exists rest, EvFetch url options :: new = EvFetch url options :: rest)).
  { intros. apply Run_after_console, Run_after_sleep.
    eapply Run_conseq; [apply Run_fetchLoop|]. cbn. intros _ new Hnew.
    split; [auto 6 with run | eauto]. }
  destruct o as [error|response]; [apply Hretry|].
  destruct ((status response =? 429) || (status response =? 403)); [apply Hretry|].
  destruct (status response >=? 500); [apply Hretry|].
  apply Run_ret. split; [auto with run | eauto].
Qed.

Lemma Run_filterCommits username entries :
  Run (filterCommits username entries) (fun _ new => new = []).
Proof.
  intros w. exists []. rewrite app_nil_r.
  destruct (filterCommits_outcome username entries w) as [(l & ->)| ->]; cbn; auto.
Qed.

(** [getRepoCommits] returns a count that is not negative and reads the
    commit history of its repository only. *)
Lemma Run_getRepoCommits username repoOwner repoName since token :
  Run (getRepoCommits username repoOwner repoName since token)
      (fun o new => returns (fun n => 0 <= n) o /\ providerOnly [(repoOwner, repoName)] new).
Proof.
  unfold getRepoCommits.
  eapply Run_bind with
    (Q1 := fun o new => returns (fun r => match r with Some n => 0 <= n | None => True end) o
                        /\ providerOnly [(repoOwner, repoName)] new).
  - eapply Run_try_catch with
      (Q1 := fun o new =>
               (forall r, o = Ok r -> match r with Some n => 0 <= n | None => True end)
               /\ providerOnly [(repoOwner, repoName)] new).
    + destruct since as [since|]; cbn [toISOString];
        [apply Run_after_ret
        |eapply Run_bind with (Q1 := fun o new => (forall a, o <> Ok a) /\ new = []);
         [apply Run_throw; split; [discriminate | reflexivity]
         |intros e new [_ ->]; split; [discriminate | auto with run]
         |intros a new [Ha _]; destruct (Ha a eq_refl)]].
      eapply Run_bind with (Q1 := fun _ new => providerOnly [(repoOwner, repoName)] new).
      * apply (Run_fetchWithRetry commitsApi (RepoCommits repoOwner repoName username since)).
      * intros e new H. split; [discriminate | exact H].
      * intros r new1 H1. destruct (ok r).
        -- eapply Run_bind with (Q1 := fun _ new => new = []).
           ++ apply Run_json; reflexivity.
           ++ intros e new ->. rewrite app_nil_r. split; [discriminate | exact H1].
           ++ intros v new2 ->.
              eapply Run_bind with (Q1 := fun _ new => new = []).
              ** apply Run_asArray; reflexivity.
              ** intros e new ->. rewrite !app_nil_r. split; [discriminate | exact H1].
              ** intros l new3 ->.
                 eapply Run_bind with (Q1 := fun _ new => new = []).
                 --- apply Run_filterCommits.
                 --- intros e new ->. rewrite !app_nil_r. split; [discriminate | exact H1].
                 --- intros userCommits new4 ->. apply Run_ret. rewrite !app_nil_r.
                     split; [|exact H1]. intros r' [= <-]. lia.
        -- apply Run_ret. rewrite app_nil_r. split; [|exact H1]. intros r' [= <-]. exact I.
    + intros a new [Ha Hnew]. split; [|exact Hnew]. apply returns_Ok. apply Ha. reflexivity.
    + intros e new1 [_ H1]. apply Run_after_console. apply Run_ret.
      split; [apply returns_Ok; exact I | auto with run].
  - intros e new [Hr _]. exfalso. exact (returns_Throw _ e Hr).
  - intros r new1 [(r' & [= <-] & Hr) H1]. destruct r as [n|]; apply Run_ret;
      rewrite app_nil_r; (split; [apply returns_Ok; lia | exact H1]).
Qed.

(** ** Runs of the batches *)

Lemma contributes_of_count commits :
  contributes (if commits >? 0 then Some commits else None).
Proof. destruct (Z.gtb_spec commits 0); cbn; [lia | exact I]. Qed.

Lemma Run_batchPromise username repoOwner repoName since token message :
  Run (try_catch
         (commits <- getRepoCommits username repoOwner repoName since token ;;
          ret (if commits >? 0 then Some commits else None))
         (fun error => console ErrorLevel message ;; ret None))
      (fun o new => returns contributes o /\ providerOnly [(repoOwner, repoName)] new).
Proof.
  eapply Run_try_catch with
    (Q1 := fun o new => returns contributes o /\ providerOnly [(repoOwner, repoName)] new).
  - eapply Run_bind; [apply Run_getRepoCommits| |].
    + intros e new [Hr _]. exfalso. exact (returns_Throw _ e Hr).
    + intros commits new1 [_ H1]. apply Run_ret. rewrite app_nil_r.
      split; [apply returns_Ok, contributes_of_count | exact H1].
  - auto.
  - intros e new1 [Hr _]. exfalso. exact (returns_Throw _ e Hr).
Qed.

Lemma Run_ownedBatchPromise username config since repo :
  Run (ownedBatchPromise username config since repo)
      (fun o new => returns contributes o /\ providerOnly [(username, name repo)] new).
Proof. apply Run_batchPromise. Qed.

Lemma Run_orgBatchPromise username config since entry :
  Run (orgBatchPromise username config since entry)
      (fun o new => returns contributes o /\ providerOnly [(fst entry, name (snd entry))] new).
Proof. apply Run_batchPromise. Qed.

(** [Promise.all] over promises that raise nothing: as many results as
    promises, each as its promise leaves it, and the events of all. *)
Lemma Run_mapM {A B} (f : A -> M B) (targets : A -> list (string * string)) (R : B -> Prop) :
  (forall x, Run (f x) (fun o new => returns R o /\ providerOnly (targets x) new)) ->
  forall l,
    Run (mapM f l)
        (fun o new =>
           returns (fun results => Forall R results /\ length results = length l) o
           /\ providerOnly (flat_map targets l) new).
Proof.
  intros Hf. induction l as [|x l IH]; cbn [mapM].
  - apply Run_ret. split; [apply returns_Ok; split; [constructor | reflexivity] | auto with run].
  - eapply Run_bind; [apply Hf| |].
    + intros e new [Hr _]. exfalso. exact (returns_Throw _ e Hr).
    + intros y new1 [(y' & [= <-] & Hy) H1].
      eapply Run_bind; [apply IH| |].
      * intros e new [Hr _]. exfalso. exact (returns_Throw _ e Hr).
      * intros ys new2 [(ys' & [= <-] & Hys & Hlen) H2]. apply Run_ret. rewrite app_nil_r.
        split.
        -- apply returns_Ok. split; [constructor; assumption | cbn; lia].
        -- cbn [flat_map]. apply providerOnly_app.
           ++ eapply providerOnly_mono; [|exact H1]. apply incl_appl, incl_refl.
           ++ eapply providerOnly_mono; [|exact H2]. apply incl_appr, incl_refl.
Qed.

Lemma incl_flat_map_singleton {A B} (f : A -> B) (l : list A) :
  incl (flat_map (fun x => [f x]) l) (map f l).
Proof.
  induction l as [|x l IH]; [apply incl_refl|]. cbn. intros y [<-|Hy]; [left; reflexivity | right; apply IH, Hy].
Qed.

(** The counters after the results of an owned batch: [k] repositories
    contributed, each at least one commit. *)
Lemma countOwnedResults_spec results :
  Forall contributes results ->
  forall totalCommits ownedRepos processedRepos,
    exists k,
      0 <= k <= Z.of_nat (length results)
      /\ snd (fst (countOwnedResults results totalCommits ownedRepos processedRepos)) = ownedRepos + k
      /\ snd (countOwnedResults results totalCommits ownedRepos processedRepos) = processedRepos + k
      /\ totalCommits + k
         <= fst (fst (countOwnedResults results totalCommits ownedRepos processedRepos)).
Proof.
  induction 1 as [|result results Hr _ IH]; intros totalCommits ownedRepos processedRepos.
  - exists 0. cbn. lia.
  - destruct result as [commits|]; cbn [countOwnedResults].
    + destruct (IH (totalCommits + commits) (ownedRepos + 1) (processedRepos + 1))
        as (k & Hk & -> & -> & Ht).
      exists (k + 1). cbn [contributes] in Hr. cbn [length]. lia.
    + destruct (IH totalCommits ownedRepos processedRepos) as (k & Hk & -> & -> & Ht).
      exists k. cbn [length]. lia.
Qed.

(** The counters after the results of an organization batch. *)
Lemma countOrgResults_spec maxRepos results :
  Forall contributes results ->
  forall totalOrgCommits processedOrgRepos,
    exists k,
      0 <= k
      /\ snd (countOrgResults maxRepos results totalOrgCommits processedOrgRepos)
         = processedOrgRepos + k
      /\ processedOrgRepos + k <= Z.max processedOrgRepos maxRepos
      /\ totalOrgCommits + k
         <= fst (countOrgResults maxRepos results totalOrgCommits processedOrgRepos).
Proof.
  induction 1 as [|result results Hr _ IH]; intros totalOrgCommits processedOrgRepos.
  - exists 0. cbn. lia.
  - destruct result as [commits|]; cbn [countOrgResults].
    + destruct (Z.ltb_spec processedOrgRepos maxRepos) as [Hlt|Hge].
      * destruct (IH (totalOrgCommits + commits) (processedOrgRepos + 1))
          as (k & Hk & -> & Hmax & Ht).
        exists (k + 1). cbn [contributes] in Hr. lia.
      * destruct (IH totalOrgCommits processedOrgRepos) as (k & Hk & -> & Hmax & Ht).
        exists k. lia.
    + destruct (IH totalOrgCommits processedOrgRepos) as (k & Hk & -> & Hmax & Ht).
      exists k. lia.
Qed.

Lemma incl_map_slice {A B} (f : A -> B) (from to : nat) (l : list A) :
  incl (map f (slice from to l)) (map f l).
Proof.
  intros y Hy. apply in_map_iff in Hy as (x & <- & Hx). apply in_map.
  unfold slice in Hx. apply list_elem_of_In in Hx. apply list_elem_of_In.
  apply (subseteq_drop from l), (subseteq_take (to - from)), Hx.
Qed.

Lemma length_batch {A} (i batchSize : nat) (l : list A) :
  (length (slice i (i + batchSize) l) + length (drop (i + batchSize) l) = length (drop i l))%nat.
Proof. unfold slice. rewrite length_take, !length_drop. lia. Qed.

(** The owned batch loop: the repositories that contribute are among
    those from index [i] on, each adds one to both counters and at least
    one commit to the total; only repositories of [reposToProcess] are
    queried. *)
Lemma Run_ownedBatches username config since reposToProcess batchSize :
  forall steps i totalCommits ownedRepos processedRepos,
    Run (ownedBatches steps username config since reposToProcess batchSize i
           totalCommits ownedRepos processedRepos)
        (fun o new =>
           returns (fun counters =>
                      exists k,
                        0 <= k <= Z.of_nat (length (drop i reposToProcess))
                        /\ snd (fst counters) = ownedRepos + k
                        /\ snd counters = processedRepos + k
                        /\ totalCommits + k <= fst (fst counters)) o
           /\ providerOnly (map (fun repo => (username, name repo)) reposToProcess) new).
Proof.
  induction steps as [|steps IH]; intros i totalCommits ownedRepos processedRepos;
    cbn [ownedBatches].
  - apply Run_ret. split; [|auto with run]. apply returns_Ok. exists 0. cbn. lia.
  - destruct (i <? length reposToProcess)%nat.
    2:{ apply Run_ret. split; [|auto with run]. apply returns_Ok. exists 0. cbn. lia. }
    eapply Run_bind;
      [apply (Run_mapM _ (fun repo => [(username, name repo)]) contributes),
         Run_ownedBatchPromise | |].
    + intros e new [Hr _]. exfalso. exact (returns_Throw _ e Hr).
    + intros results new1 [(results' & [= <-] & Hres & Hlen) H1].
      destruct (countOwnedResults_spec results Hres totalCommits ownedRepos processedRepos)
        as (k1 & Hk1 & Ho & Hp & Ht).
      pose proof (length_batch i batchSize reposToProcess) as Hsplit.
      assert (Hnext :
        Run (ownedBatches steps username config since reposToProcess batchSize (i + batchSize)
               (fst (fst (countOwnedResults results totalCommits ownedRepos processedRepos)))
               (snd (fst (countOwnedResults results totalCommits ownedRepos processedRepos)))
               (snd (countOwnedResults results totalCommits ownedRepos processedRepos)))
            (fun o new2 =>
               returns (fun counters =>
                          exists k,
                            0 <= k <= Z.of_nat (length (drop i reposToProcess))
                            /\ snd (fst counters) = ownedRepos + k
                            /\ snd counters = processedRepos + k
                            /\ totalCommits + k <= fst (fst counters)) o
               /\ forall pause, providerOnly [] pause ->
                    providerOnly (map (fun repo => (username, name repo)) reposToProcess)
                      (new1 ++ pause ++ new2))).
      { eapply Run_conseq; [apply IH|]. cbn beta.
        intros o new2 [(c & -> & k2 & Hk2 & Ho2 & Hp2 & Ht2) H2]. split.
        - apply returns_Ok. exists (k1 + k2). lia.
        - intros pause Hpause. apply providerOnly_app; [|apply providerOnly_app].
          + eapply providerOnly_mono; [|exact H1].
            eapply incl_tran; [apply incl_flat_map_singleton | apply incl_map_slice].
          + eapply providerOnly_mono; [|exact Hpause]. intros t [].
          + exact H2. }
      destruct (i + batchSize <? length reposToProcess)%nat.
      * apply Run_after_sleep. eapply Run_conseq; [exact Hnext|]. cbn beta.
        intros o new2 [Hr Hp2]. split; [exact Hr|].
        apply (Hp2 [EvSleep (batchDelay config)]). auto with run.
      * apply Run_after_ret. eapply Run_conseq; [exact Hnext|]. cbn beta.
        intros o new2 [Hr Hp2]. split; [exact Hr|]. apply (Hp2 []). auto with run.
Qed.

(** A step under the handler of [getOrgRepoCommits]. *)
Lemma Run_guarded {A} counters (m : M A) (Q1 : Outcome A -> list Event -> Prop)
    (Q : Outcome (Z * Z + A) -> list Event -> Prop) :
  Run m Q1 ->
  (forall a new, Q1 (Ok a) new -> Q (Ok (inr a)) new) ->
  (forall e new, Q1 (Throw e) new ->
     Q (Ok (inl counters))
       (new ++ [EvConsole ErrorLevel "Error fetching organization repositories"])) ->
  Run (guarded counters m) Q.
Proof.
  intros Hm Hok Hthrow. unfold guarded.
  eapply Run_try_catch with
    (Q1 := fun o new => match o with
                        | Ok (inr a) => Q1 (Ok a) new
                        | Ok (inl _) => False
                        | Throw e => Q1 (Throw e) new
                        end).
  - eapply Run_bind; [exact Hm| |].
    + auto.
    + intros a new1 H1. apply Run_ret. rewrite app_nil_r. exact H1.
  - intros [c|a] new H; [destruct H | auto].
  - intros e new1 H1. apply Run_after_console, Run_ret. apply (Hthrow e new1 H1).
Qed.

(** The organization batch loop: the counter of repositories grows by
    the number [k] of contributions that were admitted and never passes
    [maxRepos]; each admitted repository adds at least one commit; only
    repositories of [allOrgRepos] are queried. *)
Lemma Run_orgBatches username config since maxRepos allOrgRepos batchSize :
  forall steps i totalOrgCommits processedOrgRepos,
    Run (orgBatches steps username config since maxRepos allOrgRepos batchSize i
           totalOrgCommits processedOrgRepos)
        (fun o new =>
           returns (fun counters =>
                      exists k,
                        0 <= k
                        /\ snd counters = processedOrgRepos + k
                        /\ processedOrgRepos + k <= Z.max processedOrgRepos maxRepos
                        /\ totalOrgCommits + k <= fst counters) o
           /\ providerOnly (map (fun entry => (fst entry, name (snd entry))) allOrgRepos) new).
Proof.
  induction steps as [|steps IH]; intros i totalOrgCommits processedOrgRepos;
    cbn [orgBatches].
  - apply Run_ret. split; [|auto with run]. apply returns_Ok. exists 0. cbn. lia.
  - destruct ((i <? length allOrgRepos)%nat && (processedOrgRepos <? maxRepos)).
    2:{ apply Run_ret. split; [|auto with run]. apply returns_Ok. exists 0. cbn. lia. }
    set (targets := map (fun entry : string * GitHubRepo => (fst entry, name (snd entry)))
                        allOrgRepos).
    eapply Run_bind with
      (Q1 := fun o new =>
               returns (fun awaited => exists results,
                          awaited = inr results /\ Forall contributes results) o
               /\ providerOnly targets new).
    + eapply Run_guarded;
        [apply (Run_mapM _ (fun entry => [(fst entry, name (snd entry))]) contributes),
           Run_orgBatchPromise | |].
      * intros results new [(results' & [= <-] & Hres & _) Hnew]. split.
        -- apply returns_Ok. eauto.
        -- eapply providerOnly_mono; [|exact Hnew].
           eapply incl_tran; [apply incl_flat_map_singleton | apply incl_map_slice].
      * intros e new [Hr _]. exfalso. exact (returns_Throw _ e Hr).
    + intros e new [Hr _]. exfalso. exact (returns_Throw _ e Hr).
    + intros awaited new1 [(awaited' & [= <-] & results & -> & Hres) H1].
      destruct (countOrgResults_spec maxRepos results Hres totalOrgCommits processedOrgRepos)
        as (k1 & Hk1 & Hp & Hmax & Ht).
      set (counters := countOrgResults maxRepos results totalOrgCommits processedOrgRepos) in *.
      eapply Run_bind with
        (Q1 := fun o new => o = Ok (inr tt) /\ providerOnly targets new).
      * eapply Run_guarded with (Q1 := fun o new => o = Ok tt /\ providerOnly targets new).
        -- destruct ((i + batchSize <? length allOrgRepos)%nat && (snd counters <? maxRepos)).
           ++ apply Run_sleep. auto with run.
           ++ apply Run_ret. auto with run.
        -- intros [] new [_ Hnew]. auto.
        -- intros e new [He _]. discriminate He.
      * intros e new [He _]. discriminate He.
      * intros paused new2 [[= ->] H2].
        eapply Run_conseq; [apply IH|]. cbn beta.
        intros o new3 [(c & -> & k2 & Hk2 & Hp2 & Hmax2 & Ht2) H3]. split.
        -- apply returns_Ok. exists (k1 + k2). lia.
        -- auto with run.
Qed.

Lemma Run_orgReposPromise config o :
  Run (orgReposPromise config o)
      (fun out new => returns (fun _ => True) out /\ providerOnly [] new).
Proof.
  unfold orgReposPromise.
  eapply Run_try_catch with
    (Q1 := fun out new =>
             (forall e, out = Throw e -> True) /\ providerOnly [] new).
  - eapply Run_bind;
      [apply (Run_fetchWithRetry reposApi (OrgRepos (login o) (maxReposPerOrg config))) | |].
    + auto.
    + intros r new1 H1. cbn [urlTargets] in H1. destruct (ok r).
      * eapply Run_bind with (Q1 := fun _ new => new = []).
        -- apply Run_json; reflexivity.
        -- intros e new ->. rewrite app_nil_r. auto.
        -- intros v new2 ->. apply Run_ret. rewrite !app_nil_r. auto.
      * apply Run_ret. rewrite app_nil_r. auto.
  - intros a new [_ Hnew]. split; [apply returns_Ok; exact I | exact Hnew].
  - intros e new1 [_ H1]. apply Run_after_console, Run_ret.
    split; [apply returns_Ok; exact I | auto with run].
Qed.

Lemma flat_map_nil {A B} (l : list A) : flat_map (fun _ : A => @nil B) l = [].
Proof. induction l as [|x l IH]; [reflexivity | exact IH]. Qed.

(** The organization pass: it raises nothing; it admits at most
    [maxRepos] repositories, each with at least one commit; its first
    event is the request for the organizations of the user, and it
    queries the commit history of at most [maxRepos] repositories, of
    organizations that are not excluded. *)
Lemma Run_getOrgRepoCommits username config since maxRepos :
  Run (getOrgRepoCommits username config since maxRepos)
      (fun o new =>
         returns (fun orgResult =>
                    0 <= snd orgResult <= Z.max 0 maxRepos
                    /\ snd orgResult <= fst orgResult) o
         /\ (exists rest,
               new = EvFetch (UserOrgs username) (getGithubHeaders (githubToken config)) :: rest)
         /\ exists repos,
              Z.of_nat (length repos) <= Z.max 0 maxRepos
              /\ Forall (fun repo => includes (excludeOrgs config) (fst repo) = false) repos
              /\ providerOnly repos new).
Proof.
  unfold getOrgRepoCommits.
  set (first := EvFetch (UserOrgs username) (getGithubHeaders (githubToken config))).
  eapply Run_bind_returned with
    (Q1 := fun o new =>
             returns (fun listed =>
                        listed = inl (0, 0) \/ listed = inr (inl (0, 0))
                        \/ exists allOrgRepos,
                             listed = inr (inr allOrgRepos)
                             /\ Z.of_nat (length allOrgRepos) <= Z.max 0 maxRepos) o
             /\ providerOnly [] new
             /\ exists rest, new = first :: rest).
  - eapply Run_guarded with
      (Q1 := fun o new =>
               (forall listed, o = Ok listed ->
                  listed = inl (0, 0)
                  \/ exists allOrgRepos,
                       listed = inr allOrgRepos
                       /\ Z.of_nat (length allOrgRepos) <= Z.max 0 maxRepos)
               /\ providerOnly [] new
               /\ exists rest, new = first :: rest).
    + eapply Run_bind; [apply (Run_fetchWithRetry_first orgsApi (UserOrgs username)) | |].
      * intros e new [H Hfirst]. split; [discriminate | split; [exact H | exact Hfirst]].
      * intros r new1 [H1 (rest1 & ->)]. cbn [urlTargets] in H1.
        assert (Hdone : forall (o : Outcome (Z * Z + list (string * GitHubRepo))) new,
                  (forall listed, o = Ok listed ->
                     listed = inl (0, 0)
                     \/ exists allOrgRepos,
                          listed = inr allOrgRepos
                          /\ Z.of_nat (length allOrgRepos) <= Z.max 0 maxRepos) ->
                  providerOnly [] new ->
                  (forall listed, o = Ok listed ->
                     listed = inl (0, 0)
                     \/ exists allOrgRepos,
                          listed = inr allOrgRepos
                          /\ Z.of_nat (length allOrgRepos) <= Z.max 0 maxRepos)
                  /\ providerOnly [] ((first :: rest1) ++ new)
                  /\ exists rest, (first :: rest1) ++ new = first :: rest).
        { intros o new Ho Hnew. split; [exact Ho|]. split; [auto with run|].
          exists (rest1 ++ new). reflexivity. }
        destruct (negb (ok r)).
        -- apply Run_after_console, Run_ret. apply Hdone; [|auto with run].
           intros listed [= <-]. left. reflexivity.
        -- apply Run_after_pure; [apply Pure_json | |].
           { intros e. apply (Hdone _ []); [discriminate | auto with run]. }
           intros v _.
           apply Run_after_pure; [apply Pure_asArray | |].
           { intros e. apply (Hdone _ []); [discriminate | auto with run]. }
           intros orgs _.
           apply Run_after_pure; [apply Pure_filterOrgs | |].
           { intros e. apply (Hdone _ []); [discriminate | auto with run]. }
           intros filteredOrgs _.
           eapply Run_bind;
             [apply (Run_mapM _ (fun _ => []) (fun _ => True)), Run_orgReposPromise | |].
           ++ intros e new [Hr _]. exfalso. exact (returns_Throw _ e Hr).
           ++ intros orgReposResults new4 [_ H4]. rewrite flat_map_nil in H4.
              apply Run_after_pure; [apply Pure_flattenOrgRepos | |].
              { intros e. rewrite app_nil_r. apply Hdone; [discriminate | exact H4]. }
              intros allOrgRepos Hflat. apply Run_ret. rewrite app_nil_r.
              apply Hdone; [|exact H4].
              intros listed [= <-]. right. exists allOrgRepos.
              split; [reflexivity|]. apply flattenOrgRepos_length in Hflat. exact Hflat.
    + intros listed new (Hl & Hnew & Hfirst). split; [|split; [exact Hnew | exact Hfirst]].
      apply returns_Ok.
      destruct (Hl listed eq_refl) as [->|(all & -> & Hlen)]; eauto.
    + intros e new (_ & Hnew & rest & ->).
      split; [apply returns_Ok; left; reflexivity|]. split; [auto with run|].
      eexists. reflexivity.
  - intros e new [Hr _]. exfalso. exact (returns_Throw _ e Hr).
  - intros listed new1 Hret ((listed' & [= <-] & Hl) & H1 & rest1 & ->).
    destruct Hl as [->|[->|(allOrgRepos & -> & Hlen)]].
    + apply Run_ret. rewrite app_nil_r. split; [apply returns_Ok; cbn; lia|].
      split; [eexists; reflexivity|]. exists []. split; [cbn; lia|]. split; [constructor | exact H1].
    + apply Run_ret. rewrite app_nil_r. split; [apply returns_Ok; cbn; lia|].
      split; [eexists; reflexivity|]. exists []. split; [cbn; lia|]. split; [constructor | exact H1].
    + assert (Horgs : Forall (fun entry : string * GitHubRepo =>
                                includes (excludeOrgs config) (fst entry) = false)
                        allOrgRepos).
      { apply Returned_guarded, Returned_bind in Hret as (r & _ & Hret).
        destruct (negb (ok r)).
        { apply Returned_console, Returned_ret in Hret. discriminate Hret. }
        apply Returned_bind in Hret as (v & _ & Hret).
        apply Returned_bind in Hret as (orgs & _ & Hret).
        apply Returned_bind in Hret as (filteredOrgs & Hfiltered & Hret).
        apply Returned_bind in Hret as (results & Hresults & Hret).
        apply Returned_bind in Hret as (l & Hflat & Hret).
        apply Returned_ret in Hret. injection Hret as ->.
        apply Returned_mapM in Hresults. apply Returned_filterOrgs in Hfiltered.
        eapply Returned_flattenOrgRepos; [|constructor|exact Hflat].
        intros orgLogin value repo Hin _. cbn [fst].
        apply (orgReposResults_logins _ _ _ Hresults) in Hin.
        apply in_map_iff in Hin as (o & <- & Ho).
        rewrite Forall_forall in Hfiltered.
        apply (Hfiltered o), list_elem_of_In, Ho. }
      eapply Run_conseq; [apply Run_orgBatches|]. cbn beta.
      intros o new2 [(c & -> & k & Hk & Hp & Hmax & Ht) H2]. split.
      * apply returns_Ok. lia.
      * split; [eexists; reflexivity|].
        exists (map (fun entry : string * GitHubRepo => (fst entry, name (snd entry))) allOrgRepos).
        split; [rewrite length_map; exact Hlen|].
        split; [apply Forall_map; exact Horgs|].
        apply providerOnly_app; [|exact H2].
        eapply providerOnly_mono; [|exact H1]. intros t [].
Qed.

(** ** Relations between the world before and after a run

    The rules hold for every relation [T] that is reflexive and
    transitive and that the primitives of the provider respect: a log
    line, a pause, and a call of [fetch] whose request satisfies [P]. *)

Section StepRules.
Variable P : Event -> Prop.
Variable T : World -> World -> Prop.
Hypothesis T_refl : forall w, T w w.
Hypothesis T_trans : forall w1 w2 w3, T w1 w2 -> T w2 w3 -> T w1 w3.
Hypothesis T_console : forall level message w, T w (snd (console level message w)).
Hypothesis T_sleep : forall ms w, T w (snd (sleep ms w)).
Hypothesis T_fetch : forall A (api : Api A) url options w,
  P (EvFetch url options) -> T w (snd (fetch api url options w)).

Lemma Steps_ret {A} (a : A) : Steps T (ret a).
Proof. intros w. apply T_refl. Qed.

Lemma Steps_throw {A} (e : Error) : Steps T (@throw A e).
Proof. intros w. apply T_refl. Qed.

Lemma Steps_bind_returned {A B} (m : M A) (k : A -> M B) :
  Steps T m -> (forall a, Returned m a -> Steps T (k a)) -> Steps T (bind m k).
Proof.
  intros Hm Hk w. unfold bind. pose proof (Hm w) as H1.
  destruct (m w) as [[a|e] w1] eqn:Hrun; cbn [snd] in *; [|exact H1].
  eapply T_trans; [exact H1|]. apply Hk. exists w, w1. exact Hrun.
Qed.

Lemma Steps_bind {A B} (m : M A) (k : A -> M B) :
  Steps T m -> (forall a, Steps T (k a)) -> Steps T (bind m k).
Proof. intros Hm Hk. apply Steps_bind_returned; auto. Qed.

Lemma Steps_try_catch {A} (m : M A) (h : Error -> M A) :
  Steps T m -> (forall e, Steps T (h e)) -> Steps T (try_catch m h).
Proof.
  intros Hm Hh w. unfold try_catch. pose proof (Hm w) as H1.
  destruct (m w) as [[a|e] w1]; cbn [snd] in *; [exact H1|].
  eapply T_trans; [exact H1 | apply Hh].
Qed.

Lemma Steps_console level message : Steps T (console level message).
Proof. intros w. apply T_console. Qed.

Lemma Steps_sleep ms : Steps T (sleep ms).
Proof. intros w. apply T_sleep. Qed.

Lemma Steps_fetch {A} (api : Api A) url options :
  P (EvFetch url options) -> Steps T (fetch api url options).
Proof. intros HP w. apply T_fetch, HP. Qed.

Lemma Steps_newDate : Steps T newDate.
Proof. intros w. apply T_refl. Qed.

Lemma Steps_json {A} (r : Response A) : Steps T (json r).
Proof. unfold json. destruct (body r); [apply Steps_ret | apply Steps_throw]. Qed.

Lemma Steps_pure {A} (m : M A) : Pure m -> Steps T m.
Proof. intros [o Hm] w. rewrite Hm. apply T_refl. Qed.

Lemma Steps_asArray {A} (v : Json A) : Steps T (asArray v).
Proof. apply Steps_pure, Pure_asArray. Qed.

Lemma Steps_mapM {A B} (f : A -> M B) (l : list A) :
  (forall x, In x l -> Steps T (f x)) -> Steps T (mapM f l).
Proof.
  induction l as [|x l IH]; intros Hf; cbn [mapM]; [apply Steps_ret|].
  apply Steps_bind; [apply Hf, in_eq|]. intros y.
  apply Steps_bind; [|intros ys; apply Steps_ret].
  apply IH. intros x' Hx'. apply Hf, in_cons, Hx'.
Qed.

Lemma Steps_fetchLoop {A} (api : Api A) url options maxRetries initialDelay :
  P (EvFetch url options) ->
  forall budget i lastError,
    Steps T (fetchLoop api url options maxRetries initialDelay budget i lastError).
Proof.
  intros HP. induction budget as [|budget IH]; intros i lastError; cbn [fetchLoop].
  - apply Steps_throw.
  - apply Steps_bind; [apply Steps_fetch, HP|]. intros o.
    assert (Hretry : forall level message ms lastError',
      Steps T (console level message ;; sleep ms ;;
               fetchLoop api url options maxRetries initialDelay budget (S i) lastError')).
    { intros. apply Steps_bind; [apply Steps_console|]. intros _.
      apply Steps_bind; [apply Steps_sleep|]. intros _. apply IH. }
    destruct o as [error|response]; [apply Hretry|].
    destruct ((status response =? 429) || (status response =? 403)); [apply Hretry|].
    destruct (status response >=? 500); [apply Hretry | apply Steps_ret].
Qed.

Lemma Steps_fetchWithRetry {A} (api : Api A) url options maxRetries initialDelay :
  P (EvFetch url options) -> Steps T (fetchWithRetry api url options maxRetries initialDelay).
Proof. intros HP. apply Steps_fetchLoop, HP. Qed.

Lemma Steps_filterCommits username entries : Steps T (filterCommits username entries).
Proof.
  intros w. destruct (filterCommits_outcome username entries w) as [(l & ->)| ->]; apply T_refl.
Qed.

Lemma Steps_getRepoCommits username repoOwner repoName since token :
  (forall start, since = Some start ->
     P (EvFetch (RepoCommits repoOwner repoName username start) (getGithubHeaders token))) ->
  Steps T (getRepoCommits username repoOwner repoName since token).
Proof.
  intros HP. unfold getRepoCommits.
  apply Steps_bind; [|intros [n|]; apply Steps_ret].
  apply Steps_try_catch.
  - apply Steps_bind_returned; [apply Steps_pure, Pure_toISOString|]. intros start Hstart.
    apply Returned_toISOString in Hstart.
    apply Steps_bind; [apply Steps_fetchWithRetry, HP, Hstart|]. intros r.
    destruct (ok r); [|apply Steps_ret].
    apply Steps_bind; [apply Steps_json|]. intros v.
    apply Steps_bind; [apply Steps_asArray|]. intros l.
    apply Steps_bind; [apply Steps_filterCommits|]. intros userCommits. apply Steps_ret.
  - intros e. apply Steps_bind; [apply Steps_console|]. intros _. apply Steps_ret.
Qed.

Lemma Steps_ownedBatchPromise username config since repo :
  (forall start, since = Some start ->
     P (EvFetch (RepoCommits username (name repo) username start)
          (getGithubHeaders (githubToken config)))) ->
  Steps T (ownedBatchPromise username config since repo).
Proof.
  intros HP. unfold ownedBatchPromise. apply Steps_try_catch.
  - apply Steps_bind; [apply Steps_getRepoCommits, HP|]. intros n. apply Steps_ret.
  - intros e. apply Steps_bind; [apply Steps_console|]. intros _. apply Steps_ret.
Qed.

Lemma Steps_orgBatchPromise username config since entry :
  (forall start, since = Some start ->
     P (EvFetch (RepoCommits (fst entry) (name (snd entry)) username start)
          (getGithubHeaders (githubToken config)))) ->
  Steps T (orgBatchPromise username config since entry).
Proof.
  intros HP. unfold orgBatchPromise. apply Steps_try_catch.
  - apply Steps_bind; [apply Steps_getRepoCommits, HP|]. intros n. apply Steps_ret.
  - intros e. apply Steps_bind; [apply Steps_console|]. intros _. apply Steps_ret.
Qed.

Lemma In_slice {A} (from to : nat) (l : list A) x : In x (slice from to l) -> In x l.
Proof.
  unfold slice. intros H. apply list_elem_of_In in H. apply list_elem_of_In.
  eapply subseteq_drop, subseteq_take, H.
Qed.

Lemma Steps_ownedBatches username config since reposToProcess batchSize :
  (forall repo start, In repo reposToProcess -> since = Some start ->
     P (EvFetch (RepoCommits username (name repo) username start)
          (getGithubHeaders (githubToken config)))) ->
  forall steps i totalCommits ownedRepos processedRepos,
    Steps T (ownedBatches steps username config since reposToProcess batchSize i
               totalCommits ownedRepos processedRepos).
Proof.
  intros HP. induction steps as [|steps IH]; intros i totalCommits ownedRepos processedRepos;
    cbn [ownedBatches]; [apply Steps_ret|].
  destruct (i <? length reposToProcess)%nat; [|apply Steps_ret].
  apply Steps_bind.
  - apply Steps_mapM. intros repo Hin. apply Steps_ownedBatchPromise.
    intros start. apply HP. eapply In_slice, Hin.
  - intros results. apply Steps_bind; [|intros _; apply IH].
    destruct (i + batchSize <? length reposToProcess)%nat; [apply Steps_sleep | apply Steps_ret].
Qed.

Lemma Steps_guarded {A} counters (m : M A) : Steps T m -> Steps T (guarded counters m).
Proof.
  intros Hm. unfold guarded. apply Steps_try_catch.
  - apply Steps_bind; [exact Hm|]. intros a. apply Steps_ret.
  - intros e. apply Steps_bind; [apply Steps_console|]. intros _. apply Steps_ret.
Qed.

Lemma Steps_orgBatches username config since maxRepos allOrgRepos batchSize :
  (forall entry start, In entry allOrgRepos -> since = Some start ->
     P (EvFetch (RepoCommits (fst entry) (name (snd entry)) username start)
          (getGithubHeaders (githubToken config)))) ->
  forall steps i totalOrgCommits processedOrgRepos,
    Steps T (orgBatches steps username config since maxRepos allOrgRepos batchSize i
               totalOrgCommits processedOrgRepos).
Proof.
  intros HP. induction steps as [|steps IH]; intros i totalOrgCommits processedOrgRepos;
    cbn [orgBatches]; [apply Steps_ret|].
  destruct ((i <? length allOrgRepos)%nat && (processedOrgRepos <? maxRepos));
    [|apply Steps_ret].
  apply Steps_bind.
  - apply Steps_guarded, Steps_mapM. intros entry Hin. apply Steps_orgBatchPromise.
    intros start. apply HP. eapply In_slice, Hin.
  - intros [counters|results]; [apply Steps_ret|].
    apply Steps_bind.
    + apply Steps_guarded.
      destruct ((i + batchSize <? length allOrgRepos)%nat
                && (snd (countOrgResults maxRepos results totalOrgCommits processedOrgRepos)
                    <? maxRepos)); [apply Steps_sleep | apply Steps_ret].
    + intros [counters|[]]; [apply Steps_ret | apply IH].
Qed.

Lemma Steps_orgReposPromise config o :
  P (EvFetch (OrgRepos (login o) (maxReposPerOrg config))
       (getGithubHeaders (githubToken config))) ->
  Steps T (orgReposPromise config o).
Proof.
  intros HP. unfold orgReposPromise. apply Steps_try_catch.
  - apply Steps_bind; [apply Steps_fetchWithRetry, HP|]. intros r.
    destruct (ok r); [|apply Steps_ret].
    apply Steps_bind; [apply Steps_json|]. intros v. apply Steps_ret.
  - intros e. apply Steps_bind; [apply Steps_console|]. intros _. apply Steps_ret.
Qed.

Lemma Steps_flattenOrgRepos config since maxRepos orgReposResults allOrgRepos :
  Steps T (flattenOrgRepos config since maxRepos orgReposResults allOrgRepos).
Proof. apply Steps_pure, Pure_flattenOrgRepos. Qed.

(** The organization pass and the whole aggregation respect [T] when
    [P] admits the requests listed by [allowedRequest]. *)
Lemma Steps_getOrgRepoCommits username config since maxRepos :
  P (EvFetch (UserOrgs username) (getGithubHeaders (githubToken config))) ->
  (forall orgLogin,
     includes (excludeOrgs config) orgLogin = false ->
     P (EvFetch (OrgRepos orgLogin (maxReposPerOrg config))
          (getGithubHeaders (githubToken config)))) ->
  (forall orgLogin repoName start,
     since = Some start ->
     includes (excludeOrgs config) orgLogin = false ->
     includes (excludeRepos config) repoName = false ->
     P (EvFetch (RepoCommits orgLogin repoName username start)
          (getGithubHeaders (githubToken config)))) ->
  Steps T (getOrgRepoCommits username config since maxRepos).
Proof.
  intros Horgs HorgRepos Hcommits. unfold getOrgRepoCommits.
  apply Steps_bind_returned.
  - apply Steps_guarded. apply Steps_bind; [apply Steps_fetchWithRetry, Horgs|]. intros r.
    destruct (negb (ok r)).
    + apply Steps_bind; [apply Steps_console|]. intros _. apply Steps_ret.
    + apply Steps_bind; [apply Steps_json|]. intros v.
      apply Steps_bind; [apply Steps_asArray|]. intros orgs.
      apply Steps_bind_returned; [apply Steps_pure, Pure_filterOrgs|].
      intros filteredOrgs Hfiltered. apply Returned_filterOrgs in Hfiltered.
      apply Steps_bind.
      * apply Steps_mapM. intros o Ho. apply Steps_orgReposPromise, HorgRepos.
        rewrite Forall_forall in Hfiltered. apply (Hfiltered o), list_elem_of_In, Ho.
      * intros results. apply Steps_bind; [apply Steps_flattenOrgRepos|].
        intros l. apply Steps_ret.
  - intros [counters|[returned|allOrgRepos]] Hret; [apply Steps_ret..|].
    apply Steps_orgBatches.
    apply Returned_guarded, Returned_bind in Hret as (r & _ & Hret).
    destruct (negb (ok r)).
    { apply Returned_console, Returned_ret in Hret. discriminate Hret. }
    apply Returned_bind in Hret as (v & _ & Hret).
    apply Returned_bind in Hret as (orgs & _ & Hret).
    apply Returned_bind in Hret as (filteredOrgs & Hfiltered & Hret).
    apply Returned_bind in Hret as (results & Hresults & Hret).
    apply Returned_bind in Hret as (l & Hflat & Hret).
    apply Returned_ret in Hret. injection Hret as ->.
    apply Returned_mapM in Hresults. apply Returned_filterOrgs in Hfiltered.
    assert (HR : Forall (fun entry =>
                   includes (excludeOrgs config) (fst entry) = false
                   /\ includes (excludeRepos config) (name (snd entry)) = false) l).
    { eapply Returned_flattenOrgRepos; [|constructor|exact Hflat].
      intros orgLogin value repo Hin Hex. cbn [fst snd]. split; [|exact Hex].
      apply (orgReposResults_logins _ _ _ Hresults) in Hin.
      apply in_map_iff in Hin as (o & <- & Ho).
      rewrite Forall_forall in Hfiltered. apply (Hfiltered o), list_elem_of_In, Ho. }
    intros entry start Hin Hstart. rewrite Forall_forall in HR.
    destruct (HR entry (proj2 (list_elem_of_In _ _) Hin)) as [Ho Hr].
    apply Hcommits; assumption.
Qed.

Lemma Steps_ownedPass username config since ownedRepos :
  (forall repoName start,
     since = Some start ->
     includes (excludeRepos config) repoName = false ->
     P (EvFetch (RepoCommits username repoName username start)
          (getGithubHeaders (githubToken config)))) ->
  Steps T (ownedPass username config since ownedRepos).
Proof.
  intros Howned. unfold ownedPass.
  destruct (ok ownedRepos); [|apply Steps_ret].
  apply Steps_bind; [apply Steps_json|]. intros v.
  apply Steps_bind; [apply Steps_asArray|]. intros repos.
  apply Steps_bind_returned; [apply Steps_pure, Pure_filterRepos|].
  intros filtered Hfiltered. apply Returned_filterRepos in Hfiltered as [Hfiltered _].
  apply Steps_ownedBatches. intros repo start Hin Hstart. apply Howned; [exact Hstart|].
  apply list_elem_of_In, subseteq_take in Hin.
  rewrite Forall_forall in Hfiltered. apply (Hfiltered repo Hin).
Qed.

Lemma Steps_getCommitCountFrom username config since ownedRepos :
  let headers := getGithubHeaders (githubToken config) in
  (includeOrgRepos config = true -> P (EvFetch (UserOrgs username) headers)) ->
  (forall orgLogin,
     includeOrgRepos config = true ->
     includes (excludeOrgs config) orgLogin = false ->
     P (EvFetch (OrgRepos orgLogin (maxReposPerOrg config)) headers)) ->
  (forall repoName start,
     since = Some start ->
     includes (excludeRepos config) repoName = false ->
     P (EvFetch (RepoCommits username repoName username start) headers)) ->
  (forall orgLogin repoName start,
     since = Some start ->
     includeOrgRepos config = true ->
     includes (excludeOrgs config) orgLogin = false ->
     includes (excludeRepos config) repoName = false ->
     P (EvFetch (RepoCommits orgLogin repoName username start) headers)) ->
  Steps T (getCommitCountFrom username config since ownedRepos).
Proof.
  intros headers Horgs HorgRepos Howned Hcommits. unfold getCommitCountFrom.
  apply Steps_bind.
  - apply Steps_ownedPass, Howned.
  - intros counters.
    destruct (includeOrgRepos config) eqn:Hinclude; cbn [andb]; [|apply Steps_ret].
    destruct (snd counters <? 20); [|apply Steps_ret].
    apply Steps_bind; [|intros orgResult; apply Steps_ret].
    apply Steps_getOrgRepoCommits; auto.
Qed.

Lemma Steps_awaitFetch {A} (api : Api A) call url options :
  Steps T (awaitFetch api call url options).
Proof. intros w. apply T_refl. Qed.

Lemma Steps_fetchLoopFrom {A} (api : Api A) url options maxRetries initialDelay budget i
    lastError outcome :
  P (EvFetch url options) ->
  Steps T (fetchLoopFrom api url options maxRetries initialDelay budget i lastError outcome).
Proof.
  intros HP. unfold fetchLoopFrom.
  assert (Hretry : forall level message ms lastError',
    Steps T (console level message ;; sleep ms ;;
             fetchLoop api url options maxRetries initialDelay budget (S i) lastError')).
  { intros. apply Steps_bind; [apply Steps_console|]. intros _.
    apply Steps_bind; [apply Steps_sleep|]. intros _. apply Steps_fetchLoop, HP. }
  destruct outcome as [error|response]; [apply Hretry|].
  destruct ((status response =? 429) || (status response =? 403)); [apply Hretry|].
  destruct (status response >=? 500); [apply Hretry | apply Steps_ret].
Qed.

Lemma Steps_resumeCommitCount username config since call :
  let headers := getGithubHeaders (githubToken config) in
  P (EvFetch (UserRepos username) headers) ->
  (includeOrgRepos config = true -> P (EvFetch (UserOrgs username) headers)) ->
  (forall orgLogin,
     includeOrgRepos config = true ->
     includes (excludeOrgs config) orgLogin = false ->
     P (EvFetch (OrgRepos orgLogin (maxReposPerOrg config)) headers)) ->
  (forall repoName start,
     since = Some start ->
     includes (excludeRepos config) repoName = false ->
     P (EvFetch (RepoCommits username repoName username start) headers)) ->
  (forall orgLogin repoName start,
     since = Some start ->
     includeOrgRepos config = true ->
     includes (excludeOrgs config) orgLogin = false ->
     includes (excludeRepos config) repoName = false ->
     P (EvFetch (RepoCommits orgLogin repoName username start) headers)) ->
  Steps T (resumeCommitCount username config since call).
Proof.
  intros headers Hrepos Horgs HorgRepos Howned Hcommits. unfold resumeCommitCount.
  apply Steps_bind; [apply Steps_awaitFetch|]. intros outcome.
  apply Steps_bind; [apply Steps_fetchLoopFrom, Hrepos|]. intros ownedRepos.
  apply Steps_getCommitCountFrom; assumption.
Qed.

Lemma getCommitCount_steps username monitoringDays config w :
  let since := sinceDate (clock w) monitoringDays in
  let headers := getGithubHeaders (githubToken config) in
  P (EvFetch (UserRepos username) headers) ->
  (includeOrgRepos config = true -> P (EvFetch (UserOrgs username) headers)) ->
  (forall orgLogin,
     includeOrgRepos config = true ->
     includes (excludeOrgs config) orgLogin = false ->
     P (EvFetch (OrgRepos orgLogin (maxReposPerOrg config)) headers)) ->
  (forall repoName start,
     since = Some start ->
     includes (excludeRepos config) repoName = false ->
     P (EvFetch (RepoCommits username repoName username start) headers)) ->
  (forall orgLogin repoName start,
     since = Some start ->
     includeOrgRepos config = true ->
     includes (excludeOrgs config) orgLogin = false ->
     includes (excludeRepos config) repoName = false ->
     P (EvFetch (RepoCommits orgLogin repoName username start) headers)) ->
  T w (snd (getCommitCount username monitoringDays config w)).
Proof.
  intros since headers Hrepos Horgs HorgRepos Howned Hcommits.
  unfold getCommitCount. unfold bind at 1. cbn [newDate]. fold since. fold headers.
  clearbody since. revert w.
  apply Steps_bind; [apply Steps_fetchWithRetry, Hrepos|]. intros ownedRepos.
  apply Steps_getCommitCountFrom; assumption.
Qed.
End StepRules.

(** ** The two relations of the runs: events gained, and time *)

Lemma gained_intro (P : Event -> Prop) w w' new :
  trace w' = trace w ++ new -> Forall P new -> gained P w w'.
Proof.
  intros Ht HP. unfold gained, newEvents. rewrite Ht, drop_app_length. split; [exact HP | reflexivity].
Qed.

Lemma gained_refl (P : Event -> Prop) w : gained P w w.
Proof. apply (gained_intro P w w []); [rewrite app_nil_r; reflexivity | constructor]. Qed.

Lemma gained_trans (P : Event -> Prop) w1 w2 w3 :
  gained P w1 w2 -> gained P w2 w3 -> gained P w1 w3.
Proof.
  intros [H1 Ht1] [H2 Ht2]. apply (gained_intro P w1 w3 (newEvents w1 w2 ++ newEvents w2 w3)).
  - rewrite Ht2, Ht1 at 1. rewrite <- app_assoc. reflexivity.
  - apply Forall_app. split; assumption.
Qed.

Lemma gained_one (P : Event -> Prop) w w' e :
  trace w' = trace w ++ [e] -> P e -> gained P w w'.
Proof. intros Ht He. apply (gained_intro P w w' [e] Ht). constructor; [exact He | constructor]. Qed.

Lemma later_trans w1 w2 w3 : later w1 w2 -> later w2 w3 -> later w1 w3.
Proof. unfold later. lia. Qed.

Lemma later_sleep ms w : later w (snd (sleep ms w)).
Proof. unfold later, sleep. cbn [snd clock]. lia. Qed.

(** The events of a run all satisfy a predicate that its steps
    respect. *)
Lemma Run_gained {A} (P : Event -> Prop) (m : M A) (Q : Outcome A -> list Event -> Prop) :
  Run m Q -> Steps (gained P) m -> Run m (fun o new => Q o new /\ Forall P new).
Proof.
  intros Hm Hsteps w. destruct (Hm w) as (new & Ht & Hn & Hk & HQ).
  exists new. repeat split; try assumption.
  destruct (Hsteps w) as [HP _]. unfold newEvents in HP.
  rewrite Ht, drop_app_length in HP. exact HP.
Qed.

(** ** Runs of the aggregation engine *)

(** The owned pass: the repositories that contribute are at most 20,
    each adds one to both counters and at least one commit to the total;
    the commit histories that it queries are those of at most 20
    repositories of the user, and it asks nothing about organizations; it
    raises before any event only. *)
Lemma Run_ownedPass username config since ownedRepos :
  Run (ownedPass username config since ownedRepos)
      (fun o new =>
         match o with
         | Ok counters =>
             (exists k,
                0 <= k <= 20
                /\ snd (fst counters) = k /\ snd counters = k /\ k <= fst (fst counters))
             /\ (exists repos,
                   Z.of_nat (length repos) <= 20
                   /\ Forall (fun repo => fst repo = username) repos
                   /\ providerOnly repos new)
             /\ Forall ownedPassEvent new
         | Throw _ => new = []
         end).
Proof.
  eapply Run_conseq.
  - apply (Run_gained ownedPassEvent) with
      (Q := fun o new =>
              match o with
              | Ok counters =>
                  (exists k,
                     0 <= k <= 20
                     /\ snd (fst counters) = k /\ snd counters = k /\ k <= fst (fst counters))
                  /\ (exists repos,
                        Z.of_nat (length repos) <= 20
                        /\ Forall (fun repo => fst repo = username) repos
                        /\ providerOnly repos new)
              | Throw _ => new = []
              end).
    + unfold ownedPass. destruct (ok ownedRepos).
      * apply Run_after_pure; [apply Pure_json | reflexivity |]. intros v _.
        apply Run_after_pure; [apply Pure_asArray | reflexivity |]. intros repos _.
        apply Run_after_pure; [apply Pure_filterRepos | reflexivity |]. intros filtered _.
        set (reposToProcess := take 20 filtered).
        assert (Hlen : (length reposToProcess <= 20)%nat)
          by (unfold reposToProcess; rewrite length_take; lia).
        eapply Run_conseq; [apply Run_ownedBatches|]. cbn beta.
        intros o new [(c & -> & k & Hk & Ho & Hp & Ht) Hnew].
        rewrite drop_0 in Hk. cbn [owned] in Ho. split; [exists k; repeat split; lia|].
        exists (map (fun repo : GitHubRepo => (username, name repo)) reposToProcess).
        split; [rewrite length_map; lia|]. split; [|exact Hnew].
        apply Forall_map, Forall_true. reflexivity.
      * apply Run_ret. split; [exists 0; cbn; repeat split; lia|].
        exists []. split; [cbn; lia|]. split; [constructor | auto with run].
    + apply (Steps_ownedPass ownedPassEvent (gained ownedPassEvent)).
      * exact (gained_refl ownedPassEvent).
      * exact (gained_trans ownedPassEvent).
      * intros level message w.
        apply (gained_one ownedPassEvent w _ (EvConsole level message)); [reflexivity | exact I].
      * intros ms w. apply (gained_one ownedPassEvent w _ (EvSleep ms)); [reflexivity | exact I].
      * intros A api url options w HP.
        apply (gained_one ownedPassEvent w _ (EvFetch url options)); [reflexivity | exact HP].
      * intros repoName start _ _. exact I.
  - intros [counters|e] new [HQ HP]; [|exact HQ].
    destruct HQ as [Hk Hrepos]. split; [exact Hk|]. split; [exact Hrepos | exact HP].
Qed.

Lemma Run_getCommitCountFrom username config since ownedRepos :
  Run (getCommitCountFrom username config since ownedRepos) (aggregationRun username config).
Proof.
  unfold getCommitCountFrom.
  eapply Run_bind; [apply Run_ownedPass | |].
  { intros e new ->. split; constructor. }
  intros counters new1 ((k & Hk & Ho & Hp & Ht) & (repos1 & Hlen1 & Hown1 & Hnew1) & Hpass1).
  destruct (includeOrgRepos config && (snd counters <? 20)) eqn:Horg.
  - apply andb_prop in Horg as [Hinclude Hroom]. apply Z.ltb_lt in Hroom.
    eapply Run_bind; [apply Run_getOrgRepoCommits | |].
    + intros e new [Hr _]. exfalso. exact (returns_Throw _ e Hr).
    + intros orgResult new3
        [(r' & [= <-] & Hp3 & Ht3) [(rest & ->) (repos2 & Hlen2 & Horgs2 & Hnew3)]].
      apply Run_ret. rewrite app_nil_r. cbn [aggregationRun].
      eexists new1, _. split; [reflexivity|].
      unfold passesRun. cbn [commits sources owned org].
      repeat split; try lia; try assumption.
      * right. eexists. reflexivity.
      * rewrite Hinclude. discriminate.
      * exists repos1, repos2. repeat split; try assumption; lia.
  - apply Run_ret. rewrite app_nil_r. cbn [aggregationRun].
    exists new1, []. split; [rewrite app_nil_r; reflexivity|].
    unfold passesRun. cbn [commits sources owned org].
    repeat split; try lia; try assumption.
    + left. reflexivity.
    + exists repos1, []. repeat split; try assumption; try (cbn; lia); constructor.
Qed.

(** The events of the listing of the repositories of the user come
    before the two passes and belong to the owned pass. *)
Lemma aggregationRun_listing user config o listing new :
  providerOnly [] listing -> Forall ownedPassEvent listing ->
  aggregationRun user config o new -> aggregationRun user config o (listing ++ new).
Proof.
  intros Hlisting Hpass. destruct o as [result|e]; cbn [aggregationRun].
  - intros (ownedEvents & orgEvents & -> & Hbounds). exists (listing ++ ownedEvents), orgEvents.
    split; [apply app_assoc|].
    destruct Hbounds as (H1 & H2 & H3 & H4 & Howned & Horg & Hoff
                         & ownedTargets & orgTargets & Hl1 & Hu & Hp1 & Hrest).
    repeat split; try assumption.
    + apply Forall_app. split; assumption.
    + exists ownedTargets, orgTargets. repeat split; try assumption; try apply Hrest.
      apply providerOnly_app; [|exact Hp1].
      eapply providerOnly_mono; [|exact Hlisting]. intros t [].
  - intros [Hnew Hp]. split; [auto with run | apply Forall_app; split; assumption].
Qed.

Lemma ownedPassEvent_gained :
  (forall w, gained ownedPassEvent w w)
  /\ (forall w1 w2 w3,
        gained ownedPassEvent w1 w2 -> gained ownedPassEvent w2 w3 -> gained ownedPassEvent w1 w3)
  /\ (forall level message w, gained ownedPassEvent w (snd (console level message w)))
  /\ (forall ms w, gained ownedPassEvent w (snd (sleep ms w)))
  /\ (forall A (api : Api A) url options w,
        ownedPassEvent (EvFetch url options) ->
        gained ownedPassEvent w (snd (fetch api url options w))).
Proof.
  split; [exact (gained_refl ownedPassEvent)|]. split; [exact (gained_trans ownedPassEvent)|].
  split; [|split].
  - intros level message w.
    apply (gained_one ownedPassEvent w _ (EvConsole level message)); [reflexivity | exact I].
  - intros ms w. apply (gained_one ownedPassEvent w _ (EvSleep ms)); [reflexivity | exact I].
  - intros A api url options w HP.
    apply (gained_one ownedPassEvent w _ (EvFetch url options)); [reflexivity | exact HP].
Qed.

(** The aggregation resumed at its first [await]. *)
Lemma Run_resumeCommitCount username config since call :
  Run (resumeCommitCount username config since call) (aggregationRun username config).
Proof.
  unfold resumeCommitCount. apply Run_after_awaitFetch. intros outcome.
  destruct ownedPassEvent_gained as (Hrefl & Htrans & Hconsole & Hsleep & Hfetch).
  eapply Run_bind.
  - apply (Run_gained ownedPassEvent); [apply Run_fetchLoopFrom|].
    apply (Steps_fetchLoopFrom ownedPassEvent (gained ownedPassEvent)); auto. exact I.
  - intros e new [H Hp]. split; assumption.
  - intros ownedRepos new1 [H1 Hp1]. cbn [urlTargets] in H1.
    eapply Run_conseq; [apply Run_getCommitCountFrom|]. cbn beta.
    intros o new2. apply aggregationRun_listing; assumption.
Qed.

Lemma Run_getCommitCount username monitoringDays config :
  Run (getCommitCount username monitoringDays config) (aggregationRun username config).
Proof.
  unfold getCommitCount. apply Run_after_newDate. intros now.
  eapply Run_bind.
  - apply (Run_gained ownedPassEvent);
      [apply (Run_fetchWithRetry reposApi (UserRepos username))|].
    apply (Steps_fetchWithRetry ownedPassEvent (gained ownedPassEvent)).
    + exact (gained_refl ownedPassEvent).
    + exact (gained_trans ownedPassEvent).
    + intros level message w.
      apply (gained_one ownedPassEvent w _ (EvConsole level message)); [reflexivity | exact I].
    + intros ms w. apply (gained_one ownedPassEvent w _ (EvSleep ms)); [reflexivity | exact I].
    + intros A api url options w HP.
      apply (gained_one ownedPassEvent w _ (EvFetch url options)); [reflexivity | exact HP].
    + exact I.
  - intros e new [H Hp]. split; assumption.
  - intros ownedRepos new1 [H1 Hp1]. cbn [urlTargets] in H1.
    eapply Run_conseq; [apply Run_getCommitCountFrom|]. cbn beta.
    intros o new2. apply aggregationRun_listing; assumption.
Qed.

(** The repositories that a run queries are among those it is allowed. *)
Lemma queriedRepos_incl repos new :
  providerOnly repos new -> incl (queriedRepos new) repos.
Proof.
  intros Hnew t Ht. unfold queriedRepos, commitQueries in Ht.
  apply list_elem_of_In in Ht. rewrite elem_of_remove_dups in Ht.
  apply list_elem_of_omap in Ht as (e & He & Htarget).
  unfold providerOnly in Hnew. rewrite Forall_forall in Hnew. specialize (Hnew e He).
  destruct e as [[]| | | | |]; try discriminate Htarget.
  cbn in Htarget, Hnew. injection Htarget as <-. exact Hnew.
Qed.

Lemma queriedRepos_bound repos new :
  providerOnly repos new -> (length (queriedRepos new) <= length repos)%nat.
Proof.
  intros Hnew. apply NoDup_incl_length.
  - apply NoDup_ListNoDup, NoDup_remove_dups.
  - apply queriedRepos_incl, Hnew.
Qed.

(** C10. Every result that [getCommitCount] returns has
    [sources.owned >= 0], [sources.org >= 0],
    [sources.owned + sources.org <= 20] and
    [commits >= sources.owned + sources.org]: a repository is counted in
    a source only with a commit count of at least one. *)
Theorem getCommitCount_result_bounds username monitoringDays config w result w' :
  getCommitCount username monitoringDays config w = (Ok result, w') ->
  owned (sources result) >= 0
  /\ org (sources result) >= 0
  /\ owned (sources result) + org (sources result) <= 20
  /\ commits result >= owned (sources result) + org (sources result).
Proof.
  intros Hrun.
  destruct (Run_at _ _ w (Run_getCommitCount username monitoringDays config))
    as (_ & _ & _ & Hagg).
  rewrite Hrun in Hagg. cbn [fst snd aggregationRun] in Hagg.
  destruct Hagg as (ownedEvents & orgEvents & _ & Howned & Horg & Hsum & Hcommits & _). lia.
Qed.

(** C1 (as amended). The events of a run of [getCommitCount] that
    returns are those of the owned pass followed by those of the
    organization pass; the latter begin with the request for the
    organizations of the user, and there are none when organizations are
    not included. The owned pass asks nothing about organizations and
    queries the commit history of at most 20 repositories, all of the
    user; the organization pass queries the commit history of at most
    [20 - sources.owned] repositories, of organizations that are not
    excluded; hence at most [40 - sources.owned] repositories are queried
    in all. A run that raises queried none. *)
Theorem getCommitCount_queries username monitoringDays config w :
  let run := getCommitCount username monitoringDays config w in
  let new := newEvents w (snd run) in
  (forall result,
     fst run = Ok result ->
     exists ownedEvents orgEvents,
       new = ownedEvents ++ orgEvents
       /\ Forall ownedPassEvent ownedEvents
       /\ orgPassEvents username config orgEvents
       /\ (includeOrgRepos config = false -> orgEvents = [])
       /\ (length (queriedRepos ownedEvents) <= 20)%nat
       /\ Forall (fun repo => fst repo = username) (queriedRepos ownedEvents)
       /\ Z.of_nat (length (queriedRepos orgEvents)) <= 20 - owned (sources result)
       /\ Forall (fun repo => includes (excludeOrgs config) (fst repo) = false)
            (queriedRepos orgEvents)
       /\ Z.of_nat (length (queriedRepos new)) <= 40 - owned (sources result))
  /\ (length (queriedRepos new) <= 40)%nat
  /\ (forall e, fst run = Throw e -> queriedRepos new = []).
Proof.
  intros run new.
  destruct (Run_at _ _ w (Run_getCommitCount username monitoringDays config))
    as (_ & _ & _ & Hagg).
  fold run in Hagg. fold new in Hagg. unfold aggregationRun in Hagg.
  destruct (fst run) as [result|e].
  - destruct Hagg as (ownedEvents & orgEvents & Hnew & Ho & Hg & Hsum & Hc & Howned & Horg & Hoff
                      & ownedTargets & orgTargets & Hl1 & Hu & Hp1 & Hl2 & Hx & Hp2).
    pose proof (queriedRepos_bound _ _ Hp1) as Hq1.
    pose proof (queriedRepos_bound _ _ Hp2) as Hq2.
    assert (Hall : providerOnly (ownedTargets ++ orgTargets) new).
    { rewrite Hnew. apply providerOnly_app.
      - eapply providerOnly_mono; [|exact Hp1]. apply incl_appl, incl_refl.
      - eapply providerOnly_mono; [|exact Hp2]. apply incl_appr, incl_refl. }
    pose proof (queriedRepos_bound _ _ Hall) as Hq. rewrite length_app in Hq.
    split; [|split; [lia | discriminate]].
    intros result' [= <-]. exists ownedEvents, orgEvents.
    repeat split; try assumption; try lia.
    + apply Forall_forall. intros repo Hin. rewrite Forall_forall in Hu.
      apply Hu, list_elem_of_In, (queriedRepos_incl _ _ Hp1), list_elem_of_In, Hin.
    + apply Forall_forall. intros repo Hin. rewrite Forall_forall in Hx.
      apply Hx, list_elem_of_In, (queriedRepos_incl _ _ Hp2), list_elem_of_In, Hin.
  - destruct Hagg as [Hagg _].
    pose proof (queriedRepos_bound _ _ Hagg) as Hq. cbn [length] in Hq.
    assert (Hnone : queriedRepos new = [])
      by (destruct (queriedRepos new); [reflexivity | cbn in Hq; lia]).
    split; [discriminate|]. split; [rewrite Hnone; cbn; lia | intros _ _; exact Hnone].
Qed.

(** The bound on the run against the provider of [idleNetwork], where
    no repository contributes. *)
Lemma getCommitCount_queries_witness :
  let run := getCommitCount "octocat" 14 orgConfig (emptyWorld idleNetwork 0) in
  exists ownedEvents orgEvents,
    newEvents (emptyWorld idleNetwork 0) (snd run) = ownedEvents ++ orgEvents
    /\ Forall ownedPassEvent ownedEvents
    /\ orgPassEvents "octocat" orgConfig orgEvents
    /\ (length (queriedRepos ownedEvents) <= 20)%nat
    /\ Z.of_nat (length (queriedRepos orgEvents))
       <= 20 - owned (sources (mkCommitCount 0 (mkSources 0 0))).
Proof.
  destruct (getCommitCount_queries "octocat" 14 orgConfig (emptyWorld idleNetwork 0))
    as (Hreturned & _).
  destruct (Hreturned (mkCommitCount 0 (mkSources 0 0)))
    as (ownedEvents & orgEvents & Hnew & Howned & Horg & _ & Hq1 & _ & Hq2 & _).
  - vm_compute. reflexivity.
  - exists ownedEvents, orgEvents. auto.
Defined.

(** C1 (as stated, refuted). With twenty owned repositories and twenty
    organization repositories that hold no commit of the user, no
    repository contributes, the counter of processed repositories stays
    at 0, and the commit history of all forty repositories is queried. *)
Lemma getCommitCount_queries_counterexample :
  let run := getCommitCount "octocat" 14 orgConfig (emptyWorld idleNetwork 0) in
  fst run = Ok (mkCommitCount 0 (mkSources 0 0))
  /\ length (queriedRepos (trace (snd run))) = 40%nat
  /\ ~ (length (queriedRepos (trace (snd run))) <= 20)%nat.
Proof.
  assert (H : let run := getCommitCount "octocat" 14 orgConfig (emptyWorld idleNetwork 0) in
              fst run = Ok (mkCommitCount 0 (mkSources 0 0))
              /\ length (queriedRepos (trace (snd run))) = 40%nat)
    by (vm_compute; split; reflexivity).
  cbv zeta in *. destruct H as [H1 H2]. rewrite H2.
  split; [exact H1|]. split; [reflexivity | lia].
Qed.

(** The bounds on the run against the provider of [smallNetwork]: two
    commits from one contributing repository. *)
Lemma getCommitCount_result_bounds_witness :
  getCommitCount "octocat" 14 humanConfig (emptyWorld smallNetwork 0)
  = (Ok (mkCommitCount 2 (mkSources 1 0)),
     snd (getCommitCount "octocat" 14 humanConfig (emptyWorld smallNetwork 0)))
  /\ owned (sources (mkCommitCount 2 (mkSources 1 0))) >= 0
  /\ org (sources (mkCommitCount 2 (mkSources 1 0))) >= 0
  /\ owned (sources (mkCommitCount 2 (mkSources 1 0)))
     + org (sources (mkCommitCount 2 (mkSources 1 0))) <= 20
  /\ commits (mkCommitCount 2 (mkSources 1 0))
     >= owned (sources (mkCommitCount 2 (mkSources 1 0)))
        + org (sources (mkCommitCount 2 (mkSources 1 0))).
Proof.
  split; [reflexivity|].
  apply (getCommitCount_result_bounds "octocat" 14 humanConfig (emptyWorld smallNetwork 0)
           (mkCommitCount 2 (mkSources 1 0))
           (snd (getCommitCount "octocat" 14 humanConfig (emptyWorld smallNetwork 0)))).
  reflexivity.
Defined.

(** ** Cache controller *)

Lemma newEvents_app w w' new : trace w' = trace w ++ new -> newEvents w w' = new.
Proof. intros H. unfold newEvents. rewrite H. apply drop_app_length. Qed.

Lemma isBotAccount_truthy u : isBotAccount (Some u) None None = true -> truthy (Some u) = true.
Proof.
  unfold isBotAccount. cbn [truthy]. destruct (String.eqb u ""); cbn; [discriminate | reflexivity].
Qed.

(** C8. When the login of the monitored identity alone matches the bot
    check: on the cold-start path, with no snapshot in the store, the
    request is answered by the rejection "Bot users are not supported"
    with status 400, no call to the provider is made and the store is not
    written; a background revalidation returns after a log line, with no
    call to the provider and no write, so the store keeps the snapshot it
    had. *)
Theorem bot_identity_rejected config styleQuery w :
  isBotAccount (Some (username config)) None None = true ->
  (kv w !! cacheKeyOf config = None ->
     let run := badge config styleQuery w in
     fst run = Ok (TextResponse "Bot users are not supported" 400)
     /\ trace (snd run) = trace w ++ [EvKVGet (cacheKeyOf config)]
     /\ kv (snd run) = kv w
     /\ fetches (snd run) = fetches w)
  /\ (forall cacheKey,
        let run := updateCacheInBackground config cacheKey w in
        fst run = Ok tt
        /\ trace (snd run) = trace w ++ [EvConsole ErrorLevel "Bot users are not supported"]
        /\ kv (snd run) = kv w
        /\ fetches (snd run) = fetches w).
Proof.
  intros Hbot. split.
  - intros Habsent. unfold badge. rewrite (isBotAccount_truthy _ Hbot). cbn [negb].
    unfold try_catch, bind, kvGet. rewrite Habsent, Hbot. cbn. auto.
  - intros cacheKey. unfold updateCacheInBackground. rewrite Hbot.
    unfold try_catch, bind, console, emit, ret. cbn. auto.
Qed.

(** The rejection for the identity "dependabot[bot]" with an empty
    store. *)
Lemma bot_identity_rejected_witness :
  (let run := badge botConfig None (emptyWorld silentNetwork 0) in
   fst run = Ok (TextResponse "Bot users are not supported" 400)
   /\ trace (snd run) = [EvKVGet (cacheKeyOf botConfig)]
   /\ kv (snd run) = ∅
   /\ fetches (snd run) = 0%nat)
  /\ (let run := updateCacheInBackground botConfig (cacheKeyOf botConfig)
                   (emptyWorld silentNetwork 0) in
      fst run = Ok tt
      /\ trace (snd run) = [EvConsole ErrorLevel "Bot users are not supported"]
      /\ kv (snd run) = ∅
      /\ fetches (snd run) = 0%nat).
Proof.
  destruct (bot_identity_rejected botConfig None (emptyWorld silentNetwork 0) eq_refl)
    as [Hcold Hbackground].
  split.
  - apply Hcold. reflexivity.
  - apply (Hbackground (cacheKeyOf botConfig)).
Defined.

(** The handler on each state of the cache. *)
Lemma badge_absent_returned config styleQuery w result w2 :
  truthy (Some (username config)) = true ->
  kv w !! cacheKeyOf config = None ->
  isBotAccount (Some (username config)) None None = false ->
  getCommitCount (username config) (monitoringDays config) config
    (afterGet w (cacheKeyOf config)) = (Ok result, w2) ->
  badge config styleQuery w
  = (Ok (badgeResponse config styleQuery (snapshotOf config result (clock w2))),
     mkWorld (clock w2) (network w2) (fetches w2)
       (<[cacheKeyOf config := snapshotOf config result (clock w2)]> (kv w2))
       (trace w2 ++ [EvKVPut (cacheKeyOf config) (snapshotOf config result (clock w2))
                       (cacheTTL config)])).
Proof.
  intros Hconfigured Habsent Hhuman Hagg. unfold badge. rewrite Hconfigured. cbn [negb].
  unfold try_catch, bind at 1, kvGet. fold (afterGet w (cacheKeyOf config)).
  rewrite Habsent, Hhuman. unfold bind at 1. unfold bind at 1. rewrite Hagg. reflexivity.
Qed.

Lemma badge_absent_raised config styleQuery w e w2 :
  truthy (Some (username config)) = true ->
  kv w !! cacheKeyOf config = None ->
  isBotAccount (Some (username config)) None None = false ->
  getCommitCount (username config) (monitoringDays config) config
    (afterGet w (cacheKeyOf config)) = (Throw e, w2) ->
  badge config styleQuery w
  = (Ok (TextResponse "Error generating badge" 500),
     mkWorld (clock w2) (network w2) (fetches w2) (kv w2)
       (trace w2 ++ [EvConsole ErrorLevel "Error generating badge:"])).
Proof.
  intros Hconfigured Habsent Hhuman Hagg. unfold badge. rewrite Hconfigured. cbn [negb].
  unfold try_catch, bind at 1, kvGet. fold (afterGet w (cacheKeyOf config)).
  rewrite Habsent, Hhuman. unfold bind at 1. unfold bind at 1. rewrite Hagg. reflexivity.
Qed.

(** A call of [fetch] is the start of its request followed by the
    await of its answer, and an iteration of the client is that call
    followed by the rest of the iteration. *)
Lemma fetch_started {A} (api : Api A) url options w :
  fetch api url options w
  = (call <- startFetch url options ;; awaitFetch api call url options) w.
Proof. reflexivity. Qed.

Lemma fetchLoop_S {A} (api : Api A) url options maxRetries initialDelay budget i lastError :
  fetchLoop api url options maxRetries initialDelay (S budget) i lastError
  = (outcome <- fetch api url options ;;
     fetchLoopFrom api url options maxRetries initialDelay budget i lastError outcome).
Proof. reflexivity. Qed.

(** [getCommitCount] is its first steps, up to the call of [fetch] for
    the listing, followed by its resumption at the first [await]. *)
Lemma getCommitCount_resumed username monitoringDays config w :
  getCommitCount username monitoringDays config w
  = (now <- newDate ;;
     call <- startFetch (UserRepos username) (getGithubHeaders (githubToken config)) ;;
     resumeCommitCount username config (sinceDate now monitoringDays) call) w.
Proof. reflexivity. Qed.

(** The start of the task. *)
Lemma startTask_bot config cacheKey w :
  isBotAccount (Some (username config)) None None = true ->
  startTask config cacheKey w
  = (Ok (mkTask config cacheKey Settled),
     mkWorld (clock w) (network w) (fetches w) (kv w)
       (trace w ++ [EvConsole ErrorLevel "Bot users are not supported"])).
Proof. intros Hbot. unfold startTask. rewrite Hbot. reflexivity. Qed.

Lemma startTask_human config cacheKey w :
  isBotAccount (Some (username config)) None None = false ->
  startTask config cacheKey w
  = (Ok (mkTask config cacheKey
           (AwaitingListing (sinceDate (clock w) (monitoringDays config)) (fetches w))),
     afterFetch w (UserRepos (username config)) (getGithubHeaders (githubToken config))).
Proof. intros Hhuman. unfold startTask. rewrite Hhuman. reflexivity. Qed.

(** The background revalidation is the start of its task followed by
    the run of the task. *)
Lemma updateCacheInBackground_resumed config cacheKey w :
  updateCacheInBackground config cacheKey w
  = (task <- startTask config cacheKey ;; runBackgroundTask task) w.
Proof.
  unfold updateCacheInBackground, startTask.
  destruct (isBotAccount (Some (username config)) None None); reflexivity.
Qed.

(** The handler on a snapshot that is fresh, and on one that is stale. *)
Lemma badge_fresh config styleQuery w cached :
  truthy (Some (username config)) = true ->
  kv w !! cacheKeyOf config = Some cached ->
  shouldUpdateCache (clock w) (lastUpdated cached) (jstUpdateHour config) = false ->
  badge config styleQuery w
  = (Ok (badgeResponse config styleQuery cached), afterGet w (cacheKeyOf config)).
Proof.
  intros Hconfigured Hcached Hfresh. unfold badge. rewrite Hconfigured. cbn [negb].
  unfold try_catch, bind at 1, kvGet. rewrite Hcached.
  unfold bind at 1. unfold bind at 1. unfold newDate. cbn [clock]. rewrite Hfresh. reflexivity.
Qed.

Lemma badge_stale config styleQuery w cached task w1 :
  truthy (Some (username config)) = true ->
  kv w !! cacheKeyOf config = Some cached ->
  shouldUpdateCache (clock w) (lastUpdated cached) (jstUpdateHour config) = true ->
  startTask config (cacheKeyOf config) (afterGet w (cacheKeyOf config)) = (Ok task, w1) ->
  badge config styleQuery w
  = (Ok (badgeResponse config styleQuery cached),
     mkWorld (clock w1) (network w1) (fetches w1) (kv w1) (trace w1 ++ [EvWaitUntil task])).
Proof.
  intros Hconfigured Hcached Hstale Hstart. unfold badge. rewrite Hconfigured. cbn [negb].
  unfold try_catch, bind at 1, kvGet. rewrite Hcached. fold (afterGet w (cacheKeyOf config)).
  unfold bind at 1. unfold bind at 1. unfold newDate.
  change (clock (afterGet w (cacheKeyOf config))) with (clock w). rewrite Hstale.
  unfold bind at 1. unfold bind at 1. rewrite Hstart. reflexivity.
Qed.

Lemma badge_stale_bot config styleQuery w cached :
  truthy (Some (username config)) = true ->
  kv w !! cacheKeyOf config = Some cached ->
  shouldUpdateCache (clock w) (lastUpdated cached) (jstUpdateHour config) = true ->
  isBotAccount (Some (username config)) None None = true ->
  badge config styleQuery w
  = (Ok (badgeResponse config styleQuery cached),
     mkWorld (clock w) (network w) (fetches w) (kv w)
       (trace w ++ [EvKVGet (cacheKeyOf config);
                    EvConsole ErrorLevel "Bot users are not supported";
                    EvWaitUntil (mkTask config (cacheKeyOf config) Settled)])).
Proof.
  intros Hconfigured Hcached Hstale Hbot.
  rewrite (badge_stale config styleQuery w cached _ _ Hconfigured Hcached Hstale
             (startTask_bot config _ _ Hbot)).
  cbn [clock network fetches kv trace afterGet]. rewrite <- !app_assoc. reflexivity.
Qed.

Lemma badge_stale_human config styleQuery w cached :
  truthy (Some (username config)) = true ->
  kv w !! cacheKeyOf config = Some cached ->
  shouldUpdateCache (clock w) (lastUpdated cached) (jstUpdateHour config) = true ->
  isBotAccount (Some (username config)) None None = false ->
  badge config styleQuery w
  = (Ok (badgeResponse config styleQuery cached),
     mkWorld (clock w) (network w) (S (fetches w)) (kv w)
       (trace w ++ [EvKVGet (cacheKeyOf config);
                    EvFetch (UserRepos (username config))
                      (getGithubHeaders (githubToken config));
                    EvWaitUntil
                      (mkTask config (cacheKeyOf config)
                         (AwaitingListing (sinceDate (clock w) (monitoringDays config))
                            (fetches w)))])).
Proof.
  intros Hconfigured Hcached Hstale Hhuman.
  rewrite (badge_stale config styleQuery w cached _ _ Hconfigured Hcached Hstale
             (startTask_human config _ _ Hhuman)).
  cbn [clock network fetches kv trace afterGet afterFetch]. rewrite <- !app_assoc. reflexivity.
Qed.

(** What every request that finds a snapshot does: it serves it, leaves
    the clock, the provider and the store as they are, and writes
    nothing. *)
Lemma badge_present config styleQuery w cached :
  truthy (Some (username config)) = true ->
  kv w !! cacheKeyOf config = Some cached ->
  exists calls events,
    badge config styleQuery w
    = (Ok (badgeResponse config styleQuery cached),
       mkWorld (clock w) (network w) calls (kv w)
         (trace w ++ EvKVGet (cacheKeyOf config) :: events))
    /\ storeWrites (EvKVGet (cacheKeyOf config) :: events) = [].
Proof.
  intros Hconfigured Hcached.
  destruct (shouldUpdateCache (clock w) (lastUpdated cached) (jstUpdateHour config)) eqn:Hstale;
    [destruct (isBotAccount (Some (username config)) None None) eqn:Hbot|].
  - rewrite (badge_stale_bot config styleQuery w cached Hconfigured Hcached Hstale Hbot).
    eexists _, _. split; reflexivity.
  - rewrite (badge_stale_human config styleQuery w cached Hconfigured Hcached Hstale Hbot).
    eexists _, _. split; reflexivity.
  - rewrite (badge_fresh config styleQuery w cached Hconfigured Hcached Hstale).
    exists (fetches w), []. split; reflexivity.
Qed.

Lemma storeWrites_providerOnly repos events :
  providerOnly repos events -> storeWrites events = [].
Proof.
  induction 1 as [|ev events Hev _ IH]; [reflexivity|].
  cbn [storeWrites List.filter]. destruct ev as [[]| | | | |]; cbn in Hev; try contradiction; exact IH.
Qed.

(** C5 (as amended). On the /badge route, for a configured identity.
    With no snapshot in the store and an identity that passes the bot
    check, the aggregation runs inside the request: when it returns a
    result, its events precede the write of the new snapshot, which is in
    the store when the response is produced, and the response carries the
    new snapshot; when it raises, the response is the error 500 and the
    store is left as it was. With a snapshot that is fresh, the snapshot
    is served with no call to the provider and no write. With a snapshot
    that is stale, the stored values are served in the response of the
    request that calls [updateCacheInBackground] and hands it to
    [waitUntil]: inside the request that call runs up to its first
    [await], which is the bot check and, for an identity that passes it,
    the request for the listing of the repositories of the user; nothing
    is written, and the task handed over is the rest of the call. *)
Theorem badge_cache_controller config styleQuery w :
  truthy (Some (username config)) = true ->
  let key := cacheKeyOf config in
  let run := badge config styleQuery w in
  (kv w !! key = None ->
   isBotAccount (Some (username config)) None None = false ->
   let aggregation :=
     getCommitCount (username config) (monitoringDays config) config (afterGet w key) in
   (forall result,
       fst aggregation = Ok result ->
       let data := snapshotOf config result (clock (snd aggregation)) in
       fst run = Ok (badgeResponse config styleQuery data)
       /\ trace (snd run)
          = trace w ++ [EvKVGet key] ++ newEvents (afterGet w key) (snd aggregation)
              ++ [EvKVPut key data (cacheTTL config)]
       /\ kv (snd run) = <[key := data]> (kv w)
       /\ kv (snd run) !! key = Some data)
   /\ (forall e,
         fst aggregation = Throw e ->
         fst run = Ok (TextResponse "Error generating badge" 500)
         /\ kv (snd run) = kv w
         /\ storeWrites (newEvents w (snd run)) = []))
  /\ (forall cached,
        kv w !! key = Some cached ->
        shouldUpdateCache (clock w) (lastUpdated cached) (jstUpdateHour config) = false ->
        fst run = Ok (badgeResponse config styleQuery cached)
        /\ trace (snd run) = trace w ++ [EvKVGet key]
        /\ kv (snd run) = kv w
        /\ fetches (snd run) = fetches w)
  /\ (forall cached,
        kv w !! key = Some cached ->
        shouldUpdateCache (clock w) (lastUpdated cached) (jstUpdateHour config) = true ->
        let started := startTask config key (afterGet w key) in
        exists task,
          fst started = Ok task
          /\ fst run = Ok (badgeResponse config styleQuery cached)
          /\ trace (snd run) = trace (snd started) ++ [EvWaitUntil task]
          /\ kv (snd run) = kv w
          /\ storeWrites (newEvents w (snd run)) = []
          /\ (isBotAccount (Some (username config)) None None = true ->
              newEvents w (snd run)
              = [EvKVGet key; EvConsole ErrorLevel "Bot users are not supported";
                 EvWaitUntil task]
              /\ task_state task = Settled)
          /\ (isBotAccount (Some (username config)) None None = false ->
              newEvents w (snd run)
              = [EvKVGet key;
                 EvFetch (UserRepos (username config)) (getGithubHeaders (githubToken config));
                 EvWaitUntil task]
              /\ task_state task
                 = AwaitingListing (sinceDate (clock w) (monitoringDays config)) (fetches w))
          /\ runBackgroundTask task (snd started)
             = updateCacheInBackground config key (afterGet w key)).
Proof.
  intros Hconfigured key run. split; [|split].
  - intros Habsent Hhuman aggregation.
    destruct (Run_at _ _ (afterGet w key)
                (Run_getCommitCount (username config) (monitoringDays config) config))
      as (Htrace & _ & Hkv & Hagg).
    fold aggregation in Htrace, Hkv, Hagg.
    destruct aggregation as [[result|e] w2] eqn:Haggregation; cbn [fst snd] in *.
    + split; [|intros e [=]]. intros result' [= <-]. subst run.
      rewrite (badge_absent_returned config styleQuery w result w2 Hconfigured Habsent Hhuman
                 Haggregation).
      cbn [fst snd trace kv]. fold key.
      rewrite Htrace, Hkv. cbn [afterGet trace kv]. rewrite <- !app_assoc.
      repeat split. apply lookup_insert_eq.
    + split; [intros result [=]|]. intros e' _. subst run.
      rewrite (badge_absent_raised config styleQuery w e w2 Hconfigured Habsent Hhuman
                 Haggregation).
      cbn [fst snd trace kv]. rewrite Htrace, Hkv. cbn [afterGet trace kv].
      cbn [aggregationRun] in Hagg.
      set (new := newEvents (afterGet w key) w2) in *.
      repeat split. unfold newEvents. cbn [trace].
      rewrite <- !app_assoc, drop_app_length.
      unfold storeWrites. rewrite !List.filter_app. fold (storeWrites new).
      rewrite (storeWrites_providerOnly [] _ (proj1 Hagg)). reflexivity.
  - intros cached Hcached Hfresh. subst run.
    rewrite (badge_fresh config styleQuery w cached Hconfigured Hcached Hfresh).
    cbn. auto.
  - intros cached Hcached Hstale started. subst run started.
    rewrite (updateCacheInBackground_resumed config key (afterGet w key)). unfold bind at 1.
    destruct (isBotAccount (Some (username config)) None None) eqn:Hbot.
    + rewrite (badge_stale_bot config styleQuery w cached Hconfigured Hcached Hstale Hbot).
      rewrite (startTask_bot config key _ Hbot). fold key.
      eexists. split; [reflexivity|]. cbn [fst snd trace kv afterGet].
      erewrite newEvents_app by reflexivity.
      rewrite <- !app_assoc. repeat split; discriminate.
    + rewrite (badge_stale_human config styleQuery w cached Hconfigured Hcached Hstale Hbot).
      rewrite (startTask_human config key _ Hbot). fold key.
      eexists. split; [reflexivity|]. cbn [fst snd trace kv afterGet afterFetch clock fetches].
      erewrite newEvents_app by reflexivity.
      rewrite <- !app_assoc. repeat split; discriminate.
Qed.

(** The three states of the cache on concrete worlds: an empty store in
    front of the provider of [smallNetwork]; a snapshot read one second
    after it was taken; the same snapshot read two days later. *)
Lemma badge_cache_controller_witness :
  (let run := badge humanConfig None (emptyWorld smallNetwork 0) in
   let data := mkCacheData 2 inactive 0 (mkSources 1 0) in
   fst run = Ok (badgeResponse humanConfig None data)
   /\ kv (snd run) !! cacheKeyOf humanConfig = Some data)
  /\ (let run := badge humanConfig None (cachedWorld 1000) in
      fst run = Ok (badgeResponse humanConfig None oldSnapshot)
      /\ trace (snd run) = [EvKVGet (cacheKeyOf humanConfig)]
      /\ fetches (snd run) = 0%nat)
  /\ (let run := badge humanConfig None (cachedWorld (2 * msPerDay)) in
      fst run = Ok (badgeResponse humanConfig None oldSnapshot)
      /\ trace (snd run)
         = [EvKVGet (cacheKeyOf humanConfig);
            EvFetch (UserRepos "octocat") (mkInit None);
            EvWaitUntil
              (mkTask humanConfig (cacheKeyOf humanConfig)
                 (AwaitingListing (Some (- (12 * msPerDay))) 0))]
      /\ kv (snd run) !! cacheKeyOf humanConfig = Some oldSnapshot).
Proof.
  split; [|split].
  - destruct (badge_cache_controller humanConfig None (emptyWorld smallNetwork 0) eq_refl)
      as [Habsent _].
    destruct (Habsent eq_refl eq_refl) as [Hreturned _].
    specialize (Hreturned (mkCommitCount 2 (mkSources 1 0)) eq_refl).
    cbv zeta in Hreturned. destruct Hreturned as (Hresponse & _ & _ & Hstored).
    split; [exact Hresponse | exact Hstored].
  - destruct (badge_cache_controller humanConfig None (cachedWorld 1000) eq_refl)
      as (_ & Hfresh & _).
    destruct (Hfresh oldSnapshot eq_refl eq_refl) as (Hresponse & Htrace & _ & Hfetches).
    auto.
  - destruct (badge_cache_controller humanConfig None (cachedWorld (2 * msPerDay)) eq_refl)
      as (_ & _ & Hstale).
    destruct (Hstale oldSnapshot eq_refl eq_refl)
      as (task & Htask & Hresponse & Htrace & Hkv & _).
    injection Htask as <-.
    split; [exact Hresponse|]. split; [exact Htrace|]. rewrite Hkv. reflexivity.
Defined.

(** C5 (as stated, refuted). With an empty store and a provider that
    cannot be reached, the request is answered by the error 500 and no
    snapshot is in the store when the response is produced; with an empty
    store and the identity "dependabot[bot]" the request is rejected
    before any aggregation. *)
Lemma badge_absent_counterexample :
  (let w := emptyWorld silentNetwork 0 in
   let run := badge humanConfig None w in
   kv w !! cacheKeyOf humanConfig = None
   /\ fst run = Ok (TextResponse "Error generating badge" 500)
   /\ kv (snd run) !! cacheKeyOf humanConfig = None
   /\ storeWrites (trace (snd run)) = [])
  /\ (let w := emptyWorld silentNetwork 0 in
      let run := badge botConfig None w in
      kv w !! cacheKeyOf botConfig = None
      /\ fst run = Ok (TextResponse "Bot users are not supported" 400)
      /\ providerCalls (trace (snd run)) = []
      /\ kv (snd run) !! cacheKeyOf botConfig = None).
Proof. vm_compute. repeat split. Qed.

(** ** The bounds on the iterations of the batch loops

    Both loops are given as many steps as there are repositories; with a
    batch size of at least one the loop condition fails before the steps
    run out, so that more steps change nothing. *)

Lemma batchSizeOf_pos config : (0 < batchSizeOf config)%nat.
Proof. unfold batchSizeOf. destruct (truthy (githubToken config)); lia. Qed.

Lemma ownedBatches_enough_steps username config since reposToProcess batchSize extra :
  (0 < batchSize)%nat ->
  forall steps i totalCommits ownedRepos processedRepos w,
    (length reposToProcess <= i + steps)%nat ->
    ownedBatches (steps + extra) username config since reposToProcess batchSize i
      totalCommits ownedRepos processedRepos w
    = ownedBatches steps username config since reposToProcess batchSize i
        totalCommits ownedRepos processedRepos w.
Proof.
  intros Hsize. induction steps as [|steps IH];
    intros i totalCommits ownedRepos processedRepos w Hlen.
  - cbn [Nat.add]. destruct extra as [|extra]; [reflexivity|]. cbn [ownedBatches].
    destruct (Nat.ltb_spec i (length reposToProcess)); [lia | reflexivity].
  - cbn [Nat.add ownedBatches]. destruct (i <? length reposToProcess)%nat; [|reflexivity].
    unfold bind at 1 3.
    destruct (mapM (ownedBatchPromise username config since)
                (slice i (i + batchSize) reposToProcess) w) as [[results|e] w1]; [|reflexivity].
    unfold bind.
    destruct ((if (i + batchSize <? length reposToProcess)%nat
               then sleep (batchDelay config) else ret tt) w1) as [[[]|e] w2]; [|reflexivity].
    apply IH. lia.
Qed.

Lemma orgBatches_enough_steps username config since maxRepos allOrgRepos batchSize extra :
  (0 < batchSize)%nat ->
  forall steps i totalOrgCommits processedOrgRepos w,
    (length allOrgRepos <= i + steps)%nat ->
    orgBatches (steps + extra) username config since maxRepos allOrgRepos batchSize i
      totalOrgCommits processedOrgRepos w
    = orgBatches steps username config since maxRepos allOrgRepos batchSize i
        totalOrgCommits processedOrgRepos w.
Proof.
  intros Hsize. induction steps as [|steps IH];
    intros i totalOrgCommits processedOrgRepos w Hlen.
  - cbn [Nat.add]. destruct extra as [|extra]; [reflexivity|]. cbn [orgBatches].
    destruct (Nat.ltb_spec i (length allOrgRepos)); [lia | reflexivity].
  - cbn [Nat.add orgBatches].
    destruct ((i <? length allOrgRepos)%nat && (processedOrgRepos <? maxRepos)); [|reflexivity].
    unfold bind at 1 3.
    destruct (guarded (totalOrgCommits, processedOrgRepos)
                (mapM (orgBatchPromise username config since)
                   (slice i (Nat.min (i + batchSize) (length allOrgRepos)) allOrgRepos)) w)
      as [[[counters|results]|e] w1]; [reflexivity | | reflexivity].
    unfold bind.
    destruct (guarded
                (countOrgResults maxRepos results totalOrgCommits processedOrgRepos)
                (if (i + batchSize <? length allOrgRepos)%nat
                    && (snd (countOrgResults maxRepos results totalOrgCommits processedOrgRepos)
                        <? maxRepos)
                 then sleep (batchDelay config) else ret tt) w1)
      as [[[counters|[]]|e] w2]; [reflexivity | | reflexivity].
    apply IH. lia.
Qed.

(** * Further properties of the code *)

(** ** The bot check on a login alone *)

Lemma toLowerCase_app a b : toLowerCase (a +:+ b) = toLowerCase a +:+ toLowerCase b.
Proof.
  induction a as [|c a IH]; [reflexivity|].
  change (String (lower_ascii c) (toLowerCase (a +:+ b))
          = String (lower_ascii c) (toLowerCase a +:+ toLowerCase b)).
  rewrite IH. reflexivity.
Qed.

Lemma lower_ascii_idem c : lower_ascii (lower_ascii c) = lower_ascii c.
Proof. destruct c as [[] [] [] [] [] [] [] []]; reflexivity. Qed.

Lemma toLowerCase_idem s : toLowerCase (toLowerCase s) = toLowerCase s.
Proof.
  induction s as [|c s IH]; [reflexivity|].
  cbn [toLowerCase]. rewrite lower_ascii_idem, IH. reflexivity.
Qed.

Lemma char_matches_space ci a : Ascii.eqb a " " = false -> char_matches ci a " " = false.
Proof.
  destruct ci; destruct a as [[] [] [] [] [] [] [] []]; intros H;
    try reflexivity; discriminate H.
Qed.

(** A match of a literal survives the extension of the input. *)
Lemma match_here_app ci p : forall s t rest,
  match_here ci p s = Some rest -> match_here ci p (s +:+ t) = Some (rest +:+ t).
Proof.
  induction p as [|a p IH]; intros s t rest; cbn [match_here].
  - intros [= ->]. reflexivity.
  - destruct s as [|b s]; [discriminate|].
    change (String b s +:+ t) with (String b (s +:+ t)). cbn [match_here].
    destruct (char_matches ci a b); [apply IH | discriminate].
Qed.

(** Two spaces after the input give a literal without spaces no new
    match, and leave something after every match. *)
Lemma match_here_spaces ci p : no_space p = true -> forall s,
  match_here ci p s = None -> match_here ci p (s +:+ "  ") = None.
Proof.
  induction p as [|a p IH]; intros Hp s; cbn [match_here]; [discriminate|].
  cbn [no_space] in Hp. apply andb_prop in Hp as [Ha Hp]. apply negb_true_iff in Ha.
  destruct s as [|b s].
  - intros _. change ("" +:+ "  ") with "  ". cbn [match_here].
    rewrite (char_matches_space ci a Ha). reflexivity.
  - change (String b s +:+ "  ") with (String b (s +:+ "  ")). cbn [match_here].
    destruct (char_matches ci a b); [apply (IH Hp) | reflexivity].
Qed.

Lemma match_here_spaces_rest ci p : no_space p = true -> forall s rest,
  match_here ci p (s +:+ "  ") = Some rest -> rest <> "".
Proof.
  induction p as [|a p IH]; intros Hp s rest; cbn [match_here].
  - intros [= <-]. destruct s; discriminate.
  - cbn [no_space] in Hp. apply andb_prop in Hp as [Ha Hp]. apply negb_true_iff in Ha.
    destruct s as [|b s].
    + change ("" +:+ "  ") with "  ". cbn [match_here].
      rewrite (char_matches_space ci a Ha). discriminate.
    + change (String b s +:+ "  ") with (String b (s +:+ "  ")). cbn [match_here].
      destruct (char_matches ci a b); [apply (IH Hp) | discriminate].
Qed.

Lemma match_at_spaces re s :
  plainPattern re = true ->
  match_at re (s +:+ "  ") = negb (anchoredEnd re) && match_at re s.
Proof.
  unfold plainPattern, match_at. intros Hre. apply andb_prop in Hre as [_ Hp].
  destruct (match_here (ignoreCase re) (source re) s) as [rest|] eqn:Hs.
  - rewrite (match_here_app _ _ _ "  " _ Hs).
    destruct (anchoredEnd re); [|reflexivity].
    destruct rest; reflexivity.
  - rewrite (match_here_spaces _ _ Hp _ Hs). rewrite andb_false_r. reflexivity.
Qed.

Lemma test_two_spaces re : plainPattern re = true -> test re "  " = false.
Proof.
  destruct re as [[|a p] anchored ci]; unfold plainPattern; cbn [source]; [discriminate|].
  cbn [String.eqb negb andb no_space]. intros Hp. apply andb_prop in Hp as [Ha _].
  apply negb_true_iff in Ha.
  cbn [test]. unfold match_at. cbn [source ignoreCase match_here].
  rewrite (char_matches_space ci a Ha). reflexivity.
Qed.

(** With two spaces after the input, a pattern anchored at the end
    cannot match and any other pattern matches as on the input itself. *)
Lemma test_spaces re : plainPattern re = true -> forall s,
  test re (s +:+ "  ") = negb (anchoredEnd re) && test re s.
Proof.
  intros Hre. induction s as [|c s IH].
  - change ("" +:+ "  ") with "  ". rewrite (test_two_spaces re Hre).
    cbn [test]. rewrite orb_false_r, <- (match_at_spaces re "" Hre).
    change ("" +:+ "  ") with "  ".
    pose proof (test_two_spaces re Hre) as H. cbn [test] in H.
    apply orb_false_elim in H as [H _]. rewrite H. reflexivity.
  - change (String c s +:+ "  ") with (String c (s +:+ "  ")). cbn [test].
    change (String c (s +:+ "  ")) with (String c s +:+ "  ").
    rewrite (match_at_spaces re (String c s) Hre), IH.
    destruct (anchoredEnd re); reflexivity.
Qed.

Lemma existsb_ext_in {A} (f g : A -> bool) (l : list A) :
  (forall x, In x l -> f x = g x) -> existsb f l = existsb g l.
Proof.
  induction l as [|x l IH]; intros H; [reflexivity|].
  cbn [existsb]. rewrite (H x (in_eq x l)), IH; [reflexivity|].
  intros y Hy. apply H. right. exact Hy.
Qed.

Lemma botIndicators_plain re : In re botIndicators -> plainPattern re = true.
Proof.
  revert re. apply forallb_forall. reflexivity.
Qed.

(** The bot check of a login alone, as the handlers call it: the test
    string ends with the two separators. *)
Lemma isBotAccount_login_test u :
  isBotAccount (Some u) None None
  = existsb (fun pattern => negb (anchoredEnd pattern) && test pattern (toLowerCase u))
      botIndicators.
Proof.
  unfold isBotAccount. cbn [truthy or_empty negb andb].
  destruct (String.eqb_spec u "") as [->|Hne]; [reflexivity|].
  cbn [negb andb].
  change (u +:+ " " +:+ "" +:+ " " +:+ "") with (u +:+ "  ").
  rewrite toLowerCase_app. change (toLowerCase "  ") with "  ".
  apply existsb_ext_in. intros re Hre. apply test_spaces, botIndicators_plain, Hre.
Qed.

(** X1. The bot check of a login alone, which guards the cold start and
    the background revalidation, answers true exactly when the lower-case
    login contains one of the vendor fragments, "bot-" or the no-reply
    address: the two patterns anchored at the end never apply, because
    the test string ends with the separators of the two missing fields. A
    login such as "my-app[bot]" or "deploy-bot" passes the guard. *)
Theorem isBotAccount_login_only u :
  (isBotAccount (Some u) None None = true <-> loginRule (toLowerCase u))
  /\ isBotAccount (Some "my-app[bot]") None None = false
  /\ isBotAccount (Some "deploy-bot") None None = false.
Proof.
  split; [|split; reflexivity].
  rewrite isBotAccount_login_test.
  unfold botIndicators, loginRule, vendorFragments, noReplyDomain.
  cbn [existsb anchoredEnd negb andb orb]. rewrite orb_false_r, !orb_true_iff.
  rewrite !test_contains by (apply no_upper_toLowerCase || reflexivity).
  split.
  - intros [H|[H|[H|[H|[H|[H|[H|[H|H]]]]]]]]; eauto 12 using in_eq, in_cons.
  - intros [(f & Hf & H)|[H|H]]; [|tauto..].
    cbn [In] in Hf.
    destruct Hf as [<-|[<-|[<-|[<-|[<-|[<-|[<-|[]]]]]]]]; tauto.
Qed.

Lemma test_app re s t :
  anchoredEnd re = false -> test re s = true -> test re (s +:+ t) = true.
Proof.
  intros Hre. induction s as [|c s IH]; cbn [test].
  - rewrite orb_false_r. unfold match_at. rewrite Hre.
    destruct (match_here (ignoreCase re) (source re) "") as [rest|] eqn:Hm; [|discriminate].
    intros _. change ("" +:+ t) with t.
    pose proof (match_here_app _ _ _ t _ Hm) as Ht. change ("" +:+ t) with t in Ht.
    destruct t as [|c t]; cbn [test]; unfold match_at; rewrite Ht, Hre; reflexivity.
  - change (String c s +:+ t) with (String c (s +:+ t)). cbn [test].
    intros H. apply orb_true_iff in H as [H|H].
    + unfold match_at in *. rewrite Hre in *.
      destruct (match_here (ignoreCase re) (source re) (String c s)) as [rest|] eqn:Hm;
        [|discriminate].
      pose proof (match_here_app _ _ _ t _ Hm) as Ht.
      change (String c s +:+ t) with (String c (s +:+ t)) in Ht. rewrite Ht. reflexivity.
    + rewrite (IH H). apply orb_true_r.
Qed.

(** A login that the bot check rejects alone is rejected with any name
    and any email beside it. *)
Lemma isBotAccount_login_mono u name email :
  isBotAccount (Some u) None None = true -> isBotAccount (Some u) name email = true.
Proof.
  intros Hbot. pose proof (isBotAccount_truthy u Hbot) as Hu.
  rewrite isBotAccount_login_test in Hbot.
  apply existsb_exists in Hbot as (re & Hin & Hre). apply andb_prop in Hre as [Hanch Hre].
  apply negb_true_iff in Hanch.
  unfold isBotAccount. rewrite Hu. cbn [negb andb].
  apply existsb_exists. exists re. split; [exact Hin|].
  cbn [or_empty]. rewrite toLowerCase_app. apply test_app; assumption.
Qed.

Lemma isUserCommit_bot_login u commit :
  isBotAccount (Some u) None None = true -> isUserCommit u commit = false.
Proof.
  intros Hbot. unfold isUserCommit.
  destruct (strict_eq (author commit) u) eqn:Heq; [|apply andb_false_r].
  destruct (author commit) as [l|]; [|discriminate Heq]. cbn [strict_eq] in Heq.
  apply String.eqb_eq in Heq. subst l.
  rewrite (isBotAccount_login_mono u _ _ Hbot). reflexivity.
Qed.

(** The list that [filterCommits] returns. *)
Lemma filterCommits_returned username : forall entries w userCommits w',
  filterCommits username entries w = (Ok userCommits, w') ->
  exists commits,
    entries = map Some commits /\ userCommits = List.filter (isUserCommit username) commits.
Proof.
  induction entries as [|[c|] entries IH]; intros w userCommits w'; cbn [filterCommits].
  - intros [= <- _]. exists []. split; reflexivity.
  - unfold bind.
    destruct (filterCommits username entries w) as [[rest|e] w1] eqn:Hrest; [|discriminate].
    intros [= <- _]. destruct (IH w rest w1 Hrest) as (commits & -> & ->).
    exists (c :: commits). split; reflexivity.
  - discriminate.
Qed.

(** The count of [getRepoCommits] is zero or the number of commits of a
    well-formed list that pass the filter. *)
Lemma getRepoCommits_count username repoOwner repoName since token w :
  exists n,
    fst (getRepoCommits username repoOwner repoName since token w) = Ok n
    /\ (n = 0
        \/ exists commits : list GitHubCommit,
             n = Z.of_nat (length (List.filter (isUserCommit username) commits))).
Proof.
  destruct since as [since|]; [|exists 0; split; [reflexivity | left; reflexivity]].
  enter_getRepoCommits since w.
  destruct (fetchWithRetry commitsApi (RepoCommits repoOwner repoName username since)
              (getGithubHeaders token) 3 500 w) as [[r|e] w1].
  - destruct (ok r).
    + unfold json. destruct (body r) as [[| |entries]|].
      * exists 0. split; [reflexivity | left; reflexivity].
      * exists 0. split; [reflexivity | left; reflexivity].
      * unfold bind at 1. unfold ret at 1. cbn [asArray]. unfold bind at 1. unfold ret at 1.
        unfold bind at 1.
        destruct (filterCommits username entries w1) as [[userCommits|e] w2] eqn:Hf.
        -- destruct (filterCommits_returned _ _ _ _ _ Hf) as (commits & _ & ->).
           eexists. split; [reflexivity|]. right. exists commits. reflexivity.
        -- exists 0. split; [reflexivity | left; reflexivity].
      * exists 0. split; [reflexivity | left; reflexivity].
    + exists 0. split; [reflexivity | left; reflexivity].
  - exists 0. split; [reflexivity | left; reflexivity].
Qed.

Lemma filter_none {A} (f : A -> bool) (l : list A) :
  (forall x, f x = false) -> List.filter f l = [].
Proof.
  intros H. induction l as [|x l IH]; [reflexivity|].
  cbn [List.filter]. rewrite (H x). exact IH.
Qed.

(** X2. The guard of the handlers agrees with the filter of the commit
    counter: when the bot check rejects a login alone, it rejects the
    login with any name and email beside it, so every commit of that
    login is filtered out and [getRepoCommits] returns zero for it on
    every repository and in every state of the provider. *)
Theorem bot_login_counts_nothing u :
  isBotAccount (Some u) None None = true ->
  (forall name email, isBotAccount (Some u) name email = true)
  /\ (forall commit, isUserCommit u commit = false)
  /\ (forall repoOwner repoName since token w,
        fst (getRepoCommits u repoOwner repoName since token w) = Ok 0).
Proof.
  intros Hbot. split; [|split].
  - intros name email. apply isBotAccount_login_mono, Hbot.
  - intros commit. apply isUserCommit_bot_login, Hbot.
  - intros repoOwner repoName since token w.
    destruct (getRepoCommits_count u repoOwner repoName since token w)
      as (n & Hrun & [->|(commits & ->)]); [exact Hrun|].
    rewrite Hrun, filter_none; [reflexivity|].
    intros commit. apply isUserCommit_bot_login, Hbot.
Qed.

Lemma bot_login_counts_nothing_witness :
  isBotAccount (Some "renovate-runner") (Some "Renovate") (Some "bot@example.org") = true
  /\ fst (getRepoCommits "renovate-runner" "octocat" "app" (Some 0) None
            (emptyWorld smallNetwork 0))
     = Ok 0.
Proof.
  destruct (bot_login_counts_nothing "renovate-runner" eq_refl) as (Hid & _ & Hcount).
  split; [apply Hid | apply Hcount].
Defined.

Lemma truthy_toLowerCase o : truthy (option_map toLowerCase o) = truthy o.
Proof.
  destruct o as [[|c s]|]; reflexivity.
Qed.

Lemma or_empty_toLowerCase o :
  toLowerCase (or_empty (option_map toLowerCase o)) = toLowerCase (or_empty o).
Proof. destruct o as [s|]; [apply toLowerCase_idem | reflexivity]. Qed.

(** X3. The bot check does not depend on the case of the ASCII letters
    of the three fields: the pattern of the no-reply address, the only
    one without the [i] flag, is tested on the lower-case string like the
    others. *)
Theorem isBotAccount_ignores_case login name email :
  isBotAccount (option_map toLowerCase login) (option_map toLowerCase name)
    (option_map toLowerCase email)
  = isBotAccount login name email
  /\ isBotAccount None None (Some "NoReply@GitHub.com") = true.
Proof.
  split; [|reflexivity].
  unfold isBotAccount. rewrite !truthy_toLowerCase.
  rewrite !toLowerCase_app, !or_empty_toLowerCase. reflexivity.
Qed.

(** ** Status classification and freshness policy *)

(** X4. The status never drops when the number of commits grows,
    whatever the two thresholds are; and with a healthy threshold that is
    not above the moderate one the status "moderate" is never returned. *)
Theorem getHealthStatus_monotone (commits commits' healthyThreshold moderateThreshold : Z) :
  (commits <= commits' ->
   statusRank (getHealthStatus commits healthyThreshold moderateThreshold)
   <= statusRank (getHealthStatus commits' healthyThreshold moderateThreshold))
  /\ (healthyThreshold <= moderateThreshold ->
      getHealthStatus commits healthyThreshold moderateThreshold <> moderate).
Proof.
  unfold getHealthStatus. split; intros H.
  - destruct (Z.geb_spec commits healthyThreshold), (Z.geb_spec commits' healthyThreshold),
      (Z.geb_spec commits moderateThreshold), (Z.geb_spec commits' moderateThreshold);
      cbn [statusRank]; lia.
  - destruct (Z.geb_spec commits healthyThreshold), (Z.geb_spec commits moderateThreshold);
      try discriminate; lia.
Qed.

Lemma getHealthStatus_monotone_witness :
  statusRank (getHealthStatus 4 15 5) <= statusRank (getHealthStatus 5 15 5)
  /\ getHealthStatus 7 5 5 <> moderate.
Proof.
  destruct (getHealthStatus_monotone 4 5 15 5) as [Hmono _].
  destruct (getHealthStatus_monotone 7 7 5 5) as [_ Hnever].
  split; [apply Hmono; lia | apply Hnever; lia].
Defined.

Lemma same_day_elapsed a b : b <= a -> Day a = Day b -> a - b < msPerDay.
Proof.
  unfold Day, msPerDay. intros Hle H. Z.to_euclidean_division_equations; lia.
Qed.

(** X5. A snapshot stays fresh for the rest of the UTC+9 day on which
    it was taken, whatever the refresh hour: no request of that day
    schedules a second revalidation. In particular it is fresh at the
    instant at which it is taken. *)
Theorem shouldUpdateCache_same_day now lastUpdated H :
  lastUpdated <= now -> jstDay now = jstDay lastUpdated ->
  shouldUpdateCache now lastUpdated H = false.
Proof.
  unfold jstDay. intros Hle Hday.
  destruct (shouldUpdateCache now lastUpdated H) eqn:Hstale; [|reflexivity].
  apply shouldUpdateCache_day_of_month in Hstale as [Hold|[Hdate _]].
  - pose proof (same_day_elapsed (now + 9 * msPerHour) (lastUpdated + 9 * msPerHour)
                  ltac:(lia) Hday) as Hlt.
    unfold msPerDay, msPerHour in *. lia.
  - exfalso. apply Hdate. unfold getUTCDate, DateFromTime. rewrite Hday. reflexivity.
Qed.

Lemma shouldUpdateCache_same_day_witness :
  shouldUpdateCache (jstInstant 20000 23) (jstInstant 20000 0) 8 = false
  /\ shouldUpdateCache 1700000000000 1700000000000 8 = false.
Proof.
  split.
  - apply shouldUpdateCache_same_day.
    + unfold jstInstant, msPerDay, msPerHour. lia.
    + reflexivity.
  - apply shouldUpdateCache_same_day; [lia | reflexivity].
Defined.

Lemma HourFromTime_mono a b : a <= b -> Day a = Day b -> HourFromTime a <= HourFromTime b.
Proof.
  unfold Day, HourFromTime, msPerDay, msPerHour. intros Hle H.
  Z.to_euclidean_division_equations; lia.
Qed.

Lemma Day_mono a b : a <= b -> Day a <= Day b.
Proof. unfold Day, msPerDay. intros H. Z.to_euclidean_division_equations; lia. Qed.

Lemma stale_later now now' lastUpdated H :
  lastUpdated <= now -> now <= now' ->
  shouldUpdateCache now lastUpdated H = true ->
  shouldUpdateCache now' lastUpdated H = true.
Proof.
  intros Hle Hlater Hstale.
  apply shouldUpdateCache_day_of_month in Hstale. apply shouldUpdateCache_day_of_month.
  destruct (Z_gt_dec (now' - lastUpdated) (24 * msPerHour)) as [Hold|Hrecent]; [left; exact Hold|].
  right. destruct Hstale as [Hold|[Hdate Hhour]]; [lia|].
  assert (Hwindow : forall t, lastUpdated <= t -> t - lastUpdated <= msPerDay ->
            getUTCDate (t + 9 * msPerHour) <> getUTCDate (lastUpdated + 9 * msPerHour) ->
            Day (t + 9 * msPerHour) = Day (lastUpdated + 9 * msPerHour) + 1).
  { intros t Ht1 Ht2 Hd. destruct (jst_day_window t lastUpdated Ht1 Ht2) as [Hsame|Hnext];
      [|exact Hnext].
    exfalso. apply Hd. unfold getUTCDate, DateFromTime. rewrite Hsame. reflexivity. }
  change msPerDay with (24 * msPerHour) in Hwindow.
  pose proof (Hwindow now Hle ltac:(lia) Hdate) as Hday.
  assert (Hday' : Day (now' + 9 * msPerHour) = Day (lastUpdated + 9 * msPerHour) + 1).
  { destruct (jst_day_window now' lastUpdated ltac:(lia)) as [Hsame|Hnext];
      [change msPerDay with (24 * msPerHour); lia | | exact Hnext].
    pose proof (Day_mono (now + 9 * msPerHour) (now' + 9 * msPerHour) ltac:(lia)). lia. }
  split.
  - apply (DateFromTime_next_day _ _ Hday').
  - unfold jstHour, getUTCHours in *.
    pose proof (HourFromTime_mono (now + 9 * msPerHour) (now' + 9 * msPerHour) ltac:(lia)
                  ltac:(lia)).
    lia.
Qed.

(** X6. Staleness lasts: for a snapshot that is not dated in the
    future, if it is stale at one instant it is stale at every later
    instant, and if it is fresh at one instant it was fresh at every
    earlier instant since it was taken. A request that finds the snapshot
    stale keeps finding it stale until a revalidation replaces it. *)
Theorem shouldUpdateCache_persists now now' lastUpdated H :
  lastUpdated <= now -> now <= now' ->
  (shouldUpdateCache now lastUpdated H = true ->
   shouldUpdateCache now' lastUpdated H = true)
  /\ (shouldUpdateCache now' lastUpdated H = false ->
      shouldUpdateCache now lastUpdated H = false).
Proof.
  intros Hle Hlater. split.
  - apply stale_later; assumption.
  - intros Hfresh. destruct (shouldUpdateCache now lastUpdated H) eqn:Hstale; [|reflexivity].
    rewrite (stale_later now now' lastUpdated H Hle Hlater Hstale) in Hfresh.
    discriminate Hfresh.
Qed.

Lemma shouldUpdateCache_persists_witness :
  shouldUpdateCache (jstInstant 20001 9) (jstInstant 20000 23) 8 = true
  /\ shouldUpdateCache (jstInstant 20001 22) (jstInstant 20000 23) 8 = true.
Proof.
  assert (H : shouldUpdateCache (jstInstant 20001 9) (jstInstant 20000 23) 8 = true)
    by reflexivity.
  split; [exact H|].
  apply (shouldUpdateCache_persists (jstInstant 20001 9) (jstInstant 20001 22)
           (jstInstant 20000 23) 8); [| | exact H];
    unfold jstInstant, msPerDay, msPerHour; lia.
Defined.

(** ** Cost of the fetch client *)

Lemma retryDelay_noHint {A} initialDelay attempt (o : FetchOutcome A) :
  noHint o = true -> retryDelay initialDelay attempt o = Some (backoff initialDelay attempt).
Proof.
  destruct o as [e|r]; [reflexivity|]. cbn [noHint retryDelay].
  destruct (isRateLimited r); [|reflexivity]. cbn [andb].
  destruct (retryAfter r) as [hint|]; [|reflexivity].
  cbn [truthy]. destruct (String.eqb hint ""); [reflexivity | discriminate].
Qed.

Lemma backoff_S initialDelay attempt :
  backoff initialDelay (S attempt) = 2 * backoff initialDelay attempt.
Proof.
  unfold backoff. rewrite Nat2Z.inj_succ, Z.pow_succ_r by lia. ring.
Qed.

Lemma backoff_nonneg initialDelay attempt : 0 <= initialDelay -> 0 <= backoff initialDelay attempt.
Proof. intros H. unfold backoff. apply Z.mul_nonneg_nonneg; [exact H | apply Z.pow_nonneg; lia]. Qed.

Lemma backoffTotal_S initialDelay attempt budget :
  backoffTotal initialDelay attempt (S budget)
  = backoff initialDelay attempt + backoffTotal initialDelay (S attempt) budget.
Proof.
  unfold backoffTotal. rewrite backoff_S, Nat2Z.inj_succ, Z.pow_succ_r by lia. ring.
Qed.

Lemma backoffTotal_nonneg initialDelay attempt budget :
  0 <= initialDelay -> 0 <= backoffTotal initialDelay attempt budget.
Proof.
  intros H. unfold backoffTotal. apply Z.mul_nonneg_nonneg; [apply backoff_nonneg, H|].
  pose proof (Z.pow_pos_nonneg 2 (Z.of_nat budget)). lia.
Qed.

(** The loop of [fetchWithRetry], counted: a returned response is never
    of a retried kind and costs between one call and the whole budget; a
    raised error costs the whole budget; time only moves forward, and
    without hints by no more than the sum of the backoffs, which is
    reached when the budget runs out. *)
Lemma fetchLoop_cost {A} (api : Api A) url options maxRetries initialDelay :
  forall budget i lastError w,
    let run := fetchLoop api url options maxRetries initialDelay budget i lastError w in
    (forall r, fst run = Ok r ->
       isRetryable (Responded r) = false
       /\ (fetches w < fetches (snd run) <= fetches w + budget)%nat)
    /\ (forall e, fst run = Throw e -> fetches (snd run) = (fetches w + budget)%nat)
    /\ clock w <= clock (snd run)
    /\ (0 <= initialDelay ->
        forallb noHint (answers api w url options budget) = true ->
        clock (snd run) - clock w <= backoffTotal initialDelay i budget
        /\ (forall e, fst run = Throw e ->
              clock (snd run) - clock w = backoffTotal initialDelay i budget)).
Proof.
  induction budget as [|budget IH]; intros i lastError w run.
  - subst run. cbn [fetchLoop throw fst snd]. split; [discriminate|].
    split; [intros; lia|]. split; [lia|]. intros Hd _.
    unfold backoffTotal. cbn [Z.of_nat]. rewrite Z.pow_0_r. split; [lia | intros; lia].
  - set (o := api (network w) (fetches w) url options).
    destruct (isRetryable o) eqn:Ho.
    + set (w1 := afterRetry w url options initialDelay i o).
      assert (Hrun : run = fetchLoop api url options maxRetries initialDelay budget (S i)
                             (captureError lastError o) w1)
        by (apply fetchLoop_retry; exact Ho).
      destruct (IH (S i) (captureError lastError o) w1) as (IHok & IHthrow & IHclock & IHwait).
      rewrite Hrun. clear Hrun run.
      assert (Hf : fetches w1 = S (fetches w)) by reflexivity.
      assert (Hc : clock w1 = clock w + Z.max 0 (default 0 (retryDelay initialDelay i o)))
        by reflexivity.
      split; [|split; [|split]].
      * intros r Hr. destruct (IHok r Hr) as [Hfinal Hcalls]. split; [exact Hfinal | lia].
      * intros e He. rewrite (IHthrow e He). lia.
      * lia.
      * intros Hd Hhints.
        rewrite (answers_S api w w1 url options budget eq_refl eq_refl) in Hhints.
        fold o in Hhints. cbn [forallb] in Hhints. apply andb_prop in Hhints as [Hhint Hhints].
        destruct (IHwait Hd Hhints) as [IHle IHeq].
        rewrite (retryDelay_noHint initialDelay i o Hhint) in Hc.
        change (default 0 (Some (backoff initialDelay i))) with (backoff initialDelay i) in Hc.
        pose proof (backoff_nonneg initialDelay i Hd). rewrite backoffTotal_S.
        split; [lia|]. intros e He. pose proof (IHeq e He). lia.
    + destruct o as [e|r] eqn:Hanswer; [discriminate Ho|].
      assert (Hrun : run = (Ok r, afterFetch w url options))
        by (apply fetchLoop_return; [exact Hanswer | exact Ho]).
      rewrite Hrun. clear Hrun run. cbn [fst snd afterFetch fetches clock].
      split; [|split; [discriminate|split; [lia|]]].
      * intros r' [= <-]. split; [exact Ho | lia].
      * intros Hd _. pose proof (backoffTotal_nonneg initialDelay i (S budget) Hd).
        split; [lia | discriminate].
Qed.

(** X7. What a call of [fetchWithRetry] costs and what it can return. A
    response that it returns never has status 429, 403 or 500 and above,
    and took between one and [maxRetries] calls of [fetch]; an error is
    raised after exactly [maxRetries] calls, so with a budget of zero the
    client raises without calling the provider; the clock never moves
    back. *)
Theorem fetchWithRetry_cost {A} (api : Api A) url options maxRetries initialDelay w :
  let run := fetchWithRetry api url options maxRetries initialDelay w in
  (forall r, fst run = Ok r ->
     status r <> 429 /\ status r <> 403 /\ status r < 500
     /\ (fetches w < fetches (snd run) <= fetches w + maxRetries)%nat)
  /\ (forall e, fst run = Throw e -> fetches (snd run) = (fetches w + maxRetries)%nat)
  /\ (maxRetries = O -> run = (Throw (RetriesExhausted url O), w))
  /\ clock w <= clock (snd run).
Proof.
  intros run. subst run. unfold fetchWithRetry.
  destruct (fetchLoop_cost api url options maxRetries initialDelay maxRetries 0 None w)
    as (Hok & Hthrow & Hclock & _).
  split; [|split; [exact Hthrow | split; [|exact Hclock]]].
  - intros r Hr. destruct (Hok r Hr) as [Hfinal Hcalls].
    cbn [isRetryable] in Hfinal. unfold isRateLimited in Hfinal.
    apply orb_false_elim in Hfinal as [Hlimited Hserver].
    apply orb_false_elim in Hlimited as [H429 H403].
    apply Z.eqb_neq in H429. apply Z.eqb_neq in H403.
    destruct (Z.geb_spec (status r) 500); [discriminate|]. auto.
  - intros ->. reflexivity.
Qed.

Lemma fetchWithRetry_cost_witness :
  let run := fetchWithRetry commitsApi (RepoCommits "octocat" "app" "octocat" 0) (mkInit None)
               3 500 (emptyWorld flakyNetwork 0) in
  (0 < fetches (snd run) <= 3)%nat.
Proof.
  intros run.
  destruct (fetchWithRetry_cost commitsApi (RepoCommits "octocat" "app" "octocat" 0)
              (mkInit None) 3 500 (emptyWorld flakyNetwork 0)) as (Hreturned & _).
  destruct (Hreturned (mkResponse 200 None (Some (JsonArray []))) eq_refl)
    as (_ & _ & _ & Hcalls).
  exact Hcalls.
Defined.



(** The clock never moves back during an aggregation. *)
Lemma getCommitCount_later username monitoringDays config w :
  later w (snd (getCommitCount username monitoringDays config w)).
Proof.
  apply (getCommitCount_steps (fun _ => True) later); try (intros; exact I).
  - intros w'. unfold later. lia.
  - exact later_trans.
  - intros level message w'. unfold later. cbn. lia.
  - exact later_sleep.
  - intros A api url options w' _. unfold later. cbn. lia.
Qed.

Lemma getRepoCommits_fetches username repoOwner repoName since token w :
  fetches (snd (getRepoCommits username repoOwner repoName (Some since) token w))
  = fetches (snd (fetchWithRetry commitsApi (RepoCommits repoOwner repoName username since)
                    (getGithubHeaders token) 3 500 w)).
Proof.
  enter_getRepoCommits since w.
  destruct (fetchWithRetry commitsApi (RepoCommits repoOwner repoName username since)
              (getGithubHeaders token) 3 500 w) as [[r|e] w1]; [|reflexivity].
  destruct (ok r); [|reflexivity].
  unfold json. destruct (body r) as [[| |entries]|]; [reflexivity|reflexivity| |reflexivity].
  unfold bind at 1. unfold ret at 1. cbn [asArray]. unfold bind at 1. unfold ret at 1.
  unfold bind at 1.
  destruct (filterCommits_outcome username entries w1) as [(userCommits & ->)| ->]; reflexivity.
Qed.

(** X9. What one commit-history query costs. [getRepoCommits] calls
    the provider at least once and at most three times, every call for
    the commit history of its own repository with the user as author,
    the given start of the window and the headers of the token; it
    touches nothing else: the store is as before and the clock has not
    moved back. With an invalid date as the start of the window it makes
    no call at all. *)
Theorem getRepoCommits_cost username repoOwner repoName since token w :
  let run := getRepoCommits username repoOwner repoName (Some since) token w in
  (fetches w < fetches (snd run) <= fetches w + 3)%nat
  /\ Forall (requestEvent (RepoCommits repoOwner repoName username since)
               (getGithubHeaders token))
       (newEvents w (snd run))
  /\ kv (snd run) = kv w
  /\ clock w <= clock (snd run)
  /\ providerCalls
       (newEvents w (snd (getRepoCommits username repoOwner repoName None token w))) = [].
Proof.
  intros run. subst run. split; [|split; [|split; [|split]]].
  - rewrite getRepoCommits_fetches. unfold fetchWithRetry.
    destruct (fetchLoop_cost commitsApi (RepoCommits repoOwner repoName username since)
                (getGithubHeaders token) 3 500 3 0 None w) as (Hok & Hthrow & _).
    destruct (fst (fetchLoop commitsApi (RepoCommits repoOwner repoName username since)
                     (getGithubHeaders token) 3 500 3 0 None w)) as [r|e] eqn:Hout.
    + destruct (Hok r eq_refl) as [_ Hcalls]. exact Hcalls.
    + rewrite (Hthrow e eq_refl). lia.
  - set (P := requestEvent (RepoCommits repoOwner repoName username since)
                (getGithubHeaders token)).
    apply (Steps_getRepoCommits P (gained P)).
    + exact (gained_refl P).
    + exact (gained_trans P).
    + intros level message w'. apply (gained_one P w' _ (EvConsole level message));
        [reflexivity | exact I].
    + intros ms w'. apply (gained_one P w' _ (EvSleep ms)); [reflexivity | exact I].
    + intros A api url options w' HP. apply (gained_one P w' _ (EvFetch url options));
        [reflexivity | exact HP].
    + intros start [= <-]. split; reflexivity.
  - apply (Run_at _ _ w (Run_getRepoCommits username repoOwner repoName (Some since) token)).
  - apply (Steps_getRepoCommits (fun _ => True) later); try (intros; exact I).
    + intros w'. unfold later. lia.
    + exact later_trans.
    + intros level message w'. unfold later. cbn. lia.
    + exact later_sleep.
    + intros A api url options w' _. unfold later. cbn. lia.
  - unfold newEvents. cbn. rewrite drop_app_length. reflexivity.
Qed.

(** X10. The requests of an aggregation. Every event of a run of
    [getCommitCount] is a pause, a log line or a request with the headers
    of the configured token, and every request is one of: the listing of
    the repositories of the user; when organizations are included, the
    listing of the organizations of the user and the listing of the
    repositories of an organization that is not excluded, with the
    configured page size; the commit history, with the user as author and
    the start of the monitoring window as [since], of a repository whose
    name is not excluded and whose owner is the user or, when
    organizations are included, an organization that is not excluded. The
    run never reads or writes the store. *)
Theorem getCommitCount_requests username monitoringDays config w :
  let since := sinceDate (clock w) monitoringDays in
  Forall (allowedEvent username config since)
    (newEvents w (snd (getCommitCount username monitoringDays config w))).
Proof.
  intros since. set (P := allowedEvent username config since).
  apply (getCommitCount_steps P (gained P)).
  - exact (gained_refl P).
  - exact (gained_trans P).
  - intros level message w'. apply (gained_one P w' _ (EvConsole level message));
      [reflexivity | exact I].
  - intros ms w'. apply (gained_one P w' _ (EvSleep ms)); [reflexivity | exact I].
  - intros A api url options w' HP. apply (gained_one P w' _ (EvFetch url options));
      [reflexivity | exact HP].
  - split; reflexivity.
  - intros Hinclude. split; [split; [reflexivity | exact Hinclude] | reflexivity].
  - intros orgLogin Hinclude Horg. split; [|reflexivity]. cbn. auto.
  - intros repoName start Hstart Hrepo. split; [|reflexivity]. cbn. auto.
  - intros orgLogin repoName start Hstart Hinclude Horg Hrepo. split; [|reflexivity].
    cbn. auto 6.
Qed.

(** ** Failures of the listings *)

Lemma guarded_returns {A} counters (m : M A) w :
  exists value, fst (guarded counters m w) = Ok value.
Proof.
  unfold guarded, try_catch, bind. destruct (m w) as [[a|e] w1]; eexists; reflexivity.
Qed.

Lemma getOrgRepoCommits_returns username config since maxRepos w :
  exists orgResult,
    fst (getOrgRepoCommits username config since maxRepos w) = Ok orgResult
    /\ 0 <= snd orgResult <= Z.max 0 maxRepos
    /\ snd orgResult <= fst orgResult.
Proof.
  destruct (Run_at _ _ w (Run_getOrgRepoCommits username config since maxRepos))
    as (_ & _ & _ & (orgResult & Hrun & Hbounds) & _).
  exists orgResult. split; [exact Hrun | exact Hbounds].
Qed.

(** X11. The organization pass never raises: on every world
    [getOrgRepoCommits] returns two counters, with at most [maxRepos]
    contributing repositories and at least one commit for each. When the
    listing of the organizations fails after the retries of the client,
    answers with a status that is not ok, or has a body that is not a
    JSON array or is an array with a [null] element, the pass returns
    zero commits from zero repositories. *)
Theorem getOrgRepoCommits_total username config since maxRepos w :
  let listing :=
    fetchWithRetry orgsApi (UserOrgs username) (getGithubHeaders (githubToken config))
      3 1000 w in
  exists orgResult,
    fst (getOrgRepoCommits username config since maxRepos w) = Ok orgResult
    /\ 0 <= snd orgResult <= Z.max 0 maxRepos
    /\ snd orgResult <= fst orgResult
    /\ ((forall r, fst listing = Ok r ->
           ok r = false \/ body r = None \/ body r = Some JsonObject
           \/ body r = Some JsonNull
           \/ exists entries, body r = Some (JsonArray entries) /\ In None entries) ->
        orgResult = (0, 0)).
Proof.
  intros listing.
  destruct (getOrgRepoCommits_returns username config since maxRepos w)
    as (orgResult & Hrun & Hrepos & Hcommits).
  exists orgResult. split; [exact Hrun|]. split; [exact Hrepos|]. split; [exact Hcommits|].
  intros Hfailed. revert Hrun. unfold getOrgRepoCommits.
  unfold bind at 1. unfold guarded at 1. unfold try_catch at 1. unfold bind at 1.
  unfold bind at 1. fold listing.
  destruct listing as [[r|e] w1] eqn:Hlisting; cbn [fst] in Hfailed.
  - destruct (Hfailed r eq_refl) as [Hok|[Hbody|[Hbody|[Hbody|(entries & Hbody & Hnull)]]]].
    + rewrite Hok. cbn. intros [= <-]. reflexivity.
    + destruct (ok r); cbn [negb]; [|cbn; intros [= <-]; reflexivity].
      unfold json. rewrite Hbody. cbn. intros [= <-]. reflexivity.
    + destruct (ok r); cbn [negb]; [|cbn; intros [= <-]; reflexivity].
      unfold json. rewrite Hbody. cbn. intros [= <-]. reflexivity.
    + destruct (ok r); cbn [negb]; [|cbn; intros [= <-]; reflexivity].
      unfold json. rewrite Hbody. cbn. intros [= <-]. reflexivity.
    + destruct (ok r); cbn [negb]; [|cbn; intros [= <-]; reflexivity].
      unfold json. rewrite Hbody. unfold bind at 1. unfold ret at 1. cbn [asArray].
      unfold bind at 1. unfold ret at 1. unfold bind at 1.
      rewrite (filterOrgs_null config entries w1 Hnull). cbn. intros [= <-]. reflexivity.
  - cbn. intros [= <-]. reflexivity.
Qed.

Lemma getOrgRepoCommits_total_witness :
  fst (getOrgRepoCommits "octocat" orgConfig (Some 0) 20 (emptyWorld silentNetwork 0))
  = Ok (0, 0).
Proof.
  destruct (getOrgRepoCommits_total "octocat" orgConfig (Some 0) 20
              (emptyWorld silentNetwork 0))
    as (orgResult & Hrun & _ & _ & Hfailed).
  rewrite Hrun, Hfailed; [reflexivity|]. intros r Hr. discriminate Hr.
Defined.

(** The last step of [getCommitCount], after the owned pass. *)
Lemma orgStep_returns username config since totalCommits ownedRepos processedRepos w :
  exists result,
    fst ((if includeOrgRepos config && (processedRepos <? 20) then
            orgResult <- getOrgRepoCommits username config since (20 - processedRepos) ;;
            ret (mkCommitCount (totalCommits + fst orgResult)
                   (mkSources ownedRepos (snd orgResult)))
          else ret (mkCommitCount totalCommits (mkSources ownedRepos 0))) w) = Ok result
    /\ owned (sources result) = ownedRepos
    /\ (includeOrgRepos config = false ->
        result = mkCommitCount totalCommits (mkSources ownedRepos 0)).
Proof.
  destruct (includeOrgRepos config); cbn [andb].
  - destruct (processedRepos <? 20).
    + unfold bind.
      destruct (getOrgRepoCommits_returns username config since (20 - processedRepos) w)
        as (orgResult & Hrun & _).
      destruct (getOrgRepoCommits username config since (20 - processedRepos) w)
        as [out w1]. cbn [fst] in Hrun. subst out.
      eexists. split; [reflexivity|]. split; [reflexivity | discriminate].
    + eexists. split; [reflexivity|]. split; [reflexivity | discriminate].
  - eexists. split; [reflexivity|]. split; reflexivity.
Qed.

(** The owned pass on a listing whose body is an array. *)
Lemma ownedPass_array username config since r entries w :
  ok r = true -> body r = Some (JsonArray entries) ->
  ownedPass username config since r w
  = (filtered <- filterRepos config since 0 entries ;;
     ownedBatches (length (take 20 filtered)) username config since (take 20 filtered)
       (batchSizeOf config) 0 0 0 0) w.
Proof. intros Hok Hbody. unfold ownedPass, json. rewrite Hok, Hbody. reflexivity. Qed.

(** X12. When the aggregation raises. [getCommitCount] raises exactly
    the failures of the listing of the repositories of the user: the
    error of the client when its retries are exhausted, and the error of
    reading the body when the status is ok and the body is not JSON, is
    no array, or is an array with a [null] element. In every other case
    it returns a result; in particular a listing with a status that is
    not ok, such as the 404 of an unknown user, gives a result with no
    owned repository, and with organizations left out the result is zero
    commits. *)
Theorem getCommitCount_failure username monitoringDays config w :
  let listing :=
    fetchWithRetry reposApi (UserRepos username) (getGithubHeaders (githubToken config))
      3 1000 w in
  let run := getCommitCount username monitoringDays config w in
  (forall e, fst listing = Throw e -> run = (Throw e, snd listing))
  /\ (forall r, fst listing = Ok r -> ok r = true -> body r = None ->
        run = (Throw SyntaxError, snd listing))
  /\ (forall r, fst listing = Ok r -> ok r = true ->
        body r = Some JsonObject \/ body r = Some JsonNull ->
        run = (Throw TypeError, snd listing))
  /\ (forall r entries, fst listing = Ok r -> ok r = true ->
        body r = Some (JsonArray entries) -> In None entries ->
        run = (Throw TypeError, snd listing))
  /\ (forall r repos, fst listing = Ok r -> ok r = true ->
        body r = Some (JsonArray (map Some repos)) ->
        exists result, fst run = Ok result)
  /\ (forall r, fst listing = Ok r -> ok r = false ->
        exists result,
          fst run = Ok result
          /\ owned (sources result) = 0
          /\ (includeOrgRepos config = false -> result = mkCommitCount 0 (mkSources 0 0))).
Proof.
  intros listing run.
  assert (Hdef : run = getCommitCount username monitoringDays config w) by reflexivity.
  clearbody run. unfold getCommitCount in Hdef. unfold bind at 1 in Hdef.
  cbn [newDate] in Hdef. unfold bind at 1 in Hdef. fold listing in Hdef.
  set (since := sinceDate (clock w) monitoringDays) in Hdef.
  destruct listing as [[r|e] w1] eqn:Hlisting; cbn [fst snd]; subst run.
  2:{ split; [intros e' [= <-]; reflexivity|]. repeat split; discriminate. }
  unfold getCommitCountFrom.
  split; [discriminate|].
  split; [intros r' [= <-] Hok Hbody; unfold ownedPass; rewrite Hok; unfold bind, json;
          rewrite Hbody; reflexivity|].
  split; [intros r' [= <-] Hok [Hbody|Hbody]; unfold ownedPass; rewrite Hok;
          unfold bind, json; rewrite Hbody; reflexivity|].
  split; [|split].
  - intros r' entries [= <-] Hok Hbody Hnull. unfold bind at 1.
    rewrite (ownedPass_array username config since r entries w1 Hok Hbody).
    unfold bind at 1. rewrite (filterRepos_null config since entries w1 Hnull). reflexivity.
  - intros r' repos [= <-] Hok Hbody. unfold bind at 1.
    rewrite (ownedPass_array username config since r _ w1 Hok Hbody).
    unfold bind at 1. rewrite filterRepos_readable. cbv beta iota zeta.
    set (reposToProcess := take 20 (List.filter _ repos)).
    destruct (Run_at _ _ w1
                (Run_ownedBatches username config since
                   reposToProcess (batchSizeOf config) (length reposToProcess) 0 0 0 0))
      as (_ & _ & _ & (counters & Hrun & _) & _).
    cbn [owned].
    destruct (ownedBatches _ _ _ _ _ _ _ _ _ _ w1) as [out w2]. cbn [fst] in Hrun.
    subst out.
    destruct (orgStep_returns username config since
                (fst (fst counters)) (snd (fst counters)) (snd counters) w2)
      as (result & Hresult & _).
    exists result. exact Hresult.
  - intros r' [= <-] Hok. unfold bind at 1. unfold ownedPass. rewrite Hok. unfold ret at 1.
    cbn [fst snd owned].
    destruct (orgStep_returns username config since 0 0 0 w1)
      as (result & Hresult & Howned & Hzero).
    exists result. auto.
Qed.

(** A listing that holds [null] beside a repository makes the
    aggregation raise. *)
Example getCommitCount_null_entry :
  fst (getCommitCount "octocat" 14 humanConfig
         (emptyWorld
            (mkNetwork
               (fun _ _ _ =>
                  Responded (mkResponse 200 None
                               (Some (JsonArray [Some (mkRepo "app" (Some 0)); None]))))
               (orgsApi smallNetwork) (commitsApi smallNetwork)) 0))
  = Throw TypeError.
Proof. reflexivity. Qed.

Lemma getCommitCount_failure_witness :
  fst (getCommitCount "octocat" 14 humanConfig (emptyWorld silentNetwork 0))
  = Throw (FetchError "unreachable").
Proof.
  destruct (getCommitCount_failure "octocat" 14 humanConfig (emptyWorld silentNetwork 0))
    as (Hraised & _).
  rewrite (Hraised (FetchError "unreachable") eq_refl). reflexivity.
Defined.

(** ** The background revalidation and the handler, continued *)

Lemma update_returned config cacheKey w result w2 :
  isBotAccount (Some (username config)) None None = false ->
  getCommitCount (username config) (monitoringDays config) config w = (Ok result, w2) ->
  updateCacheInBackground config cacheKey w
  = (Ok tt,
     mkWorld (clock w2) (network w2) (fetches w2)
       (<[cacheKey := snapshotOf config result (clock w2)]> (kv w2))
       (trace w2 ++ [EvKVPut cacheKey (snapshotOf config result (clock w2)) (cacheTTL config);
                     EvConsole LogLevel "Cache updated successfully"])).
Proof.
  intros Hhuman Hagg. unfold updateCacheInBackground, try_catch. rewrite Hhuman.
  unfold bind at 1. rewrite Hagg. cbn. rewrite <- app_assoc. reflexivity.
Qed.

Lemma update_raised config cacheKey w e w2 :
  isBotAccount (Some (username config)) None None = false ->
  getCommitCount (username config) (monitoringDays config) config w = (Throw e, w2) ->
  updateCacheInBackground config cacheKey w
  = (Ok tt,
     mkWorld (clock w2) (network w2) (fetches w2) (kv w2)
       (trace w2 ++ [EvConsole ErrorLevel "Background cache update failed:";
                     EvConsole ErrorLevel "Error details:"])).
Proof.
  intros Hhuman Hagg. unfold updateCacheInBackground, try_catch. rewrite Hhuman.
  unfold bind at 1. rewrite Hagg. cbn. unfold console, emit. cbn.
  rewrite <- app_assoc. reflexivity.
Qed.

Lemma update_bot config cacheKey w :
  isBotAccount (Some (username config)) None None = true ->
  updateCacheInBackground config cacheKey w
  = (Ok tt,
     mkWorld (clock w) (network w) (fetches w) (kv w)
       (trace w ++ [EvConsole ErrorLevel "Bot users are not supported"])).
Proof.
  intros Hbot. unfold updateCacheInBackground, try_catch. rewrite Hbot. reflexivity.
Qed.

(** The aggregation leaves the store and the provider as they are. *)
Lemma getCommitCount_preserves username monitoringDays config w :
  kv (snd (getCommitCount username monitoringDays config w)) = kv w
  /\ network (snd (getCommitCount username monitoringDays config w)) = network w.
Proof.
  destruct (Run_at _ _ w (Run_getCommitCount username monitoringDays config))
    as (_ & Hn & Hkv & _).
  split; assumption.
Qed.

(** X13. The background revalidation never raises, whatever the
    provider does: it always returns. It changes no entry of the store
    other than the one of its key, and it leaves the clock no earlier
    than it found it. For an identity that passes the bot check, the
    entry of its key holds the snapshot of the aggregation result, dated
    at the end of the aggregation, when the aggregation returns, and the
    whole store is as it was when the aggregation raises. *)
Theorem updateCacheInBackground_outcome config cacheKey w :
  let run := updateCacheInBackground config cacheKey w in
  let aggregation := getCommitCount (username config) (monitoringDays config) config w in
  fst run = Ok tt
  /\ (forall key, key <> cacheKey -> kv (snd run) !! key = kv w !! key)
  /\ clock w <= clock (snd run)
  /\ (isBotAccount (Some (username config)) None None = false ->
      (forall result, fst aggregation = Ok result ->
         kv (snd run)
         = <[cacheKey := snapshotOf config result (clock (snd aggregation))]> (kv w)
         /\ clock (snd run) = clock (snd aggregation))
      /\ (forall e, fst aggregation = Throw e -> kv (snd run) = kv w)).
Proof.
  intros run aggregation. subst run.
  pose proof (getCommitCount_preserves (username config) (monitoringDays config) config w)
    as [Hkv _].
  pose proof (getCommitCount_later (username config) (monitoringDays config) config w)
    as Hlater. unfold later in Hlater.
  fold aggregation in Hkv, Hlater.
  destruct (isBotAccount (Some (username config)) None None) eqn:Hbot.
  - rewrite (update_bot config cacheKey w Hbot). cbn [fst snd kv clock].
    split; [reflexivity|]. split; [reflexivity|]. split; [lia | discriminate].
  - destruct aggregation as [[result|e] w2] eqn:Hagg; cbn [fst snd] in *.
    + rewrite (update_returned config cacheKey w result w2 Hbot Hagg). cbn [fst snd kv clock].
      split; [reflexivity|]. split.
      { intros key Hkey. rewrite lookup_insert_ne by congruence. rewrite Hkv. reflexivity. }
      split; [exact Hlater|]. intros _. split.
      * intros result' [= <-]. rewrite Hkv. split; reflexivity.
      * discriminate.
    + rewrite (update_raised config cacheKey w e w2 Hbot Hagg). cbn [fst snd kv clock].
      split; [reflexivity|]. split; [intros; rewrite Hkv; reflexivity|].
      split; [exact Hlater|]. intros _. split; [discriminate|].
      intros e' _. exact Hkv.
Qed.

Lemma updateCacheInBackground_outcome_witness :
  kv (snd (updateCacheInBackground humanConfig (cacheKeyOf humanConfig) (cachedWorld 0)))
  = kv (cachedWorld 0).
Proof.
  destruct (updateCacheInBackground_outcome humanConfig (cacheKeyOf humanConfig) (cachedWorld 0))
    as (_ & _ & _ & Hhuman).
  destruct (Hhuman eq_refl) as [_ Hraised].
  apply (Hraised (FetchError "unreachable")). reflexivity.
Defined.

Lemma badge_unconfigured config styleQuery w :
  truthy (Some (username config)) = false ->
  badge config styleQuery w = (Ok (TextResponse "GITHUB_USERNAME not configured" 500), w).
Proof. intros H. unfold badge. rewrite H. reflexivity. Qed.

Lemma badge_absent_bot config styleQuery w :
  truthy (Some (username config)) = true ->
  kv w !! cacheKeyOf config = None ->
  isBotAccount (Some (username config)) None None = true ->
  badge config styleQuery w
  = (Ok (TextResponse "Bot users are not supported" 400), afterGet w (cacheKeyOf config)).
Proof.
  intros Hconfigured Habsent Hbot. unfold badge. rewrite Hconfigured. cbn [negb].
  unfold try_catch, bind at 1, kvGet. fold (afterGet w (cacheKeyOf config)).
  rewrite Habsent, Hbot. reflexivity.
Qed.

(** The events of an aggregation, none of which writes the store. *)
Lemma getCommitCount_events username monitoringDays config w :
  let w2 := snd (getCommitCount username monitoringDays config w) in
  trace w2 = trace w ++ newEvents w w2 /\ storeWrites (newEvents w w2) = [].
Proof.
  intros w2. subst w2.
  destruct (Run_at _ _ w (Run_getCommitCount username monitoringDays config))
    as (Ht & _ & _ & Hrun).
  split; [exact Ht|]. unfold aggregationRun in Hrun.
  destruct (fst (getCommitCount username monitoringDays config w)) as [result|e].
  - destruct Hrun as (ownedEvents & orgEvents & Hnew & _ & _ & _ & _ & _ & _ & _
                      & ownedTargets & orgTargets & _ & _ & Hp1 & _ & _ & Hp2).
    rewrite Hnew. unfold storeWrites. rewrite List.filter_app.
    fold (storeWrites ownedEvents). fold (storeWrites orgEvents).
    rewrite (storeWrites_providerOnly _ _ Hp1), (storeWrites_providerOnly _ _ Hp2).
    reflexivity.
  - apply (storeWrites_providerOnly _ _ (proj1 Hrun)).
Qed.

Lemma storeWrites_app l1 l2 : storeWrites (l1 ++ l2) = storeWrites l1 ++ storeWrites l2.
Proof. unfold storeWrites. apply List.filter_app. Qed.

(** X14. The handler of /badge always answers: it never raises, and
    its response is the report of a missing configuration, the rejection
    of a bot identity, the report of an error, or the badge of a snapshot.
    Without a configured user name it answers at once, with no access to
    the store and no call to the provider. It never changes the answers of
    the provider, and the clock is never earlier after it. *)
Theorem badge_answers config styleQuery w :
  let run := badge config styleQuery w in
  (exists response,
     fst run = Ok response
     /\ (response = TextResponse "GITHUB_USERNAME not configured" 500
         \/ response = TextResponse "Bot users are not supported" 400
         \/ response = TextResponse "Error generating badge" 500
         \/ exists data, response = badgeResponse config styleQuery data))
  /\ (truthy (Some (username config)) = false ->
      run = (Ok (TextResponse "GITHUB_USERNAME not configured" 500), w))
  /\ network (snd run) = network w
  /\ clock w <= clock (snd run).
Proof.
  intros run. subst run.
  destruct (truthy (Some (username config))) eqn:Hconfigured.
  2:{ rewrite (badge_unconfigured config styleQuery w Hconfigured). cbn [fst snd].
      split; [eexists; split; [reflexivity | left; reflexivity]|].
      split; [reflexivity|]. split; [reflexivity | lia]. }
  split; [|split; [discriminate|]].
  - destruct (kv w !! cacheKeyOf config) as [cached|] eqn:Hcached.
    + destruct (badge_present config styleQuery w cached Hconfigured Hcached)
        as (calls & events & -> & _).
      eexists. split; [reflexivity|]. right. right. right. exists cached. reflexivity.
    + destruct (isBotAccount (Some (username config)) None None) eqn:Hbot.
      * rewrite (badge_absent_bot config styleQuery w Hconfigured Hcached Hbot).
        eexists. split; [reflexivity|]. right. left. reflexivity.
      * destruct (getCommitCount (username config) (monitoringDays config) config
                    (afterGet w (cacheKeyOf config))) as [[result|e] w2] eqn:Hagg.
        -- rewrite (badge_absent_returned config styleQuery w result w2 Hconfigured Hcached
                      Hbot Hagg).
           eexists. split; [reflexivity|]. right. right. right. eexists. reflexivity.
        -- rewrite (badge_absent_raised config styleQuery w e w2 Hconfigured Hcached Hbot Hagg).
           eexists. split; [reflexivity|]. right. right. left. reflexivity.
  - destruct (kv w !! cacheKeyOf config) as [cached|] eqn:Hcached.
    + destruct (badge_present config styleQuery w cached Hconfigured Hcached)
        as (calls & events & -> & _).
      cbn [snd network clock]. split; [reflexivity | lia].
    + destruct (isBotAccount (Some (username config)) None None) eqn:Hbot.
      * rewrite (badge_absent_bot config styleQuery w Hconfigured Hcached Hbot).
        cbn [snd afterGet network clock]. split; [reflexivity | lia].
      * pose proof (getCommitCount_preserves (username config) (monitoringDays config) config
                      (afterGet w (cacheKeyOf config))) as [_ Hn].
        pose proof (getCommitCount_later (username config) (monitoringDays config) config
                      (afterGet w (cacheKeyOf config))) as Hlater. unfold later in Hlater.
        destruct (getCommitCount (username config) (monitoringDays config) config
                    (afterGet w (cacheKeyOf config))) as [[result|e] w2] eqn:Hagg;
          cbn [snd afterGet network clock] in Hn, Hlater.
        -- rewrite (badge_absent_returned config styleQuery w result w2 Hconfigured Hcached
                      Hbot Hagg).
           cbn [snd network clock]. split; assumption.
        -- rewrite (badge_absent_raised config styleQuery w e w2 Hconfigured Hcached Hbot Hagg).
           cbn [snd network clock]. split; assumption.
Qed.

Lemma badge_answers_witness :
  badge (mkConfig "" 15 5 14 86400 8 None false 5 ["dotfiles"] []) None
    (emptyWorld smallNetwork 0)
  = (Ok (TextResponse "GITHUB_USERNAME not configured" 500), emptyWorld smallNetwork 0).
Proof.
  destruct (badge_answers (mkConfig "" 15 5 14 86400 8 None false 5 ["dotfiles"] []) None
              (emptyWorld smallNetwork 0)) as (_ & Hunconfigured & _).
  apply Hunconfigured. reflexivity.
Defined.

(** X15. What a request does to the store. The handler changes no
    entry other than the one of the monitored identity, writes at most
    once, and never writes when it finds a snapshot: a stored snapshot
    is only ever replaced by a background revalidation. *)
Theorem badge_store config styleQuery w :
  let run := badge config styleQuery w in
  (forall key, key <> cacheKeyOf config -> kv (snd run) !! key = kv w !! key)
  /\ (length (storeWrites (newEvents w (snd run))) <= 1)%nat
  /\ (forall cached, kv w !! cacheKeyOf config = Some cached ->
        kv (snd run) = kv w /\ storeWrites (newEvents w (snd run)) = []).
Proof.
  intros run. subst run.
  destruct (truthy (Some (username config))) eqn:Hconfigured.
  2:{ rewrite (badge_unconfigured config styleQuery w Hconfigured). cbn [snd].
      rewrite (newEvents_app w w []) by (rewrite app_nil_r; reflexivity).
      split; [reflexivity|]. split; [cbn; lia|]. intros; split; reflexivity. }
  destruct (kv w !! cacheKeyOf config) as [cached|] eqn:Hcached.
  - destruct (badge_present config styleQuery w cached Hconfigured Hcached)
      as (calls & events & -> & Hnone).
    cbn [snd kv]. erewrite newEvents_app by reflexivity.
    rewrite Hnone. split; [reflexivity|]. split; [cbn; lia|]. intros; split; reflexivity.
  - destruct (isBotAccount (Some (username config)) None None) eqn:Hbot.
    + rewrite (badge_absent_bot config styleQuery w Hconfigured Hcached Hbot).
      cbn [snd afterGet kv]. erewrite newEvents_app by reflexivity.
      split; [reflexivity|]. split; [cbn; lia | discriminate].
    + pose proof (getCommitCount_preserves (username config) (monitoringDays config) config
                    (afterGet w (cacheKeyOf config))) as [Hkv _].
      pose proof (getCommitCount_events (username config) (monitoringDays config) config
                    (afterGet w (cacheKeyOf config))) as [Ht Hwrites].
      destruct (getCommitCount (username config) (monitoringDays config) config
                  (afterGet w (cacheKeyOf config))) as [[result|e] w2] eqn:Hagg;
        cbn [snd afterGet kv trace] in Hkv, Ht, Hwrites.
      * rewrite (badge_absent_returned config styleQuery w result w2 Hconfigured Hcached
                   Hbot Hagg). cbn [snd kv].
        split; [intros key Hkey; rewrite lookup_insert_ne by congruence; rewrite Hkv;
                reflexivity|].
        split; [|discriminate].
        erewrite newEvents_app;
          [|cbn [trace]; rewrite Ht, <- !app_assoc; reflexivity].
        rewrite !storeWrites_app, Hwrites. cbn. lia.
      * rewrite (badge_absent_raised config styleQuery w e w2 Hconfigured Hcached Hbot Hagg).
        cbn [snd kv]. split; [intros; rewrite Hkv; reflexivity|].
        split; [|discriminate].
        erewrite newEvents_app;
          [|cbn [trace]; rewrite Ht, <- !app_assoc; reflexivity].
        rewrite !storeWrites_app, Hwrites. cbn. lia.
Qed.

Lemma badge_store_witness :
  kv (snd (badge humanConfig None (cachedWorld msPerDay))) = kv (cachedWorld msPerDay).
Proof.
  destruct (badge_store humanConfig None (cachedWorld msPerDay)) as (_ & _ & Hkept).
  apply (Hkept oldSnapshot). reflexivity.
Defined.

Lemma snapshot_fresh config result now H :
  shouldUpdateCache now (lastUpdated (snapshotOf config result now)) H = false.
Proof.
  unfold shouldUpdateCache. cbn [snapshotOf lastUpdated].
  rewrite Z.sub_diag, Z.eqb_refl. reflexivity.
Qed.

(** X16. A cold start followed by a second request. When the first
    request finds no snapshot, the identity passes the bot check and the
    aggregation returns, the second request, made right after it, is
    answered with the badge of the same snapshot from the store: it
    looks the snapshot up and does nothing else, with no call to the
    provider, no write and no revalidation scheduled. *)
Theorem badge_second_request config styleQuery styleQuery' w result w2 :
  truthy (Some (username config)) = true ->
  kv w !! cacheKeyOf config = None ->
  isBotAccount (Some (username config)) None None = false ->
  getCommitCount (username config) (monitoringDays config) config
    (afterGet w (cacheKeyOf config)) = (Ok result, w2) ->
  let first := badge config styleQuery w in
  let second := badge config styleQuery' (snd first) in
  let data := snapshotOf config result (clock w2) in
  fst first = Ok (badgeResponse config styleQuery data)
  /\ fst second = Ok (badgeResponse config styleQuery' data)
  /\ newEvents (snd first) (snd second) = [EvKVGet (cacheKeyOf config)]
  /\ fetches (snd second) = fetches (snd first)
  /\ kv (snd second) = kv (snd first).
Proof.
  intros Hconfigured Habsent Hhuman Hagg first second data. subst second first.
  rewrite (badge_absent_returned config styleQuery w result w2 Hconfigured Habsent Hhuman Hagg).
  cbn [fst snd]. fold data.
  set (w' := mkWorld (clock w2) (network w2) (fetches w2)
               (<[cacheKeyOf config := data]> (kv w2))
               (trace w2 ++ [EvKVPut (cacheKeyOf config) data (cacheTTL config)])).
  assert (Hstored : kv w' !! cacheKeyOf config = Some data) by apply lookup_insert_eq.
  assert (Hfresh : shouldUpdateCache (clock w') (lastUpdated data) (jstUpdateHour config) = false)
    by apply snapshot_fresh.
  rewrite (badge_fresh config styleQuery' w' data Hconfigured Hstored Hfresh).
  cbn [fst snd fetches kv afterGet].
  split; [reflexivity|]. split; [reflexivity|].
  split; [apply newEvents_app; reflexivity|]. split; reflexivity.
Qed.

Lemma badge_second_request_witness :
  let first := badge humanConfig None (emptyWorld smallNetwork 0) in
  let second := badge humanConfig (Some "plastic") (snd first) in
  newEvents (snd first) (snd second) = [EvKVGet (cacheKeyOf humanConfig)].
Proof.
  intros first second.
  destruct (getCommitCount "octocat" 14 humanConfig
              (afterGet (emptyWorld smallNetwork 0) (cacheKeyOf humanConfig)))
    as [[result|e] w2] eqn:Hagg; [|discriminate Hagg].
  destruct (badge_second_request humanConfig None (Some "plastic") (emptyWorld smallNetwork 0)
              result w2 eq_refl eq_refl eq_refl Hagg) as (_ & _ & Hevents & _).
  exact Hevents.
Defined.

(** The resumed aggregation leaves the store and the provider as they
    are, and the clock no earlier. *)
Lemma resumeCommitCount_frame username config since call w :
  let w' := snd (resumeCommitCount username config since call w) in
  kv w' = kv w /\ network w' = network w /\ clock w <= clock w'.
Proof.
  intros w'. subst w'.
  destruct (Run_at _ _ w (Run_resumeCommitCount username config since call))
    as (_ & Hn & Hkv & _).
  split; [exact Hkv|]. split; [exact Hn|].
  apply (Steps_resumeCommitCount (fun _ => True) later); try (intros; exact I).
  - intros w'. unfold later. lia.
  - exact later_trans.
  - intros level message w'. unfold later. cbn. lia.
  - exact later_sleep.
  - intros A api url options w' _. unfold later. cbn. lia.
Qed.

(** The run of a task that waits for the listing, by the outcome of
    its aggregation. *)
Lemma task_returned config cacheKey since call w result w2 :
  resumeCommitCount (username config) config since call w = (Ok result, w2) ->
  runBackgroundTask (mkTask config cacheKey (AwaitingListing since call)) w
  = (Ok tt,
     mkWorld (clock w2) (network w2) (fetches w2)
       (<[cacheKey := snapshotOf config result (clock w2)]> (kv w2))
       (trace w2 ++ [EvKVPut cacheKey (snapshotOf config result (clock w2)) (cacheTTL config);
                     EvConsole LogLevel "Cache updated successfully"])).
Proof.
  intros Hagg. unfold runBackgroundTask. cbn [task_state task_config task_cacheKey].
  unfold try_catch. unfold bind at 1. rewrite Hagg. cbn. rewrite <- app_assoc. reflexivity.
Qed.

Lemma task_raised config cacheKey since call w e w2 :
  resumeCommitCount (username config) config since call w = (Throw e, w2) ->
  runBackgroundTask (mkTask config cacheKey (AwaitingListing since call)) w
  = (Ok tt,
     mkWorld (clock w2) (network w2) (fetches w2) (kv w2)
       (trace w2 ++ [EvConsole ErrorLevel "Background cache update failed:";
                     EvConsole ErrorLevel "Error details:"])).
Proof.
  intros Hagg. unfold runBackgroundTask. cbn [task_state task_config task_cacheKey].
  unfold try_catch. unfold bind at 1. rewrite Hagg. cbn. unfold console, emit. cbn.
  rewrite <- app_assoc. reflexivity.
Qed.

(** X17. The cycle of a revalidation. A request that finds a stale
    snapshot, not dated in the future, for an identity that passes the
    bot check, sends the request for the listing of the repositories of
    the user and hands the rest of the revalidation to the runtime. Once
    that task has run: if its aggregation returned, the next request
    serves the badge of the new snapshot and starts nothing, for the new
    snapshot is fresh; if its aggregation raised, the next request serves
    the old snapshot again and starts the revalidation again. *)
Theorem revalidation_cycle config styleQuery w cached :
  truthy (Some (username config)) = true ->
  kv w !! cacheKeyOf config = Some cached ->
  lastUpdated cached <= clock w ->
  shouldUpdateCache (clock w) (lastUpdated cached) (jstUpdateHour config) = true ->
  isBotAccount (Some (username config)) None None = false ->
  let key := cacheKeyOf config in
  let listing :=
    EvFetch (UserRepos (username config)) (getGithubHeaders (githubToken config)) in
  let since := sinceDate (clock w) (monitoringDays config) in
  let task := mkTask config key (AwaitingListing since (fetches w)) in
  let w1 := snd (badge config styleQuery w) in
  let w2 := snd (runBackgroundTask task w1) in
  let aggregation := resumeCommitCount (username config) config since (fetches w) w1 in
  let next := badge config styleQuery w2 in
  newEvents w w1 = [EvKVGet key; listing; EvWaitUntil task]
  /\ (forall result, fst aggregation = Ok result ->
        fst next
        = Ok (badgeResponse config styleQuery
                (snapshotOf config result (clock (snd aggregation))))
        /\ newEvents w2 (snd next) = [EvKVGet key])
  /\ (forall e, fst aggregation = Throw e ->
        fst next = Ok (badgeResponse config styleQuery cached)
        /\ newEvents w2 (snd next)
           = [EvKVGet key; listing;
              EvWaitUntil
                (mkTask config key
                   (AwaitingListing (sinceDate (clock w2) (monitoringDays config))
                      (fetches w2)))]).
Proof.
  intros Hconfigured Hcached Hdated Hstale Hhuman key listing since task w1 w2 aggregation next.
  assert (Hw1 : w1 = mkWorld (clock w) (network w) (S (fetches w)) (kv w)
                       (trace w ++ [EvKVGet key; listing; EvWaitUntil task])).
  { subst w1.
    rewrite (badge_stale_human config styleQuery w cached Hconfigured Hcached Hstale Hhuman).
    reflexivity. }
  assert (Hkv1 : kv w1 = kv w) by (rewrite Hw1; reflexivity).
  assert (Hclock1 : clock w1 = clock w) by (rewrite Hw1; reflexivity).
  split; [apply newEvents_app; rewrite Hw1; reflexivity|].
  pose proof (resumeCommitCount_frame (username config) config since (fetches w) w1)
    as (Hkv & _ & Hlater). cbv zeta in Hkv, Hlater.
  fold aggregation in Hkv, Hlater. subst next w2. subst task.
  clearbody w1. destruct aggregation as [[result|e] wa] eqn:Hagg; cbn [fst snd] in *.
  - split; [|discriminate]. intros result' [= <-].
    rewrite (task_returned config key since (fetches w) w1 result wa Hagg). cbn [snd].
    set (data := snapshotOf config result (clock wa)).
    set (w2 := mkWorld _ _ _ _ _).
    assert (Hstored : kv w2 !! cacheKeyOf config = Some data) by apply lookup_insert_eq.
    assert (Hfresh : shouldUpdateCache (clock w2) (lastUpdated data) (jstUpdateHour config)
                     = false) by apply snapshot_fresh.
    rewrite (badge_fresh config styleQuery w2 data Hconfigured Hstored Hfresh).
    cbn [fst snd]. split; [reflexivity|]. apply newEvents_app. reflexivity.
  - split; [discriminate|]. intros e' _.
    rewrite (task_raised config key since (fetches w) w1 e wa Hagg). cbn [snd].
    set (w2 := mkWorld _ _ _ _ _).
    assert (Hstored : kv w2 !! cacheKeyOf config = Some cached).
    { cbn [w2 kv]. rewrite Hkv, Hkv1. exact Hcached. }
    assert (Hstill : shouldUpdateCache (clock w2) (lastUpdated cached) (jstUpdateHour config)
                     = true).
    { apply (stale_later (clock w)); [exact Hdated | cbn [w2 clock]; lia | exact Hstale]. }
    rewrite (badge_stale_human config styleQuery w2 cached Hconfigured Hstored Hstill Hhuman).
    cbn [fst snd]. split; [reflexivity|]. apply newEvents_app. reflexivity.
Qed.

(** Two days after the snapshot, in front of a provider that cannot be
    reached: the revalidation fails and the old snapshot is served
    again. *)
Lemma revalidation_cycle_witness :
  let w1 := snd (badge humanConfig None (cachedWorld (2 * msPerDay))) in
  let task :=
    mkTask humanConfig (cacheKeyOf humanConfig)
      (AwaitingListing (sinceDate (2 * msPerDay) 14) 0) in
  let w2 := snd (runBackgroundTask task w1) in
  fst (badge humanConfig None w2) = Ok (badgeResponse humanConfig None oldSnapshot).
Proof.
  intros w1 task w2.
  destruct (revalidation_cycle humanConfig None (cachedWorld (2 * msPerDay)) oldSnapshot
              eq_refl eq_refl ltac:(unfold cachedWorld, oldSnapshot, msPerDay; cbn; lia) eq_refl eq_refl)
    as (_ & _ & Hraised).
  destruct (Hraised (FetchError "unreachable") eq_refl) as [Hnext _].
  exact Hnext.
Defined.

(** ** Runs in front of a stable provider *)

Lemma sameProvider_refl_after w1 w2 w1' w2' :
  sameProvider w1 w2 -> network w1' = network w1 -> network w2' = network w2 ->
  sameProvider w1' w2'.
Proof. intros [Hs Hn] H1 H2. unfold sameProvider. rewrite H1, H2. split; assumption. Qed.

Section RepeatableRules.
Context {A B : Type}.

Lemma Repeatable_ret (a : A) : Repeatable (ret a).
Proof. intros w1 w2 H. split; [reflexivity | exact H]. Qed.

Lemma Repeatable_throw (e : Error) : Repeatable (@throw A e).
Proof. intros w1 w2 H. split; [reflexivity | exact H]. Qed.

Lemma Repeatable_bind (m : M A) (k : A -> M B) :
  Repeatable m -> (forall a, Repeatable (k a)) -> Repeatable (bind m k).
Proof.
  intros Hm Hk w1 w2 H. unfold bind. destruct (Hm w1 w2 H) as [Hout Hnext].
  destruct (m w1) as [[a1|e1] w1'], (m w2) as [[a2|e2] w2']; cbn [fst snd] in *;
    try discriminate Hout.
  - injection Hout as <-. apply Hk, Hnext.
  - injection Hout as <-. split; [reflexivity | exact Hnext].
Qed.

Lemma Repeatable_try_catch (m : M A) (h : Error -> M A) :
  Repeatable m -> (forall e, Repeatable (h e)) -> Repeatable (try_catch m h).
Proof.
  intros Hm Hh w1 w2 H. unfold try_catch. destruct (Hm w1 w2 H) as [Hout Hnext].
  destruct (m w1) as [[a1|e1] w1'], (m w2) as [[a2|e2] w2']; cbn [fst snd] in *;
    try discriminate Hout.
  - split; assumption.
  - injection Hout as <-. apply Hh, Hnext.
Qed.
End RepeatableRules.

Lemma Repeatable_console level message : Repeatable (console level message).
Proof. intros w1 w2 H. split; [reflexivity|]. apply (sameProvider_refl_after w1 w2); auto. Qed.

Lemma Repeatable_sleep ms : Repeatable (sleep ms).
Proof. intros w1 w2 H. split; [reflexivity|]. apply (sameProvider_refl_after w1 w2); auto. Qed.

Lemma Repeatable_fetch {A} (api : Api A) url options :
  stableApi api -> Repeatable (fetch api url options).
Proof.
  intros Hapi w1 w2 H. split; [|apply (sameProvider_refl_after w1 w2); auto].
  destruct H as [Hs Hn]. cbn [fetch fst]. rewrite Hn. f_equal. apply Hapi, Hs.
Qed.

Lemma stableApi_repos : stableApi reposApi.
Proof. intros net Hs n m url options. apply Hs. Qed.

Lemma stableApi_orgs : stableApi orgsApi.
Proof. intros net Hs n m url options. apply Hs. Qed.

Lemma stableApi_commits : stableApi commitsApi.
Proof. intros net Hs n m url options. apply Hs. Qed.

Lemma Repeatable_json {A} (r : Response A) : Repeatable (json r).
Proof. unfold json. destruct (body r); [apply Repeatable_ret | apply Repeatable_throw]. Qed.

Lemma Repeatable_pure {A} (m : M A) : Pure m -> Repeatable m.
Proof. intros [o Hm] w1 w2 H. rewrite !Hm. split; [reflexivity | exact H]. Qed.

Lemma Repeatable_asArray {A} (v : Json A) : Repeatable (asArray v).
Proof. apply Repeatable_pure, Pure_asArray. Qed.

Lemma Repeatable_mapM {A B} (f : A -> M B) (l : list A) :
  (forall x, Repeatable (f x)) -> Repeatable (mapM f l).
Proof.
  intros Hf. induction l as [|x l IH]; cbn [mapM]; [apply Repeatable_ret|].
  apply Repeatable_bind; [apply Hf|]. intros y.
  apply Repeatable_bind; [apply IH|]. intros ys. apply Repeatable_ret.
Qed.

Lemma Repeatable_fetchLoop {A} (api : Api A) url options maxRetries initialDelay :
  stableApi api ->
  forall budget i lastError,
    Repeatable (fetchLoop api url options maxRetries initialDelay budget i lastError).
Proof.
  intros Hapi. induction budget as [|budget IH]; intros i lastError; cbn [fetchLoop].
  - apply Repeatable_throw.
  - apply Repeatable_bind; [apply Repeatable_fetch, Hapi|]. intros o.
    assert (Hretry : forall level message ms lastError',
      Repeatable (console level message ;; sleep ms ;;
                  fetchLoop api url options maxRetries initialDelay budget (S i) lastError')).
    { intros. apply Repeatable_bind; [apply Repeatable_console|]. intros _.
      apply Repeatable_bind; [apply Repeatable_sleep|]. intros _. apply IH. }
    destruct o as [error|response]; [apply Hretry|].
    destruct ((status response =? 429) || (status response =? 403)); [apply Hretry|].
    destruct (status response >=? 500); [apply Hretry | apply Repeatable_ret].
Qed.

Lemma Repeatable_fetchWithRetry {A} (api : Api A) url options maxRetries initialDelay :
  stableApi api -> Repeatable (fetchWithRetry api url options maxRetries initialDelay).
Proof. intros Hapi. apply Repeatable_fetchLoop, Hapi. Qed.

Lemma Repeatable_filterCommits username entries : Repeatable (filterCommits username entries).
Proof.
  induction entries as [|[c|] entries IH]; cbn [filterCommits].
  - apply Repeatable_ret.
  - apply Repeatable_bind; [exact IH|]. intros userCommits. apply Repeatable_ret.
  - apply Repeatable_throw.
Qed.

Lemma Repeatable_getRepoCommits username repoOwner repoName since token :
  Repeatable (getRepoCommits username repoOwner repoName since token).
Proof.
  unfold getRepoCommits.
  apply Repeatable_bind; [|intros [n|]; apply Repeatable_ret].
  apply Repeatable_try_catch.
  - apply Repeatable_bind; [apply Repeatable_pure, Pure_toISOString|]. intros sinceISO.
    apply Repeatable_bind; [apply Repeatable_fetchWithRetry, stableApi_commits|]. intros r.
    destruct (ok r); [|apply Repeatable_ret].
    apply Repeatable_bind; [apply Repeatable_json|]. intros v.
    apply Repeatable_bind; [apply Repeatable_asArray|]. intros l.
    apply Repeatable_bind; [apply Repeatable_filterCommits|]. intros userCommits.
    apply Repeatable_ret.
  - intros e. apply Repeatable_bind; [apply Repeatable_console|]. intros _.
    apply Repeatable_ret.
Qed.

Lemma Repeatable_ownedBatchPromise username config since repo :
  Repeatable (ownedBatchPromise username config since repo).
Proof.
  unfold ownedBatchPromise. apply Repeatable_try_catch.
  - apply Repeatable_bind; [apply Repeatable_getRepoCommits|]. intros n. apply Repeatable_ret.
  - intros e. apply Repeatable_bind; [apply Repeatable_console|]. intros _.
    apply Repeatable_ret.
Qed.

Lemma Repeatable_orgBatchPromise username config since entry :
  Repeatable (orgBatchPromise username config since entry).
Proof.
  unfold orgBatchPromise. apply Repeatable_try_catch.
  - apply Repeatable_bind; [apply Repeatable_getRepoCommits|]. intros n. apply Repeatable_ret.
  - intros e. apply Repeatable_bind; [apply Repeatable_console|]. intros _.
    apply Repeatable_ret.
Qed.

Lemma Repeatable_ownedBatches username config since reposToProcess batchSize :
  forall steps i totalCommits ownedRepos processedRepos,
    Repeatable (ownedBatches steps username config since reposToProcess batchSize i
                  totalCommits ownedRepos processedRepos).
Proof.
  induction steps as [|steps IH]; intros i totalCommits ownedRepos processedRepos;
    cbn [ownedBatches]; [apply Repeatable_ret|].
  destruct (i <? length reposToProcess)%nat; [|apply Repeatable_ret].
  apply Repeatable_bind.
  - apply Repeatable_mapM. intros repo. apply Repeatable_ownedBatchPromise.
  - intros results. apply Repeatable_bind; [|intros _; apply IH].
    destruct (i + batchSize <? length reposToProcess)%nat;
      [apply Repeatable_sleep | apply Repeatable_ret].
Qed.

Lemma Repeatable_guarded {A} counters (m : M A) :
  Repeatable m -> Repeatable (guarded counters m).
Proof.
  intros Hm. unfold guarded. apply Repeatable_try_catch.
  - apply Repeatable_bind; [exact Hm|]. intros a. apply Repeatable_ret.
  - intros e. apply Repeatable_bind; [apply Repeatable_console|]. intros _.
    apply Repeatable_ret.
Qed.

Lemma Repeatable_orgBatches username config since maxRepos allOrgRepos batchSize :
  forall steps i totalOrgCommits processedOrgRepos,
    Repeatable (orgBatches steps username config since maxRepos allOrgRepos batchSize i
                  totalOrgCommits processedOrgRepos).
Proof.
  induction steps as [|steps IH]; intros i totalOrgCommits processedOrgRepos;
    cbn [orgBatches]; [apply Repeatable_ret|].
  destruct ((i <? length allOrgRepos)%nat && (processedOrgRepos <? maxRepos));
    [|apply Repeatable_ret].
  apply Repeatable_bind.
  - apply Repeatable_guarded, Repeatable_mapM. intros entry. apply Repeatable_orgBatchPromise.
  - intros [counters|results]; [apply Repeatable_ret|].
    apply Repeatable_bind.
    + apply Repeatable_guarded.
      destruct ((i + batchSize <? length allOrgRepos)%nat
                && (snd (countOrgResults maxRepos results totalOrgCommits processedOrgRepos)
                    <? maxRepos)); [apply Repeatable_sleep | apply Repeatable_ret].
    + intros [counters|[]]; [apply Repeatable_ret | apply IH].
Qed.

Lemma Repeatable_orgReposPromise config o : Repeatable (orgReposPromise config o).
Proof.
  unfold orgReposPromise. apply Repeatable_try_catch.
  - apply Repeatable_bind; [apply Repeatable_fetchWithRetry, stableApi_repos|]. intros r.
    destruct (ok r); [|apply Repeatable_ret].
    apply Repeatable_bind; [apply Repeatable_json|]. intros v. apply Repeatable_ret.
  - intros e. apply Repeatable_bind; [apply Repeatable_console|]. intros _.
    apply Repeatable_ret.
Qed.

Lemma Repeatable_flattenOrgRepos config since maxRepos orgReposResults allOrgRepos :
  Repeatable (flattenOrgRepos config since maxRepos orgReposResults allOrgRepos).
Proof. apply Repeatable_pure, Pure_flattenOrgRepos. Qed.

Lemma Repeatable_getOrgRepoCommits username config since maxRepos :
  Repeatable (getOrgRepoCommits username config since maxRepos).
Proof.
  unfold getOrgRepoCommits. apply Repeatable_bind.
  - apply Repeatable_guarded.
    apply Repeatable_bind; [apply Repeatable_fetchWithRetry, stableApi_orgs|]. intros r.
    destruct (negb (ok r)).
    + apply Repeatable_bind; [apply Repeatable_console|]. intros _. apply Repeatable_ret.
    + apply Repeatable_bind; [apply Repeatable_json|]. intros v.
      apply Repeatable_bind; [apply Repeatable_asArray|]. intros orgs.
      apply Repeatable_bind; [apply Repeatable_pure, Pure_filterOrgs|]. intros filteredOrgs.
      apply Repeatable_bind.
      * apply Repeatable_mapM. intros o. apply Repeatable_orgReposPromise.
      * intros results. apply Repeatable_bind; [apply Repeatable_flattenOrgRepos|].
        intros l. apply Repeatable_ret.
  - intros [counters|[returned|allOrgRepos]]; [apply Repeatable_ret..|].
    apply Repeatable_orgBatches.
Qed.

Lemma Repeatable_getCommitCountFrom username config since ownedRepos :
  Repeatable (getCommitCountFrom username config since ownedRepos).
Proof.
  unfold getCommitCountFrom. apply Repeatable_bind.
  - unfold ownedPass. destruct (ok ownedRepos); [|apply Repeatable_ret].
    apply Repeatable_bind; [apply Repeatable_json|]. intros v.
    apply Repeatable_bind; [apply Repeatable_asArray|]. intros repos.
    apply Repeatable_bind; [apply Repeatable_pure, Pure_filterRepos|]. intros filtered.
    apply Repeatable_ownedBatches.
  - intros counters.
    destruct (includeOrgRepos config && (snd counters <? 20)); [|apply Repeatable_ret].
    apply Repeatable_bind; [apply Repeatable_getOrgRepoCommits|]. intros orgResult.
    apply Repeatable_ret.
Qed.

(** X18. The result of an aggregation is repeatable. In front of a
    provider whose answers do not depend on the calls made before, two
    runs of [getCommitCount] that start at the same instant have the same
    outcome, whatever the store holds and however many calls and log
    lines came before: the same result, or the same error. The cold
    start and the background revalidation therefore compute the same
    counts when they start at the same instant. *)
Theorem getCommitCount_repeatable username monitoringDays config w1 w2 :
  stableNetwork (network w1) -> network w2 = network w1 -> clock w2 = clock w1 ->
  fst (getCommitCount username monitoringDays config w1)
  = fst (getCommitCount username monitoringDays config w2).
Proof.
  intros Hstable Hn Hclock.
  set (body := fun now : Z =>
    (ownedRepos <-
       fetchWithRetry reposApi (UserRepos username) (getGithubHeaders (githubToken config))
         3 1000 ;;
     getCommitCountFrom username config (sinceDate now monitoringDays) ownedRepos)).
  change (fst (body (clock w1) w1) = fst (body (clock w2) w2)). rewrite Hclock.
  assert (Hbody : Repeatable (body (clock w1))).
  { subst body. cbv beta.
    apply Repeatable_bind; [apply Repeatable_fetchWithRetry, stableApi_repos|].
    intros ownedRepos. apply Repeatable_getCommitCountFrom. }
  apply (Hbody w1 w2). split; assumption.
Qed.

Lemma idleNetwork_stable : stableNetwork idleNetwork.
Proof. intros n m url options. repeat split. Qed.

Lemma getCommitCount_repeatable_witness :
  fst (getCommitCount "octocat" 14 orgConfig (emptyWorld idleNetwork 0))
  = fst (getCommitCount "octocat" 14 orgConfig
           (mkWorld 0 idleNetwork 7 {[ cacheKeyOf orgConfig := oldSnapshot ]}
              [EvKVGet (cacheKeyOf orgConfig)])).
Proof.
  apply getCommitCount_repeatable; [exact idleNetwork_stable | reflexivity | reflexivity].
Defined.

(** ** The owned pass in front of a stable provider *)

Lemma getRepoCommits_stable username repoOwner repoName since token w :
  stableNetwork (network w) ->
  fst (getRepoCommits username repoOwner repoName since token w)
  = Ok (repoCount (network w) username repoOwner repoName since token)
  /\ 0 <= repoCount (network w) username repoOwner repoName since token
  /\ network (snd (getRepoCommits username repoOwner repoName since token w)) = network w.
Proof.
  intros Hstable.
  destruct (Repeatable_getRepoCommits username repoOwner repoName since token
              w (emptyWorld (network w) 0)) as [Hsame _]; [split; [exact Hstable | reflexivity]|].
  destruct (Run_at _ _ w (Run_getRepoCommits username repoOwner repoName since token))
    as (_ & Hn & _ & (n & Hrun & Hpos) & _).
  unfold repoCount. rewrite <- Hsame, Hrun. auto.
Qed.

Lemma ownedBatchPromise_stable username config since repo w :
  stableNetwork (network w) ->
  exists w',
    ownedBatchPromise username config since repo w
    = (Ok (contribution
             (repoCount (network w) username username (name repo) since (githubToken config))),
       w')
    /\ network w' = network w.
Proof.
  intros Hstable.
  destruct (getRepoCommits_stable username username (name repo) since (githubToken config) w
              Hstable) as (Hrun & _ & Hn).
  unfold ownedBatchPromise, try_catch, bind.
  destruct (getRepoCommits username username (name repo) since (githubToken config) w)
    as [out w1]. cbn [fst snd] in *. subst out. exists w1. split; [reflexivity | exact Hn].
Qed.

Lemma mapM_ownedBatchPromise_stable username config since : forall batch w,
  stableNetwork (network w) ->
  exists w',
    mapM (ownedBatchPromise username config since) batch w
    = (Ok (map contribution (ownedCounts (network w) username config since batch)), w')
    /\ network w' = network w.
Proof.
  induction batch as [|repo batch IH]; intros w Hstable; [exists w; split; reflexivity|].
  cbn [mapM]. unfold bind at 1.
  destruct (ownedBatchPromise_stable username config since repo w Hstable) as (w1 & -> & Hn1).
  assert (Hstable1 : stableNetwork (network w1)) by (rewrite Hn1; exact Hstable).
  destruct (IH w1 Hstable1) as (w2 & Hrest & Hn2). unfold bind at 1. rewrite Hrest.
  exists w2. rewrite Hn1 in *. split; [reflexivity | exact Hn2].
Qed.

Lemma contributing_app l1 l2 : contributing (l1 ++ l2) = contributing l1 + contributing l2.
Proof. unfold contributing. rewrite List.filter_app, length_app. lia. Qed.

Lemma contributing_cons n l :
  contributing (n :: l) = (if n >? 0 then 1 else 0) + contributing l.
Proof.
  unfold contributing. cbn [List.filter]. destruct (n >? 0); cbn [length]; lia.
Qed.

Lemma sumZ_app l1 l2 : sumZ (l1 ++ l2) = sumZ l1 + sumZ l2.
Proof. unfold sumZ. induction l1 as [|x l1 IH]; cbn [app fold_right]; lia. Qed.

(** The counters after a batch whose counts are not negative: the total
    grows by the sum of the counts and both counters of repositories by
    the number of counts of at least one. *)
Lemma countOwnedResults_counts : forall counts totalCommits ownedRepos processedRepos,
  Forall (fun n => 0 <= n) counts ->
  countOwnedResults (map contribution counts) totalCommits ownedRepos processedRepos
  = (totalCommits + sumZ counts, ownedRepos + contributing counts,
     processedRepos + contributing counts).
Proof.
  induction counts as [|n counts IH]; intros totalCommits ownedRepos processedRepos Hpos.
  - unfold sumZ, contributing. cbn [map countOwnedResults fold_right List.filter length].
    change (Z.of_nat 0) with 0. rewrite !Z.add_0_r. reflexivity.
  - pose proof (Forall_inv Hpos) as Hn. pose proof (Forall_inv_tail Hpos) as Hrest.
    cbn beta in Hn. cbn [map countOwnedResults]. unfold contribution at 1.
    rewrite (contributing_cons n counts).
    change (sumZ (n :: counts)) with (n + sumZ counts).
    destruct (Z.gtb_spec n 0) as [Hgt|Hle]; rewrite (IH _ _ _ Hrest).
    + apply pair_equal_spec; split; [apply pair_equal_spec; split|]; lia.
    + apply pair_equal_spec; split; [apply pair_equal_spec; split|]; lia.
Qed.

Lemma ownedCounts_nonneg net username config since repos :
  stableNetwork net -> Forall (fun n => 0 <= n) (ownedCounts net username config since repos).
Proof.
  intros Hstable. unfold ownedCounts. apply Forall_map, Forall_forall. intros repo _.
  apply (getRepoCommits_stable username username (name repo) since (githubToken config)
           (emptyWorld net 0) Hstable).
Qed.

Lemma ownedCounts_app net username config since l1 l2 :
  ownedCounts net username config since (l1 ++ l2)
  = ownedCounts net username config since l1 ++ ownedCounts net username config since l2.
Proof. apply map_app. Qed.

(** The batch loop in front of a stable provider: whatever the size of
    the batches, the counters grow by the sum of the counts of the
    repositories from index [i] on, and by the number of those with at
    least one commit. *)
Lemma ownedBatches_stable username config since reposToProcess batchSize :
  (0 < batchSize)%nat ->
  forall steps i totalCommits ownedRepos processedRepos w,
    stableNetwork (network w) ->
    (length reposToProcess <= i + steps)%nat ->
    let counts := ownedCounts (network w) username config since (drop i reposToProcess) in
    fst (ownedBatches steps username config since reposToProcess batchSize i
           totalCommits ownedRepos processedRepos w)
    = Ok (totalCommits + sumZ counts, ownedRepos + contributing counts,
          processedRepos + contributing counts).
Proof.
  intros Hsize. induction steps as [|steps IH];
    intros i totalCommits ownedRepos processedRepos w Hstable Hlen counts.
  - subst counts. rewrite drop_ge by lia. unfold ownedCounts, sumZ, contributing.
    cbn [map fold_right List.filter length]. change (Z.of_nat 0) with 0.
    rewrite !Z.add_0_r. reflexivity.
  - cbn [ownedBatches]. destruct (Nat.ltb_spec i (length reposToProcess)) as [Hin|Hout].
    + set (batch := slice i (i + batchSize) reposToProcess).
      assert (Hsplit : drop i reposToProcess = batch ++ drop (i + batchSize) reposToProcess).
      { unfold batch, slice. replace (i + batchSize - i)%nat with batchSize by lia.
        rewrite <- drop_drop. symmetry. apply take_drop. }
      unfold bind at 1.
      destruct (mapM_ownedBatchPromise_stable username config since batch w Hstable)
        as (w1 & -> & Hn1).
      rewrite countOwnedResults_counts by (apply ownedCounts_nonneg, Hstable).
      cbn [fst snd]. unfold bind at 1.
      set (pause := if (i + batchSize <? length reposToProcess)%nat
                    then sleep (batchDelay config) else ret tt).
      assert (Hpause : exists w2, pause w1 = (Ok tt, w2) /\ network w2 = network w1).
      { subst pause. destruct (i + batchSize <? length reposToProcess)%nat;
          eexists; split; reflexivity. }
      destruct Hpause as (w2 & -> & Hn2).
      assert (Hstable2 : stableNetwork (network w2)) by (rewrite Hn2, Hn1; exact Hstable).
      rewrite (IH (i + batchSize)%nat _ _ _ w2 Hstable2) by lia.
      subst counts. rewrite Hn2, Hn1, Hsplit, ownedCounts_app, sumZ_app, contributing_app.
      f_equal. apply pair_equal_spec; split; [apply pair_equal_spec; split|]; lia.
    + subst counts. rewrite drop_ge by lia. unfold ownedCounts, sumZ, contributing.
    cbn [map fold_right List.filter length]. change (Z.of_nat 0) with 0.
    rewrite !Z.add_0_r. reflexivity.
Qed.

Lemma fetchWithRetry_first {A} (api : Api A) url options budget initialDelay w r :
  api (network w) (fetches w) url options = Responded r ->
  ok r = true ->
  fetchWithRetry api url options (S budget) initialDelay w = (Ok r, afterFetch w url options).
Proof.
  intros Hanswer Hok. unfold fetchWithRetry. apply fetchLoop_return; [exact Hanswer|].
  unfold ok in Hok. apply andb_prop in Hok as [Hlow Hhigh].
  apply Z.leb_le in Hlow. apply Z.leb_le in Hhigh.
  cbn [isRetryable]. unfold isRateLimited.
  destruct (Z.eqb_spec (status r) 429); [lia|]. destruct (Z.eqb_spec (status r) 403); [lia|].
  destruct (Z.geb_spec (status r) 500); [lia | reflexivity].
Qed.

Lemma ownedCandidates_invalid config repos : ownedCandidates config None repos = [].
Proof.
  unfold ownedCandidates. induction repos as [|repo repos IH]; [reflexivity|].
  cbn [List.filter]. unfold updatedSince at 1.
  destruct (updated_at repo); rewrite andb_false_r; exact IH.
Qed.

(** X19. What the aggregation computes in front of a stable provider,
    with the organizations left out. When the listing of the repositories
    of the user is answered at once with an ok status and a JSON array of
    repositories, the result is exactly this: the candidates are the
    repositories of the listing that are not excluded and were updated
    since the start of the window, the first twenty of them in the order
    of the listing; the commit total is the sum over the candidates of
    the count that [getRepoCommits] returns for each, and the number of
    owned repositories is the number of candidates with a count of at
    least one. The size of the batches and the pauses between them have
    no part in the result. When the start of the window is out of the
    range of the dates there is no candidate, and the result is zero
    commits from zero repositories. *)
Theorem getCommitCount_owned_total username monitoringDays config w r repos :
  stableNetwork (network w) ->
  includeOrgRepos config = false ->
  reposApi (network w) (fetches w) (UserRepos username)
    (getGithubHeaders (githubToken config)) = Responded r ->
  ok r = true ->
  body r = Some (JsonArray (map Some repos)) ->
  let since := sinceDate (clock w) monitoringDays in
  let counts :=
    ownedCounts (network w) username config since (ownedCandidates config since repos) in
  fst (getCommitCount username monitoringDays config w)
  = Ok (mkCommitCount (sumZ counts) (mkSources (contributing counts) 0))
  /\ (since = None ->
      fst (getCommitCount username monitoringDays config w)
      = Ok (mkCommitCount 0 (mkSources 0 0))).
Proof.
  intros Hstable Hinclude Hanswer Hok Hbody since counts.
  assert (Hrun : fst (getCommitCount username monitoringDays config w)
                 = Ok (mkCommitCount (sumZ counts) (mkSources (contributing counts) 0))).
  { unfold getCommitCount. unfold bind at 1. cbn [newDate]. fold since. unfold bind at 1.
    rewrite (fetchWithRetry_first reposApi _ _ 2 1000 w r Hanswer Hok).
    unfold getCommitCountFrom. unfold bind at 1.
    set (w1 := afterFetch w (UserRepos username) (getGithubHeaders (githubToken config))).
    rewrite (ownedPass_array username config since r _ w1 Hok Hbody).
    unfold bind at 1. rewrite filterRepos_readable. cbv beta iota.
    fold (ownedCandidates config since repos).
    pose proof (ownedBatches_stable username config since (ownedCandidates config since repos)
                  (batchSizeOf config) (batchSizeOf_pos config)
                  (length (ownedCandidates config since repos)) 0 0 0 0 w1 Hstable ltac:(lia))
      as Hpass.
    cbn zeta in Hpass. rewrite drop_0 in Hpass. change (network w1) with (network w) in Hpass.
    fold counts in Hpass.
    destruct (ownedBatches _ _ _ _ _ _ _ _ _ _ w1) as [out w2]. cbn [fst] in Hpass. subst out.
    cbn [fst snd]. rewrite Hinclude. cbn [andb ret fst org]. rewrite !Z.add_0_l. reflexivity. }
  split; [exact Hrun|]. intros Hinvalid. rewrite Hrun. subst counts.
  rewrite Hinvalid, ownedCandidates_invalid. reflexivity.
Qed.

Lemma smallNetwork_stable : stableNetwork smallNetwork.
Proof. intros n m url options. repeat split. Qed.

(** The window of 14 days on the provider of [smallNetwork], and a
    window of 200000000 days, whose start is no date. *)
Lemma getCommitCount_owned_total_witness :
  fst (getCommitCount "octocat" 14 humanConfig (emptyWorld smallNetwork 0))
  = Ok (mkCommitCount 2 (mkSources 1 0))
  /\ fst (getCommitCount "octocat" 200000000 humanConfig (emptyWorld smallNetwork 0))
     = Ok (mkCommitCount 0 (mkSources 0 0)).
Proof.
  split.
  - apply (getCommitCount_owned_total "octocat" 14 humanConfig (emptyWorld smallNetwork 0)
             (mkResponse 200 None (Some (JsonArray [Some (mkRepo "app" (Some 0))])))
             [mkRepo "app" (Some 0)] smallNetwork_stable eq_refl eq_refl eq_refl eq_refl).
  - apply (getCommitCount_owned_total "octocat" 200000000 humanConfig
             (emptyWorld smallNetwork 0)
             (mkResponse 200 None (Some (JsonArray [Some (mkRepo "app" (Some 0))])))
             [mkRepo "app" (Some 0)] smallNetwork_stable eq_refl eq_refl eq_refl eq_refl).
    reflexivity.
Defined.

(** ** Configuration *)

Example split_on_values :
  map (split_on ",") ["a,b"; ""; ","; "a"; "a,,b,"]
  = [["a"; "b"]; [""]; [""; ""]; ["a"]; ["a"; ""; "b"; ""]].
Proof. reflexivity. Qed.

Example trim_values :
  map trim [" a b  "; ""; "   "; "x"; String "009" "y "] = ["a b"; ""; ""; "x"; "y"].
Proof. reflexivity. Qed.

Lemma toDouble_exact x : Z.abs x < 2 ^ 53 -> toDouble x = Some x.
Proof.
  intros H. unfold toDouble. destruct (Z.ltb_spec (Z.abs x) (2 ^ 53)) as [_|Hge]; [reflexivity|lia].
Qed.

Example toDouble_values :
  map toDouble [0; -7; 2 ^ 53; 2 ^ 53 + 1; 2 ^ 53 + 3; - (2 ^ 53) - 1; 2 ^ 54 + 2; 2 ^ 54 + 6;
                2 ^ 1024 - 2 ^ 970 - 1; 2 ^ 1024 - 2 ^ 970]
  = [Some 0; Some (-7); Some (2 ^ 53); Some (2 ^ 53); Some (2 ^ 53 + 4); Some (- (2 ^ 53));
     Some (2 ^ 54); Some (2 ^ 54 + 8); Some (2 ^ 1024 - 2 ^ 971); None].
Proof. vm_compute. reflexivity. Qed.

Lemma parse_digits_uint_acc : forall d acc,
  parse_digits 10 (NilEmpty.string_of_uint d) (Some (Z.pos acc))
  = Some (Z.pos (Pos.of_uint_acc d acc)).
Proof.
  induction d as [|d IH|d IH|d IH|d IH|d IH|d IH|d IH|d IH|d IH|d IH]; intros acc;
    [reflexivity|..];
    cbn [NilEmpty.string_of_uint parse_digits Pos.of_uint_acc];
    (match goal with
     | |- context [digit_value 10 ?c] =>
         let v := eval vm_compute in (digit_value 10 c) in
         change (digit_value 10 c) with v
     end);
    cbn iota; rewrite <- IH; f_equal; f_equal;
    change (default 0 (Some (Z.pos acc))) with (Z.pos acc); lia.
Qed.

Lemma parse_digits_uint : forall d,
  parse_digits 10 (NilEmpty.string_of_uint d) (Some 0) = Some (Z.of_N (Pos.of_uint d)).
Proof.
  induction d as [|d IH|d IH|d IH|d IH|d IH|d IH|d IH|d IH|d IH|d IH];
    [reflexivity|..];
    cbn [NilEmpty.string_of_uint parse_digits Pos.of_uint];
    (match goal with
     | |- context [digit_value 10 ?c] =>
         let v := eval vm_compute in (digit_value 10 c) in
         change (digit_value 10 c) with v
     end);
    cbn iota; change (default 0 (Some 0)) with 0;
    [exact IH | apply parse_digits_uint_acc ..].
Qed.

Lemma to_uint_not_Nil n : N.to_uint n <> Decimal.Nil.
Proof.
  destruct n as [|p]; [discriminate|]. apply DecimalPos.Unsigned.to_uint_nonnil.
Qed.

Lemma parseInt_uint d :
  d <> Decimal.Nil -> parseInt (NilEmpty.string_of_uint d) = toDouble (Z.of_N (N.of_uint d)).
Proof.
  intros Hd.
  assert (H : parseInt (NilEmpty.string_of_uint d)
              = match parse_digits 10 (NilEmpty.string_of_uint d) (Some 0) with
                | Some n => toDouble (1 * n)
                | None => None
                end).
  { destruct d as [|d|d|d|d|d|d|d|d|d|d]; [contradiction|..]; try reflexivity.
    destruct d; reflexivity. }
  rewrite H, parse_digits_uint. unfold N.of_uint. f_equal. lia.
Qed.

(** [parseInt] reads the decimal notation of a natural number back,
    rounded to the nearest number. *)
Lemma parseInt_decimal n : parseInt (decimal n) = toDouble (Z.of_N n).
Proof.
  unfold decimal. rewrite parseInt_uint by apply to_uint_not_Nil.
  rewrite DecimalN.Unsigned.of_to. reflexivity.
Qed.

(** Up to [2^53] the notation is read back exactly. *)
Lemma parseInt_decimal_exact n : (n < 2 ^ 53)%N -> parseInt (decimal n) = Some (Z.of_N n).
Proof.
  intros H. rewrite parseInt_decimal. apply toDouble_exact.
  change (2 ^ 53) with (Z.of_N (2 ^ 53)). lia.
Qed.

Example parseInt_rounds :
  map parseInt ["9007199254740992"; "9007199254740993"; "9007199254740995"; "1e3"]
  = [Some 9007199254740992; Some 9007199254740992; Some 9007199254740996; Some 1].
Proof. vm_compute. reflexivity. Qed.

Lemma decimal_truthy n : truthy (Some (decimal n)) = true.
Proof.
  unfold decimal. pose proof (to_uint_not_Nil n) as H.
  destruct (N.to_uint n); [contradiction|..]; reflexivity.
Qed.

Lemma numericSetting_parse value fallback text n :
  parseInt text = Some fallback ->
  numericSetting value fallback n -> parseInt (or_else value text) = Some n.
Proof.
  intros Htext [[Hunset ->]|(k & -> & _ & Hn)]; unfold or_else.
  - rewrite Hunset. exact Htext.
  - rewrite decimal_truthy. cbn [or_empty]. rewrite parseInt_decimal. exact Hn.
Qed.

Lemma split_on_not_nil sep s : split_on sep s <> [].
Proof.
  destruct s as [|c s]; cbn [split_on]; [discriminate|].
  destruct (Ascii.eqb c sep); [discriminate|]. destruct (split_on sep s); discriminate.
Qed.

Lemma skip_spaces_clean s : starts_clean (skip_spaces s) = true.
Proof.
  induction s as [|c s IH]; [reflexivity|]. cbn [skip_spaces].
  destruct (is_space c) eqn:Hc; [exact IH|]. cbn [starts_clean]. rewrite Hc. reflexivity.
Qed.

Lemma skip_spaces_id s : starts_clean s = true -> skip_spaces s = s.
Proof.
  destruct s as [|c s]; [reflexivity|]. cbn [starts_clean skip_spaces].
  intros H. apply negb_true_iff in H. rewrite H. reflexivity.
Qed.

Lemma trim_end_clean s : starts_clean s = true -> starts_clean (trim_end s) = true.
Proof.
  destruct s as [|c s]; [reflexivity|]. cbn [starts_clean trim_end]. intros H.
  apply negb_true_iff in H. destruct (trim_end s); [rewrite H|]; cbn [starts_clean];
    rewrite H; reflexivity.
Qed.

Lemma trim_end_idem s : trim_end (trim_end s) = trim_end s.
Proof.
  induction s as [|c s IH]; [reflexivity|]. cbn [trim_end].
  destruct (trim_end s) as [|c' t] eqn:E.
  - destruct (is_space c) eqn:Hc; [reflexivity|]. cbn [trim_end]. rewrite Hc. reflexivity.
  - cbn [trim_end] in *. rewrite IH. reflexivity.
Qed.

Lemma trim_idem s : trim (trim s) = trim s.
Proof.
  unfold trim. rewrite (skip_spaces_id (trim_end (skip_spaces s))).
  - apply trim_end_idem.
  - apply trim_end_clean, skip_spaces_clean.
Qed.

Lemma listSetting_trimmed value fallback :
  Forall (fun entry => trim entry = entry) fallback ->
  Forall (fun entry => trim entry = entry) (listSetting value fallback).
Proof.
  intros Hfallback. unfold listSetting. destruct (truthy value); [|exact Hfallback].
  apply Forall_map, Forall_forall. intros entry _. apply trim_idem.
Qed.

Lemma listSetting_nil value fallback :
  listSetting value fallback = [] <-> truthy value = false /\ fallback = [].
Proof.
  unfold listSetting. destruct (truthy value).
  - split; [|intros [H _]; discriminate H]. intros H. apply map_eq_nil in H.
    exfalso. exact (split_on_not_nil _ _ H).
  - tauto.
Qed.

(** X20. The two exclusion lists of a configuration. The list of
    excluded repositories is never empty: it is the default, "dotfiles"
    alone, when the variable is not set or is empty, and otherwise the
    entries of the variable between its commas, of which there is at
    least one. The list of excluded organizations is empty exactly when
    its variable is not set or is empty. No entry of either list begins
    or ends with white space. Organizations are included only for the
    value "true" of their variable, and the user name and the token are
    those of the environment. *)
Theorem getConfig_lists env config :
  getConfig env = Some config ->
  excludeRepos config <> []
  /\ (truthy (EXCLUDE_REPOS env) = false -> excludeRepos config = ["dotfiles"])
  /\ (excludeOrgs config = [] <-> truthy (EXCLUDE_ORGS env) = false)
  /\ Forall (fun entry => trim entry = entry) (excludeRepos config ++ excludeOrgs config)
  /\ (includeOrgRepos config = true <-> INCLUDE_ORG_REPOS env = Some "true")
  /\ username config = or_empty (GITHUB_USERNAME env)
  /\ githubToken config = GITHUB_TOKEN env.
Proof.
  unfold getConfig. intros H.
  destruct (parseInt (or_else (HEALTHY_THRESHOLD env) "15")); [|discriminate H].
  destruct (parseInt (or_else (MODERATE_THRESHOLD env) "5")); [|discriminate H].
  destruct (parseInt (or_else (MONITORING_DAYS env) "14")); [|discriminate H].
  destruct (parseInt (or_else (CACHE_TTL env) "86400")); [|discriminate H].
  destruct (parseInt (or_else (JST_UPDATE_HOUR env) "8")); [|discriminate H].
  destruct (parseInt (or_else (MAX_REPOS_PER_ORG env) "5")); [|discriminate H].
  injection H as <-. cbn [excludeRepos excludeOrgs includeOrgRepos username githubToken].
  split; [|split; [|split; [|split; [|split; [|split; reflexivity]]]]].
  - intros Hnil. apply listSetting_nil in Hnil as [_ Hnil]. discriminate Hnil.
  - intros Hunset. unfold listSetting. rewrite Hunset. reflexivity.
  - rewrite listSetting_nil. tauto.
  - apply Forall_app. split; apply listSetting_trimmed; repeat constructor.
  - destruct (INCLUDE_ORG_REPOS env) as [value|]; [|split; discriminate].
    rewrite String.eqb_eq. split; [intros ->; reflexivity | intros [= ->]; reflexivity].
Qed.

Lemma getConfig_lists_witness :
  exists config,
    getConfig (mkEnv (Some "octocat") None None None None None None (Some "TRUE") None
                 (Some " notes , dotfiles") (Some ""))
    = Some config
    /\ excludeRepos config = ["notes"; "dotfiles"]
    /\ excludeOrgs config = []
    /\ includeOrgRepos config = false.
Proof.
  eexists. split; [reflexivity|].
  destruct (getConfig_lists
              (mkEnv (Some "octocat") None None None None None None (Some "TRUE") None
                 (Some " notes , dotfiles") (Some "")) _ eq_refl)
    as (_ & _ & Horgs & _).
  split; [reflexivity|]. split; [apply Horgs; reflexivity | reflexivity].
Defined.

(** X21. The numeric settings of a configuration. When each of the six
    numeric variables is either not set, empty, or the decimal notation,
    in at most 20 digits, of a natural number, [getConfig] yields a
    configuration with a number in every numeric field: the number
    nearest to the one that the variable denotes, which is that number
    itself below [2^53], and the default when the variable is not set or
    is empty, which is 15 for the healthy threshold, 5 for the moderate
    threshold, 14 for the monitoring days, 86400 for the time to live of
    the cache, 8 for the refresh hour and 5 for the repositories per
    organization. *)
Theorem getConfig_numbers env healthy moderate days ttl hour perOrg :
  numericSetting (HEALTHY_THRESHOLD env) 15 healthy ->
  numericSetting (MODERATE_THRESHOLD env) 5 moderate ->
  numericSetting (MONITORING_DAYS env) 14 days ->
  numericSetting (CACHE_TTL env) 86400 ttl ->
  numericSetting (JST_UPDATE_HOUR env) 8 hour ->
  numericSetting (MAX_REPOS_PER_ORG env) 5 perOrg ->
  exists config,
    getConfig env = Some config
    /\ healthyThreshold config = healthy
    /\ moderateThreshold config = moderate
    /\ monitoringDays config = days
    /\ cacheTTL config = ttl
    /\ jstUpdateHour config = hour
    /\ maxReposPerOrg config = perOrg.
Proof.
  intros Hhealthy Hmoderate Hdays Httl Hhour HperOrg. unfold getConfig.
  rewrite (numericSetting_parse _ 15 "15" healthy eq_refl Hhealthy).
  rewrite (numericSetting_parse _ 5 "5" moderate eq_refl Hmoderate).
  rewrite (numericSetting_parse _ 14 "14" days eq_refl Hdays).
  rewrite (numericSetting_parse _ 86400 "86400" ttl eq_refl Httl).
  rewrite (numericSetting_parse _ 8 "8" hour eq_refl Hhour).
  rewrite (numericSetting_parse _ 5 "5" perOrg eq_refl HperOrg).
  eexists. split; [reflexivity|]. repeat split.
Qed.

(** A threshold of 20, an empty variable, and a time to live of
    [2^53 + 1], which is read as [2^53]. *)
Lemma getConfig_numbers_witness :
  getConfig (mkEnv (Some "octocat") (Some (decimal 20)) (Some "") None
               (Some "9007199254740993") (Some (decimal 0)) None None None None None)
  = Some (mkConfig "octocat" 20 5 14 9007199254740992 0 None false 5 ["dotfiles"] []).
Proof.
  destruct (getConfig_numbers
              (mkEnv (Some "octocat") (Some (decimal 20)) (Some "") None
                 (Some "9007199254740993") (Some (decimal 0)) None None None None None)
              20 5 14 9007199254740992 0 5) as (config & Hconfig & _).
  - right. exists 20%N. repeat split; reflexivity.
  - left. split; reflexivity.
  - left. split; reflexivity.
  - right. exists 9007199254740993%N. repeat split; reflexivity.
  - right. exists 0%N. repeat split; reflexivity.
  - left. split; reflexivity.
  - reflexivity.
Defined.

Lemma badge_configured config styleQuery w :
  truthy (Some (username config)) = true ->
  fst (badge config styleQuery w) <> Ok (TextResponse "GITHUB_USERNAME not configured" 500).
Proof.
  intros Hconfigured.
  destruct (kv w !! cacheKeyOf config) as [cached|] eqn:Hcached.
  - destruct (badge_present config styleQuery w cached Hconfigured Hcached)
      as (calls & events & -> & _). discriminate.
  - destruct (isBotAccount (Some (username config)) None None) eqn:Hbot.
    + rewrite (badge_absent_bot config styleQuery w Hconfigured Hcached Hbot). discriminate.
    + destruct (getCommitCount (username config) (monitoringDays config) config
                  (afterGet w (cacheKeyOf config))) as [[result|e] w2] eqn:Hagg.
      * rewrite (badge_absent_returned config styleQuery w result w2 Hconfigured Hcached
                   Hbot Hagg). discriminate.
      * rewrite (badge_absent_raised config styleQuery w e w2 Hconfigured Hcached Hbot Hagg).
        discriminate.
Qed.

(** X22. The /health route. The handler always returns its report and
    changes nothing: no access to the store, no call to the provider, no
    log line. The report carries the instant of the request, and its
    flag [configured] is false exactly when the /badge route answers the
    same environment with "GITHUB_USERNAME not configured". *)
Theorem health_report config styleQuery w :
  exists report,
    health config w = (Ok report, w)
    /\ report_status report = "ok"
    /\ report_timestamp report = clock w
    /\ (report_configured report = false <->
        fst (badge config styleQuery w)
        = Ok (TextResponse "GITHUB_USERNAME not configured" 500)).
Proof.
  eexists. split; [reflexivity|]. cbn [report_status report_timestamp report_configured].
  split; [reflexivity|]. split; [reflexivity|]. split.
  - intros Hunset. rewrite (badge_unconfigured config styleQuery w Hunset). reflexivity.
  - intros Hbadge. destruct (truthy (Some (username config))) eqn:Hconfigured; [|reflexivity].
    exfalso. exact (badge_configured config styleQuery w Hconfigured Hbadge).
Qed.

(** ** Badge style *)

Lemma badgeStyleOf_name styleParam :
  styleName (badgeStyleOf styleParam)
  = if isValidBadgeStyle styleParam then styleParam else "flat".
Proof.
  unfold badgeStyleOf, isValidBadgeStyle, includes, VALID_BADGE_STYLES. cbn [existsb].
  destruct (String.eqb_spec styleParam "flat") as [->|_]; [reflexivity|].
  destruct (String.eqb_spec styleParam "flat-square") as [->|_]; [reflexivity|].
  destruct (String.eqb_spec styleParam "plastic") as [->|_]; [reflexivity|].
  destruct (String.eqb_spec styleParam "for-the-badge") as [->|_]; [reflexivity|].
  destruct (String.eqb_spec styleParam "social") as [->|_]; reflexivity.
Qed.

(** X23. The style of the badge. The badge of a response is drawn in
    the style that the request names when the name is one of the five
    valid ones, compared exactly, and in the style "flat" otherwise: for
    a missing or empty parameter and for any other name, such as a valid
    name in upper case. Whatever the style, the badge and the headers
    of the response carry the status and the commits of the snapshot. *)
Theorem badgeResponse_style config styleQuery data :
  responseStyle (badgeResponse config styleQuery data)
  = Some (if truthy styleQuery && isValidBadgeStyle (or_empty styleQuery)
          then or_empty styleQuery else "flat")
  /\ (exists style,
        badgeResponse config styleQuery data
        = BadgeResponse (mkBadge (cached_status data) (cached_commits data) style)
            (cached_commits data) (cached_status data) (username config))
  /\ responseStyle (badgeResponse config (Some "Plastic") data) = Some "flat".
Proof.
  split; [|split; [eexists; reflexivity | reflexivity]].
  unfold badgeResponse. cbn [responseStyle badge_style]. rewrite badgeStyleOf_name.
  destruct (truthy styleQuery); reflexivity.
Qed.

(** ** An invariant of the store *)

Lemma getCommitCount_bounds username monitoringDays config w result :
  fst (getCommitCount username monitoringDays config w) = Ok result ->
  0 <= owned (sources result)
  /\ 0 <= org (sources result)
  /\ owned (sources result) + org (sources result) <= 20
  /\ owned (sources result) + org (sources result) <= commits result.
Proof.
  intros Hrun.
  destruct (Run_at _ _ w (Run_getCommitCount username monitoringDays config))
    as (_ & _ & _ & Hagg).
  rewrite Hrun in Hagg. cbn [aggregationRun] in Hagg.
  destruct Hagg as (ownedEvents & orgEvents & _ & H1 & H2 & H3 & H4 & _). auto.
Qed.

Lemma snapshotOf_consistent username monitoringDays config w result now :
  fst (getCommitCount username monitoringDays config w) = Ok result ->
  consistentSnapshot config (snapshotOf config result now).
Proof.
  intros Hrun. unfold consistentSnapshot, snapshotOf.
  cbn [cached_status cached_commits cached_sources].
  split; [reflexivity|]. apply (getCommitCount_bounds _ _ _ _ _ Hrun).
Qed.

(** The invariant after a write of a new snapshot at the clock, and
    after a step that leaves the store as it is. *)
Lemma storeInvariant_put config w w' result :
  storeInvariant config w ->
  clock w <= clock w' ->
  consistentSnapshot config (snapshotOf config result (clock w')) ->
  kv w' = <[cacheKeyOf config := snapshotOf config result (clock w')]> (kv w) ->
  storeInvariant config w'.
Proof.
  intros [Hdated Hconsistent] Hlater Hnew Hkv. split.
  - intros key data. rewrite Hkv.
    destruct (decide (key = cacheKeyOf config)) as [->|Hne].
    + rewrite lookup_insert_eq. intros [= <-]. cbn [snapshotOf lastUpdated]. lia.
    + rewrite lookup_insert_ne by congruence. intros Hdata.
      pose proof (Hdated key data Hdata). lia.
  - intros data. rewrite Hkv, lookup_insert_eq. intros [= <-]. exact Hnew.
Qed.

Lemma storeInvariant_keep config w w' :
  storeInvariant config w -> clock w <= clock w' -> kv w' = kv w -> storeInvariant config w'.
Proof.
  intros [Hdated Hconsistent] Hlater Hkv. split.
  - intros key data. rewrite Hkv. intros Hdata. pose proof (Hdated key data Hdata). lia.
  - intros data. rewrite Hkv. apply Hconsistent.
Qed.

Lemma aggregationRun_consistent user config result new now :
  aggregationRun user config (Ok result) new ->
  consistentSnapshot config (snapshotOf config result now).
Proof.
  intros (ownedEvents & orgEvents & _ & H1 & H2 & H3 & H4 & _).
  unfold consistentSnapshot, snapshotOf.
  cbn [cached_status cached_commits cached_sources]. auto.
Qed.

(** X24. An invariant of the store under the two operations that
    write it. If no snapshot of the store is dated after the clock and the
    snapshot of the monitored identity is consistent (its status is the
    classification of its commits under the configured thresholds, its
    counters of repositories are not negative and sum to at most 20 and
    to at most its commits), then the same holds after a request to
    /badge and after a background revalidation, be it run in one piece
    or resumed by the runtime as a task, whenever that is. A snapshot
    that the service wrote is therefore never dated in the future of a
    later request. *)
Theorem storeInvariant_preserved config styleQuery w :
  storeInvariant config w ->
  storeInvariant config (snd (badge config styleQuery w))
  /\ storeInvariant config (snd (updateCacheInBackground config (cacheKeyOf config) w))
  /\ (forall state,
        storeInvariant config
          (snd (runBackgroundTask (mkTask config (cacheKeyOf config) state) w))).
Proof.
  intros Hinv. split; [|split].
  - destruct (truthy (Some (username config))) eqn:Hconfigured.
    2:{ rewrite (badge_unconfigured config styleQuery w Hconfigured). exact Hinv. }
    destruct (kv w !! cacheKeyOf config) as [cached|] eqn:Hcached.
    + destruct (badge_present config styleQuery w cached Hconfigured Hcached)
        as (calls & events & -> & _).
      apply (storeInvariant_keep config w); [exact Hinv | cbn; lia | reflexivity].
    + destruct (isBotAccount (Some (username config)) None None) eqn:Hbot.
      * rewrite (badge_absent_bot config styleQuery w Hconfigured Hcached Hbot).
        apply (storeInvariant_keep config w); [exact Hinv | cbn; lia | reflexivity].
      * pose proof (getCommitCount_preserves (username config) (monitoringDays config) config
                      (afterGet w (cacheKeyOf config))) as [Hkv _].
        pose proof (getCommitCount_later (username config) (monitoringDays config) config
                      (afterGet w (cacheKeyOf config))) as Hlater. unfold later in Hlater.
        pose proof (snapshotOf_consistent (username config) (monitoringDays config) config
                      (afterGet w (cacheKeyOf config))) as Hnew.
        destruct (getCommitCount (username config) (monitoringDays config) config
                    (afterGet w (cacheKeyOf config))) as [[result|e] w2] eqn:Hagg;
          cbn [fst snd afterGet kv clock] in Hkv, Hlater, Hnew.
        -- rewrite (badge_absent_returned config styleQuery w result w2 Hconfigured Hcached
                      Hbot Hagg).
           apply (storeInvariant_put config w _ result Hinv).
           ++ cbn [snd clock]. exact Hlater.
           ++ apply Hnew. reflexivity.
           ++ cbn [snd kv clock]. rewrite Hkv. reflexivity.
        -- rewrite (badge_absent_raised config styleQuery w e w2 Hconfigured Hcached Hbot Hagg).
           apply (storeInvariant_keep config w); [exact Hinv | exact Hlater | exact Hkv].
  - destruct (isBotAccount (Some (username config)) None None) eqn:Hbot.
    + rewrite (update_bot config (cacheKeyOf config) w Hbot).
      apply (storeInvariant_keep config w); [exact Hinv | cbn; lia | reflexivity].
    + pose proof (getCommitCount_preserves (username config) (monitoringDays config) config w)
        as [Hkv _].
      pose proof (getCommitCount_later (username config) (monitoringDays config) config w)
        as Hlater. unfold later in Hlater.
      pose proof (snapshotOf_consistent (username config) (monitoringDays config) config w)
        as Hnew.
      destruct (getCommitCount (username config) (monitoringDays config) config w)
        as [[result|e] w2] eqn:Hagg; cbn [fst snd] in Hkv, Hlater, Hnew.
      * rewrite (update_returned config (cacheKeyOf config) w result w2 Hbot Hagg).
        apply (storeInvariant_put config w _ result Hinv).
        -- cbn [snd clock]. exact Hlater.
        -- apply Hnew. reflexivity.
        -- cbn [snd kv clock]. rewrite Hkv. reflexivity.
      * rewrite (update_raised config (cacheKeyOf config) w e w2 Hbot Hagg).
        apply (storeInvariant_keep config w); [exact Hinv | exact Hlater | exact Hkv].
  - intros [|since call]; [exact Hinv|].
    pose proof (resumeCommitCount_frame (username config) config since call w)
      as (Hkv & _ & Hlater). cbv zeta in Hkv, Hlater.
    destruct (Run_at _ _ w (Run_resumeCommitCount (username config) config since call))
      as (_ & _ & _ & Hagg).
    destruct (resumeCommitCount (username config) config since call w)
      as [[result|e] w2] eqn:Hrun; cbn [fst snd] in Hkv, Hlater, Hagg.
    + rewrite (task_returned config (cacheKeyOf config) since call w result w2 Hrun).
      apply (storeInvariant_put config w _ result Hinv).
      * cbn [snd clock]. exact Hlater.
      * apply (aggregationRun_consistent _ _ _ _ _ Hagg).
      * cbn [snd kv clock]. rewrite Hkv. reflexivity.
    + rewrite (task_raised config (cacheKeyOf config) since call w e w2 Hrun).
      apply (storeInvariant_keep config w); [exact Hinv | exact Hlater | exact Hkv].
Qed.

Lemma storeInvariant_empty config net now : storeInvariant config (emptyWorld net now).
Proof.
  split; intros; cbn [emptyWorld kv] in *; rewrite lookup_empty in *; discriminate.
Qed.

Lemma storeInvariant_preserved_witness :
  storeInvariant humanConfig (snd (badge humanConfig None (emptyWorld smallNetwork 0))).
Proof.
  apply (storeInvariant_preserved humanConfig None (emptyWorld smallNetwork 0)).
  split; intros; cbn [emptyWorld kv] in *; rewrite lookup_empty in *; discriminate.
Defined.

(** ** The number of calls of an aggregation *)

Section CallRules.
Context {A B : Type}.

Lemma Calls_ret (a : A) : Calls 0 (ret a).
Proof. intros w. cbn. lia. Qed.

Lemma Calls_throw (e : Error) : Calls 0 (@throw A e).
Proof. intros w. cbn. lia. Qed.

Lemma Calls_weaken (n n' : nat) (m : M A) : (n <= n')%nat -> Calls n m -> Calls n' m.
Proof. intros Hle Hm w. pose proof (Hm w). lia. Qed.

Lemma Calls_bind (n n' : nat) (m : M A) (k : A -> M B) :
  Calls n m -> (forall a, Calls n' (k a)) -> Calls (n + n') (bind m k).
Proof.
  intros Hm Hk w. unfold bind. pose proof (Hm w) as H1.
  destruct (m w) as [[a|e] w1]; cbn [snd] in *; [|lia].
  pose proof (Hk a w1). lia.
Qed.

Lemma Calls_try_catch (n n' : nat) (m : M A) (h : Error -> M A) :
  Calls n m -> (forall e, Calls n' (h e)) -> Calls (n + n') (try_catch m h).
Proof.
  intros Hm Hh w. unfold try_catch. pose proof (Hm w) as H1.
  destruct (m w) as [[a|e] w1]; cbn [snd] in *; [lia|].
  pose proof (Hh e w1). lia.
Qed.
End CallRules.

Lemma Calls_console level message : Calls 0 (console level message).
Proof. intros w. cbn. lia. Qed.

Lemma Calls_sleep ms : Calls 0 (sleep ms).
Proof. intros w. cbn. lia. Qed.

Lemma Calls_json {A} (r : Response A) : Calls 0 (json r).
Proof. unfold json. destruct (body r); [apply Calls_ret | apply Calls_throw]. Qed.

Lemma Calls_pure {A} (m : M A) : Pure m -> Calls 0 m.
Proof. intros [o Hm] w. rewrite Hm. cbn. lia. Qed.

Lemma Calls_asArray {A} (v : Json A) : Calls 0 (asArray v).
Proof. apply Calls_pure, Pure_asArray. Qed.

Lemma Calls_fetchWithRetry {A} (api : Api A) url options maxRetries initialDelay :
  Calls maxRetries (fetchWithRetry api url options maxRetries initialDelay).
Proof.
  intros w. unfold fetchWithRetry.
  destruct (fetchLoop_cost api url options maxRetries initialDelay maxRetries 0 None w)
    as (Hok & Hthrow & _).
  destruct (fst (fetchLoop api url options maxRetries initialDelay maxRetries 0 None w))
    as [r|e] eqn:Hout.
  - destruct (Hok r eq_refl) as [_ Hcalls]. lia.
  - rewrite (Hthrow e eq_refl). lia.
Qed.

Lemma Calls_getRepoCommits username repoOwner repoName since token :
  Calls 3 (getRepoCommits username repoOwner repoName since token).
Proof.
  intros w. destruct since as [since|]; [|cbn; lia].
  rewrite getRepoCommits_fetches. apply Calls_fetchWithRetry.
Qed.

Lemma Calls_ownedBatchPromise username config since repo :
  Calls 3 (ownedBatchPromise username config since repo).
Proof.
  unfold ownedBatchPromise. apply (Calls_try_catch 3 0).
  - apply (Calls_bind 3 0); [apply Calls_getRepoCommits|]. intros n. apply Calls_ret.
  - intros e. apply (Calls_bind 0 0); [apply Calls_console|]. intros _. apply Calls_ret.
Qed.

Lemma Calls_mapM {A B} (n : nat) (f : A -> M B) (l : list A) :
  (forall x, Calls n (f x)) -> Calls (n * length l) (mapM f l).
Proof.
  intros Hf. induction l as [|x l IH]; cbn [mapM length].
  - apply (Calls_weaken 0); [lia | apply Calls_ret].
  - apply (Calls_weaken (n + (n * length l + 0))); [lia|].
    apply Calls_bind; [apply Hf|]. intros y.
    apply Calls_bind; [exact IH|]. intros ys. apply Calls_ret.
Qed.

Lemma Calls_ownedBatches username config since reposToProcess batchSize :
  forall steps i totalCommits ownedRepos processedRepos,
    Calls (3 * length (drop i reposToProcess))
      (ownedBatches steps username config since reposToProcess batchSize i
         totalCommits ownedRepos processedRepos).
Proof.
  induction steps as [|steps IH]; intros i totalCommits ownedRepos processedRepos;
    cbn [ownedBatches].
  - apply (Calls_weaken 0); [lia | apply Calls_ret].
  - destruct (i <? length reposToProcess)%nat; [|apply (Calls_weaken 0); [lia | apply Calls_ret]].
    set (batch := slice i (i + batchSize) reposToProcess).
    assert (Hsplit : drop i reposToProcess = batch ++ drop (i + batchSize) reposToProcess).
    { unfold batch, slice. replace (i + batchSize - i)%nat with batchSize by lia.
      rewrite <- drop_drop. symmetry. apply take_drop. }
    apply (Calls_weaken (3 * length batch
                         + (0 + 3 * length (drop (i + batchSize) reposToProcess)))).
    { rewrite Hsplit, length_app. lia. }
    apply Calls_bind.
    + apply Calls_mapM. intros repo. apply Calls_ownedBatchPromise.
    + intros results. apply Calls_bind; [|intros _; apply IH].
      destruct (i + batchSize <? length reposToProcess)%nat;
        [apply Calls_sleep | apply Calls_ret].
Qed.

(** X25. The calls of an aggregation without organizations. With the
    organizations left out, a run of [getCommitCount] calls the provider
    at most 63 times: at most three times for the listing of the
    repositories of the user and at most three times for each of at most
    twenty repositories. *)
Theorem getCommitCount_calls username monitoringDays config w :
  includeOrgRepos config = false ->
  (fetches (snd (getCommitCount username monitoringDays config w)) <= fetches w + 63)%nat.
Proof.
  intros Hinclude. unfold getCommitCount. unfold bind at 1. cbn [newDate].
  set (since := sinceDate (clock w) monitoringDays). clearbody since. revert w.
  change (Calls 63
    (ownedRepos <-
       fetchWithRetry reposApi (UserRepos username) (getGithubHeaders (githubToken config))
         3 1000 ;;
     getCommitCountFrom username config since ownedRepos)).
  apply (Calls_bind 3 60); [apply Calls_fetchWithRetry|]. intros ownedRepos.
  unfold getCommitCountFrom. rewrite Hinclude. cbn [andb].
  apply (Calls_bind 60 0); [|intros counters; apply Calls_ret].
  unfold ownedPass.
  destruct (ok ownedRepos); [|apply (Calls_weaken 0); [lia | apply Calls_ret]].
  apply (Calls_bind 0 60); [apply Calls_json|]. intros v.
  apply (Calls_bind 0 60); [apply Calls_asArray|]. intros repos.
  apply (Calls_bind 0 60); [apply Calls_pure, Pure_filterRepos|]. intros filtered.
  cbv zeta. eapply Calls_weaken; [|apply Calls_ownedBatches].
  rewrite drop_0, length_take. lia.
Qed.

Lemma getCommitCount_calls_witness :
  (fetches (snd (getCommitCount "octocat" 14 humanConfig (emptyWorld smallNetwork 0))) <= 63)%nat.
Proof.
  apply (getCommitCount_calls "octocat" 14 humanConfig (emptyWorld smallNetwork 0)).
  reflexivity.
Defined.

(** ** Hints that give no wait *)

Lemma uselessHint_retry {A} initialDelay attempt (o : FetchOutcome A) :
  uselessHint o = true ->
  isRetryable o = true
  /\ Z.max 0 (default 0 (retryDelay initialDelay attempt o)) = 0
  /\ forall lastError, captureError lastError o = lastError.
Proof.
  destruct o as [e|r]; [discriminate|]. cbn [uselessHint isRetryable retryDelay captureError].
  intros H. apply andb_prop in H as [H Hwait]. apply andb_prop in H as [Hlimited Hhint].
  rewrite Hlimited. split; [reflexivity|]. split; [|reflexivity].
  destruct (retryAfter r) as [hint|]; [|discriminate Hhint]. cbn [truthy or_empty] in *.
  apply negb_true_iff in Hhint. rewrite Hhint.
  destruct (times1000 (parseInt hint)) as [ms|]; [|reflexivity].
  apply Z.leb_le in Hwait. change (default 0 (Some ms)) with ms. lia.
Qed.

Lemma fetchLoop_uselessHints {A} (api : Api A) url options maxRetries initialDelay :
  forall budget i lastError w,
    forallb uselessHint (answers api w url options budget) = true ->
    let run := fetchLoop api url options maxRetries initialDelay budget i lastError w in
    fst run = Throw (default (RetriesExhausted url maxRetries) lastError)
    /\ clock (snd run) = clock w
    /\ fetches (snd run) = (fetches w + budget)%nat.
Proof.
  induction budget as [|budget IH]; intros i lastError w Hhints run.
  - subst run. cbn [fetchLoop throw fst snd]. split; [destruct lastError; reflexivity|].
    split; [reflexivity | lia].
  - set (o := api (network w) (fetches w) url options).
    set (w1 := afterRetry w url options initialDelay i o).
    rewrite (answers_S api w w1 url options budget eq_refl eq_refl) in Hhints.
    fold o in Hhints. cbn [forallb] in Hhints. apply andb_prop in Hhints as [Hhint Hhints].
    destruct (uselessHint_retry initialDelay i o Hhint) as (Hretry & Hwait & Hkeep).
    assert (Hrun : run = fetchLoop api url options maxRetries initialDelay budget (S i)
                           (captureError lastError o) w1)
      by (apply fetchLoop_retry; exact Hretry).
    rewrite Hrun, Hkeep. destruct (IH (S i) lastError w1 Hhints) as (Hout & Hclock & Hcalls).
    split; [exact Hout|]. rewrite Hclock, Hcalls. cbn [w1 afterRetry clock fetches].
    rewrite Hwait. split; lia.
Qed.

(** X26. A [retry-after] header that [parseInt] cannot use. When every
    answer within the budget is a 429 or a 403 whose [retry-after] header
    is present but does not begin with a positive number, as when it is
    given as a date, the client does not wait at all: it spends its
    whole budget of calls without the clock moving and raises the error
    of the exhausted retries. *)
Theorem fetchWithRetry_useless_hint {A} (api : Api A) url options maxRetries initialDelay w :
  forallb uselessHint (answers api w url options maxRetries) = true ->
  let run := fetchWithRetry api url options maxRetries initialDelay w in
  fst run = Throw (RetriesExhausted url maxRetries)
  /\ clock (snd run) = clock w
  /\ fetches (snd run) = (fetches w + maxRetries)%nat.
Proof.
  intros Hhints. apply (fetchLoop_uselessHints api url options maxRetries initialDelay
                          maxRetries 0 None w Hhints).
Qed.

Lemma fetchWithRetry_useless_hint_witness :
  let run := fetchWithRetry reposApi (UserRepos "octocat") (mkInit None) 3 1000
               (emptyWorld datedNetwork 0) in
  clock (snd run) = 0 /\ fetches (snd run) = 3%nat.
Proof.
  intros run.
  destruct (fetchWithRetry_useless_hint reposApi (UserRepos "octocat") (mkInit None) 3 1000
              (emptyWorld datedNetwork 0) eq_refl) as (_ & Hclock & Hcalls).
  split; [exact Hclock | exact Hcalls].
Defined.

(** ** The caps of the organization pass *)

Lemma pushOrgRepos_take config since maxRepos orgLogin : forall repos allOrgRepos w,
  pushOrgRepos config since maxRepos orgLogin (map Some repos) allOrgRepos w
  = (Ok (allOrgRepos
         ++ take (room maxRepos (Z.of_nat (length allOrgRepos)))
              (acceptedOf config since (Some (orgLogin, repos)))), w).
Proof.
  unfold room, acceptedOf.
  induction repos as [|repo repos IH]; intros allOrgRepos w; cbn [map pushOrgRepos].
  - cbn [List.filter map]. rewrite take_nil, app_nil_r. reflexivity.
  - destruct (Z.geb_spec (Z.of_nat (length allOrgRepos)) maxRepos) as [Hfull|Hroom].
    + replace (Z.to_nat (maxRepos - Z.of_nat (length allOrgRepos))) with 0%nat by lia.
      rewrite take_0, app_nil_r. reflexivity.
    + rewrite IH. cbn [List.filter]. fold (accepted config since repo).
      destruct (accepted config since repo).
      * rewrite length_app. cbn [length map].
        replace (Z.to_nat (maxRepos - Z.of_nat (length allOrgRepos)))
          with (S (Z.to_nat (maxRepos - Z.of_nat (length allOrgRepos + 1)))) by lia.
        cbn [take]. rewrite <- app_assoc. reflexivity.
      * reflexivity.
Qed.

Lemma flattenOrgRepos_take config since maxRepos : forall results allOrgRepos w,
  flattenOrgRepos config since maxRepos (map listed results) allOrgRepos w
  = (Ok (allOrgRepos
         ++ take (room maxRepos (Z.of_nat (length allOrgRepos)))
              (flat_map (acceptedOf config since) results)), w).
Proof.
  induction results as [|[[orgLogin repos]|] results IH]; intros allOrgRepos w;
    cbn [map listed flattenOrgRepos flat_map].
  - rewrite take_nil, app_nil_r. reflexivity.
  - unfold bind at 1. cbn [asArray ret]. unfold bind at 1. rewrite pushOrgRepos_take, IH.
    set (first := acceptedOf config since (Some (orgLogin, repos))).
    set (n := room maxRepos (Z.of_nat (length allOrgRepos))).
    rewrite <- app_assoc. do 3 f_equal.
    rewrite take_app. f_equal. f_equal.
    unfold room, n, room. rewrite length_app, length_take. lia.
  - cbn [acceptedOf app]. apply IH.
Qed.

(** X27. The candidates of the organization pass. When every listing
    that succeeded has an array of repositories as its body, the
    repositories whose commit history the pass may read are the first
    [maxRepos] accepted repositories, in the order of the organizations
    and, within one organization, in the order of its listing; a
    repository is accepted when it was updated since the start of the
    window and its name is not excluded. Repositories beyond the cap are
    dropped before any commit history is read. *)
Theorem flattenOrgRepos_candidates config since maxRepos results w :
  flattenOrgRepos config since maxRepos (map listed results) [] w
  = (Ok (take (Z.to_nat maxRepos) (flat_map (acceptedOf config since) results)), w).
Proof.
  rewrite flattenOrgRepos_take. cbn [app length]. unfold room.
  change (Z.of_nat 0) with 0. rewrite Z.sub_0_r. reflexivity.
Qed.

Lemma contributions_cons result results :
  contributions (result :: results)
  = match result with
    | Some commits => commits :: contributions results
    | None => contributions results
    end.
Proof. destruct result; reflexivity. Qed.

(** X28. The cap of the organization pass on the results of a batch.
    [countOrgResults] admits the contributions of the batch in their
    order while there is room under [maxRepos]: the counter of
    repositories grows by the number of contributions admitted, which is
    the smaller of the room left and the number of contributions, and the
    total by the sum of their counts; the contributions beyond the cap
    are dropped although their commit histories were read. *)
Theorem countOrgResults_admits maxRepos : forall results totalOrgCommits processedOrgRepos,
  let admitted := take (room maxRepos processedOrgRepos) (contributions results) in
  countOrgResults maxRepos results totalOrgCommits processedOrgRepos
  = (totalOrgCommits + sumZ admitted, processedOrgRepos + Z.of_nat (length admitted)).
Proof.
  unfold room. induction results as [|[commits|] results IH];
    intros totalOrgCommits processedOrgRepos; cbn zeta in *; cbn [countOrgResults].
  - change (contributions []) with (@nil Z). rewrite take_nil. cbn [sumZ fold_right length].
    change (Z.of_nat 0) with 0. rewrite !Z.add_0_r. reflexivity.
  - rewrite contributions_cons.
    destruct (Z.ltb_spec processedOrgRepos maxRepos) as [Hroom|Hfull].
    + rewrite IH.
      replace (Z.to_nat (maxRepos - processedOrgRepos))
        with (S (Z.to_nat (maxRepos - (processedOrgRepos + 1)))) by lia.
      cbn [take length sumZ fold_right].
      apply pair_equal_spec. split; [unfold sumZ|]; lia.
    + rewrite IH.
      replace (Z.to_nat (maxRepos - processedOrgRepos)) with 0%nat by lia.
      rewrite !take_0. reflexivity.
  - rewrite contributions_cons. apply IH.
Qed.
